(** * ChatGPT Team exporter: the shape normaliser, the listing loop and the
      sidebar link discovery of [export_chatgpt_team.py]

    The development embeds the pure and the loop-shaped parts of
    [src/export_chatgpt_team.py]:

    - the Python values the script receives from the browser (JSON-like:
      [None], booleans, numbers, strings, lists, dicts) and the handful of
      built-ins the script applies to them ([dict.get], [or], truthiness,
      [str.strip], [str.join], [str.rsplit], [list.sort]);
    - [convert_api_conversation], the shape normaliser, on JSON values and
      a second time on a store of objects, where lists are sorted and
      appended to in place;
    - the JavaScript listing loop [LIST_JS] and its Python wrapper;
    - [load_all_chats_dom]: scroll-and-settle, link collection, de-duplication;
    - the two conversation loops of [main].

    Exceptions are explicit: a computation returns [Ok v] or [Raise e].
    The browser is an oracle: what a page answers is an argument of the
    model, what the script does with the answer is the model. *)

From Stdlib Require Import String Ascii List ZArith QArith Bool Lia.
From Stdlib Require Import Permutation Sorted.
From stdpp Require Import base gmap sets list strings.

Set Warnings "-register-all".

Local Open Scope string_scope.
Local Open Scope list_scope.

(** * The embedding of the script *)

(** ** Python values *)

(** A number is a rational: Python compares [int] and [float] by value, and
    nothing in the script does arithmetic on a payload number. A dict is
    kept as its items in insertion order, which is the order of
    [dict.values()]; the keys of a Python dict are distinct. A string is a
    sequence of code points below 256. *)
Inductive value : Type :=
| VNone
| VBool (b : bool)
| VNum (q : Q)
| VStr (s : string)
| VList (l : list value)
| VDict (kvs : list (string * value)).

(** The exceptions the modelled lines can raise; [PlaywrightError] stands
    for any exception of a browser call. *)
Inductive exn : Type :=
| AttributeError
| TypeError
| PlaywrightError.

Inductive result (A : Type) : Type :=
| Ok (a : A)
| Raise (e : exn).

Arguments Ok {A} a.
Arguments Raise {A} e.

Definition bind {A B : Type} (r : result A) (k : A -> result B) : result B :=
  match r with
  | Ok a => k a
  | Raise e => Raise e
  end.

Notation "'let!' x ':=' r 'in' k" := (bind r (fun x => k))
  (at level 10, x name, r at level 100, k at level 200).

(** [for x in l: acc = f(acc, x)], stopping at the first exception. *)
Fixpoint for_each {A B : Type} (f : B -> A -> result B) (l : list A) (acc : B)
  : result B :=
  match l with
  | [] => Ok acc
  | x :: l' => let! acc' := f acc x in for_each f l' acc'
  end.

(** [[f(x) for x in l]], stopping at the first exception. *)
Fixpoint map_each {A B : Type} (f : A -> result B) (l : list A)
  : result (list B) :=
  match l with
  | [] => Ok []
  | x :: l' => let! y := f x in let! ys := map_each f l' in Ok (y :: ys)
  end.

(** *** Truthiness, [or], [isinstance] *)

Definition q_is_zero (q : Q) : bool := Qeq_bool q 0.

Definition truthy (v : value) : bool :=
  match v with
  | VNone => false
  | VBool b => b
  | VNum q => negb (q_is_zero q)
  | VStr s => negb (String.eqb s "")
  | VList l => match l with [] => false | _ :: _ => true end
  | VDict kvs => match kvs with [] => false | _ :: _ => true end
  end.

(** [a or b] *)
Definition py_or (a b : value) : value := if truthy a then a else b.

(** [a or b] where [b] is only evaluated when [a] is falsy. *)
Definition py_or_else (a : value) (b : result value) : result value :=
  if truthy a then Ok a else b.

Definition is_str (v : value) : bool :=
  match v with VStr _ => true | _ => false end.

Definition is_list (v : value) : bool :=
  match v with VList _ => true | _ => false end.

Definition is_dict (v : value) : bool :=
  match v with VDict _ => true | _ => false end.

(** *** Dict access *)

Fixpoint assoc (k : string) (kvs : list (string * value)) : option value :=
  match kvs with
  | [] => None
  | (k', v) :: rest => if String.eqb k k' then Some v else assoc k rest
  end.

(** [d.get(k)] on the items of a dict. *)
Definition field (k : string) (kvs : list (string * value)) : value :=
  match assoc k kvs with
  | Some v => v
  | None => VNone
  end.

(** [d.get(k, default)]: only a dict has [get]. *)
Definition py_get_default (d : value) (k : string) (default : value)
  : result value :=
  match d with
  | VDict kvs => Ok (match assoc k kvs with Some v => v | None => default end)
  | _ => Raise AttributeError
  end.

(** [d.get(k)] *)
Definition py_get (d : value) (k : string) : result value :=
  py_get_default d k VNone.

(** [list(d.values())] *)
Definition py_values (d : value) : result (list value) :=
  match d with
  | VDict kvs => Ok (map snd kvs)
  | _ => Raise AttributeError
  end.

(** [d[k] = v] on the items of a dict: the value of an existing key is
    replaced in place, a new key goes last. *)
Fixpoint dict_set (k : string) (v : value) (kvs : list (string * value))
  : list (string * value) :=
  match kvs with
  | [] => [(k, v)]
  | (k', v') :: rest =>
      if String.eqb k k' then (k, v) :: rest else (k', v') :: dict_set k v rest
  end.

Definition py_setitem (d : value) (k : string) (v : value) : result value :=
  match d with
  | VDict kvs => Ok (VDict (dict_set k v kvs))
  | _ => Raise TypeError
  end.

(** *** Strings *)

(** [str.isspace] on one character; a character is its code point below 256.
    Python counts as white space: tab, line feed, vertical tab, form feed,
    carriage return, the four separators 28..31, space, NEL (133) and the
    no-break space (160). *)
Definition is_space (c : ascii) : bool :=
  let n := nat_of_ascii c in
  (((9 <=? n) && (n <=? 13)) || ((28 <=? n) && (n <=? 32))
   || (n =? 133) || (n =? 160))%nat.

Fixpoint drop_space (l : list ascii) : list ascii :=
  match l with
  | [] => []
  | c :: l' => if is_space c then drop_space l' else l
  end.

(** [s.strip()] *)
Definition strip (s : string) : string :=
  string_of_list_ascii
    (rev (drop_space (rev (drop_space (list_ascii_of_string s))))).

Definition newline : string := String (ascii_of_nat 10) EmptyString.

(** [sep.join(items)]: every item must be a [str]. *)
Fixpoint py_join (sep : string) (items : list value) : result string :=
  match items with
  | [] => Ok ""
  | VStr s :: rest =>
      match rest with
      | [] => Ok s
      | _ :: _ => let! t := py_join sep rest in Ok (s ++ sep ++ t)%string
      end
  | _ :: _ => Raise TypeError
  end.

(** [needle in hay] *)
Fixpoint contains (needle hay : string) : bool :=
  if String.prefix needle hay then true
  else
    match hay with
    | EmptyString => false
    | String _ hay' => contains needle hay'
    end.

Definition slash : ascii := ascii_of_nat 47.

(** What follows the last ["/"] of [s]; [None] when [s] has none. *)
Fixpoint after_last_slash (s : string) : option string :=
  match s with
  | EmptyString => None
  | String c s' =>
      match after_last_slash s' with
      | Some t => Some t
      | None => if Ascii.eqb c slash then Some s' else None
      end
  end.

(** [s.rsplit("/", 1)[-1]] *)
Definition rsplit_last (s : string) : string :=
  match after_last_slash s with
  | Some t => t
  | None => s
  end.

(** The double quote of the selectors. *)
Definition dq : string := String (ascii_of_nat 34) EmptyString.

(** *** Comparison *)

Definition b2q (b : bool) : Q := if b then 1%Q else 0%Q.

(** The numeric value of an [int], [float] or [bool]. *)
Definition num_of (v : value) : option Q :=
  match v with
  | VNum q => Some q
  | VBool b => Some (b2q b)
  | _ => None
  end.

(** [a == b]: numbers and booleans by value, lists item by item, dicts key
    by key whatever the order of their items. *)
Fixpoint py_eq (a b : value) {struct a} : bool :=
  match a, b with
  | VNone, VNone => true
  | VStr s, VStr t => String.eqb s t
  | VList l, VList m =>
      (fix items (l m : list value) {struct l} : bool :=
         match l, m with
         | [], [] => true
         | x :: l', y :: m' => py_eq x y && items l' m'
         | _, _ => false
         end) l m
  | VDict d, VDict e =>
      (length d =? length e)%nat &&
      (fix entries (d : list (string * value)) {struct d} : bool :=
         match d with
         | [] => true
         | (k, v) :: d' =>
             match assoc k e with
             | Some w => py_eq v w
             | None => false
             end && entries d'
         end) d
  | VBool x, VBool y => Bool.eqb x y
  | VBool x, VNum q => Qeq_bool (b2q x) q
  | VNum p, VBool y => Qeq_bool p (b2q y)
  | VNum p, VNum q => Qeq_bool p q
  | _, _ => false
  end.

(** [a < b]: defined between numbers (booleans included), between strings
    (by code point) and between lists (at the first pair of items that are
    not equal, else by length); any other pair raises [TypeError]. *)
Fixpoint py_lt (a b : value) {struct a} : result bool :=
  match a, b with
  | VStr s, VStr t => Ok (String.ltb s t)
  | VList l, VList m =>
      (fix items (l m : list value) {struct l} : result bool :=
         match l, m with
         | [], [] => Ok false
         | [], _ :: _ => Ok true
         | _ :: _, [] => Ok false
         | x :: l', y :: m' => if py_eq x y then items l' m' else py_lt x y
         end) l m
  | _, _ =>
      match num_of a, num_of b with
      | Some x, Some y => Ok (negb (Qle_bool y x))
      | _, _ => Raise TypeError
      end
  end.

(** *** [list.sort(key=...)] *)

(** [list.sort] is stable and compares keys with [<] only. It is modelled
    by insertion from the right, which is stable: an item goes after the
    sorted items whose key is strictly smaller and before all others. When
    every pair of keys is comparable any stable sort returns this list. *)
Fixpoint insert_keyed (x : value * value) (l : list (value * value))
  : result (list (value * value)) :=
  match l with
  | [] => Ok [x]
  | y :: l' =>
      let! smaller := py_lt (fst y) (fst x) in
      if smaller
      then let! r := insert_keyed x l' in Ok (y :: r)
      else Ok (x :: y :: l')
  end.

Fixpoint sort_keyed (l : list (value * value)) : result (list (value * value)) :=
  match l with
  | [] => Ok []
  | x :: l' => let! s := sort_keyed l' in insert_keyed x s
  end.

(** [l.sort(key=key)]: all keys are computed first, then the items are
    ordered by key. *)
Definition py_sort (key : value -> result value) (l : list value)
  : result (list value) :=
  let! keys := map_each key l in
  let! sorted := sort_keyed (combine keys l) in
  Ok (map snd sorted).

(** ** The shape normaliser: [convert_api_conversation] *)

(** [lambda n: (n.get("message", {}).get("create_time") or 0)] *)
Definition sort_key (n : value) : result value :=
  let! m := py_get_default n "message" (VDict []) in
  let! t := py_get m "create_time" in
  Ok (py_or t (VNum 0)).

(** The body of [for p in parts]: [chunk] after looking at [p]. A string
    part is appended, an object part gives its [text] when it has one, any
    other part is passed over. *)
Definition add_part (chunk : list value) (p : value) : list value :=
  match p with
  | VStr _ => chunk ++ [p]
  | VDict kvs =>
      match assoc "text" kvs with
      | Some t => chunk ++ [t]
      | None => chunk
      end
  | _ => chunk
  end.

(** Lines 192-207: the text of a message, from its [content]. The first
    branch is [isinstance(parts, list) and parts]; the second is
    [isinstance(content.get("text"), str)]; the third is
    [isinstance(content, str)]. *)
Definition extract_text (content : value) : result string :=
  let! parts := py_get content "parts" in
  match parts with
  | VList (p :: ps) =>
      let chunk := fold_left add_part (p :: ps) [] in
      let! joined := py_join newline chunk in
      Ok (strip joined)
  | _ =>
      let! t := py_get content "text" in
      match t with
      | VStr s => Ok (strip s)
      | _ =>
          match content with
          | VStr s => Ok (strip s)
          | _ => Ok ""
          end
      end
  end.

(** Lines 189-208: the message record of one node. *)
Definition node_message (n : value) : result value :=
  let! m0 := py_get n "message" in
  let m := py_or m0 (VDict []) in
  let! a0 := py_get m "author" in
  let! r0 := py_get (py_or a0 (VDict [])) "role" in
  let author := py_or r0 (VStr "assistant") in
  let! c0 := py_get m "content" in
  let content := py_or c0 (VDict []) in
  let! text := extract_text content in
  Ok (VDict [("role", author); ("text", VStr text); ("html", VNone)]).

(** Lines 174-213. *)
Definition convert_api_conversation (api_obj : value) : result value :=
  let! i1 := py_get api_obj "id" in
  let! cid := py_or_else i1 (py_get api_obj "conversation_id") in
  let! t1 := py_get api_obj "title" in
  let! t2 := py_or_else t1 (py_get api_obj "current_node") in
  let title := py_or t2 (VStr "Untitled") in
  let! mp := py_get api_obj "mapping" in
  let mapping := py_or mp (VDict []) in
  let! msgs :=
    (if truthy mapping then
       let! nodes0 := py_values mapping in
       let! nodes := py_sort sort_key nodes0 in
       for_each (fun msgs n => let! msg := node_message n in Ok (msgs ++ [msg]))
                nodes []
     else Ok []) in
  Ok (VDict [("id", cid); ("title", title); ("messages", VList msgs)]).

(** ** The listing loop: [LIST_JS] and [list_conversations_via_api] *)

(** What one [fetch] of a listing URL comes to: [NoReply] when [fetch]
    throws, when the status is not ok, or when the body is not JSON (all
    three leave [ok] false); [Reply data] otherwise. *)
Inductive response : Type :=
| NoReply
| Reply (data : value).

(** One pass of [while (true)]: what the two URL variants answer at the
    current offset. The second is only asked when the first gives no
    reply. *)
Record round : Type := { primary : response; secondary : response }.

(** [offset]: a number, or a string once [+=] has concatenated. A
    JavaScript number is a double: [OffNum q] is the double of value [q];
    [OffRounded] is the double nearest to a sum that is not known to be
    exact, a value that is not followed any further. *)
Inductive js_offset : Type :=
| OffNum (q : Q)
| OffRounded
| OffText.

(** JavaScript truthiness of a JSON value: arrays and objects are true. *)
Definition js_truthy (v : value) : bool :=
  match v with
  | VNone => false
  | VBool b => b
  | VNum q => negb (q_is_zero q)
  | VStr s => negb (String.eqb s "")
  | VList _ | VDict _ => true
  end.

(** [data.k]: [undefined] (here [VNone], like [null]) unless [data] is an
    object with that key. *)
Definition js_prop (data : value) (k : string) : value :=
  match data with
  | VDict kvs => field k kvs
  | _ => VNone
  end.

(** An integer of size at most 2^53. Each of them is a double. *)
Definition safe_integer (q : Q) : bool :=
  let r := Qred q in
  (Z.pos (Qden r) =? 1)%Z && (Z.abs (Qnum r) <=? 2 ^ 53)%Z.

(** [a + b] on doubles: the sum itself when [a], [b] and their sum are
    integers of size at most 2^53; otherwise the double nearest to the sum,
    which need not be the sum (2^53 + 1 gives 2^53, 0.1 + 0.2 does not give
    0.3). *)
Definition js_add (a b : Q) : js_offset :=
  if safe_integer a && safe_integer b && safe_integer (a + b)
  then OffNum (a + b)
  else OffRounded.

(** [offset += data.limit ?? limit], [lim] being [data.limit]: a number or
    a boolean is added, anything else is concatenated as a string. *)
Definition advance (offset : js_offset) (lim : value) (limit : Q) : js_offset :=
  match offset with
  | OffText => OffText
  | OffNum a =>
      match lim with
      | VNone => js_add a limit
      | VNum b => js_add a b
      | VBool b => js_add a (b2q b)
      | VStr _ | VList _ | VDict _ => OffText
      end
  | OffRounded =>
      match lim with
      | VNone | VNum _ | VBool _ => OffRounded
      | VStr _ | VList _ | VDict _ => OffText
      end
  end.

(** The [for (const u of urls(offset, limit))] loop: the first reply. *)
Definition round_reply (r : round) : option value :=
  match primary r with
  | Reply data => Some data
  | NoReply =>
      match secondary r with
      | Reply data => Some data
      | NoReply => None
      end
  end.

(** The [while (true)] loop on the rounds the service answers. The result
    is [res] and the offsets asked, one per round; [None] when the loop
    wants a further round than those given. *)
Fixpoint list_js_loop (rounds : list round) (limit : Q) (offset : js_offset)
  (res : list value) (asked : list js_offset)
  : option (list value * list js_offset) :=
  match rounds with
  | [] => None
  | r :: rest =>
      let asked' := asked ++ [offset] in
      match round_reply r with
      | None => Some (res, asked')
      | Some data =>
          if negb (js_truthy data) then Some (res, asked')
          else
            match js_prop data "items" with
            | VList its =>
                if js_truthy (js_prop data "has_more")
                then list_js_loop rest limit
                       (advance offset (js_prop data "limit") limit)
                       (res ++ its) asked'
                else Some (res ++ its, asked')
            | _ =>
                match js_prop data "conversations" with
                | VList its =>
                    if js_truthy (js_prop data "has_more")
                    then list_js_loop rest limit
                           (advance offset (js_prop data "limit") limit)
                           (res ++ its) asked'
                    else Some (res ++ its, asked')
                | _ => Some (res, asked')
                end
            end
      end
  end.

(** Lines 99-142, from [offset = 0] and [res = []]. *)
Definition LIST_JS (rounds : list round) (limit : Q)
  : option (list value * list js_offset) :=
  list_js_loop rounds limit (OffNum 0) [] [].

Definition LIST_PAGE_SIZE : Q := 50.

(** [list_conversations_via_api]: [evaluated] is what
    [page.evaluate(LIST_JS, LIST_PAGE_SIZE)] comes to, the array returned by
    the script or an exception; [items or []] on a list. *)
Definition list_conversations_via_api (evaluated : result (list value))
  : list value :=
  match evaluated with
  | Ok items => match items with [] => [] | _ :: _ => items end
  | Raise _ => []
  end.

(** ** The sidebar: [load_all_chats_dom] *)

(** One matched anchor: what its attribute and text reads come to. *)
Record anchor : Type := {
  a_href : result (option string);
  a_title : result (option string);
  a_inner_text : result string
}.

(** An entry of [links]: [{"href": ..., "title": ...}]. *)
Record link : Type := { href : string; title : string }.

(** The sidebar as the script observes it. [scroll_ok i] tells whether the
    scroll of pass [i] (from 0) succeeds, [link_count i c] is
    [page.locator(c).count()] during pass [i], and [anchors c] are the
    elements matched by [c] once the scrolling is over. *)
Record sidebar : Type := {
  sidebar_found : bool;
  scroll_ok : nat -> bool;
  link_count : nat -> string -> nat;
  anchors : string -> list anchor
}.

Definition chat_link_candidates : list string :=
  [("[data-testid=" ++ dq ++ "conversation-link" ++ dq ++ "]")%string;
   ("a[href^=" ++ dq ++ "/c/" ++ dq ++ "]")%string;
   ("a[href*=" ++ dq ++ "/c/" ++ dq ++ "]")%string;
   ("a[data-radix-collection-item][href*=" ++ dq ++ "/c/" ++ dq ++ "]")%string].

Definition MAX_SCROLL_PASSES : nat := 80.

(** *** Scroll and settle (lines 249-266) *)

(** Why the loop ended: the scroll raised ([break] on line 255), the count
    settled ([stable >= 3], [break] on line 263), or
    [range(MAX_SCROLL_PASSES)] is used up. *)
Inductive scroll_exit : Type :=
| ScrollFailed
| Settled
| Exhausted.

(** [total] of pass [i]: the counts of the candidate selectors, added. *)
Definition total_links (sb : sidebar) (i : nat) : nat :=
  fold_left (fun total c => (total + link_count sb i c)%nat) chat_link_candidates 0%nat.

(** The [for _ in range(...)] loop with [left] passes to go, [i] passes
    done. It returns the number of passes entered and why it ended. *)
Fixpoint scroll_loop (sb : sidebar) (left i seen stable : nat)
  : nat * scroll_exit :=
  match left with
  | O => (i, Exhausted)
  | S left' =>
      if negb (scroll_ok sb i) then (S i, ScrollFailed)
      else
        let total := total_links sb i in
        if (total =? seen)%nat then
          let stable' := S stable in
          if (3 <=? stable')%nat then (S i, Settled)
          else scroll_loop sb left' (S i) seen stable'
        else scroll_loop sb left' (S i) total 0%nat
  end.

Definition scroll_and_settle (sb : sidebar) : nat * scroll_exit :=
  scroll_loop sb MAX_SCROLL_PASSES 0 0 0.

(** *** Link collection (lines 268-282) *)

Definition opt_truthy (s : option string) : bool :=
  match s with
  | Some t => negb (String.eqb t "")
  | None => false
  end.

(** [(a.get_attribute("title") or a.inner_text(timeout=800) or "").strip()] *)
Definition anchor_title (a : anchor) : result string :=
  let! t := a_title a in
  match t with
  | Some s =>
      if opt_truthy t then Ok (strip s)
      else let! i := a_inner_text a in
           Ok (strip (if String.eqb i "" then "" else i))
  | None =>
      let! i := a_inner_text a in
      Ok (strip (if String.eqb i "" then "" else i))
  end.

Definition origin : string := "https://chat.openai.com".

(** The body of the [try] for one anchor: the link appended, if any; an
    exception skips the anchor. *)
Definition link_of_anchor (a : anchor) : option link :=
  match a_href a with
  | Raise _ => None
  | Ok h =>
      match anchor_title a with
      | Raise _ => None
      | Ok t =>
          match h with
          | Some hr =>
              if opt_truthy h && contains "/c/" hr
              then Some {| href := if String.prefix "http" hr then hr
                                   else (origin ++ hr)%string;
                           title := t |}
              else None
          | None => None
          end
      end
  end.

Fixpoint collect_anchors (l : list anchor) (links : list link) : list link :=
  match l with
  | [] => links
  | a :: l' =>
      match link_of_anchor a with
      | Some L => collect_anchors l' (links ++ [L])
      | None => collect_anchors l' links
      end
  end.

Definition collect_links (sb : sidebar) : list link :=
  fold_left (fun links c => collect_anchors (anchors sb c) links)
            chat_link_candidates [].

(** *** De-duplication (lines 283-291) *)

(** [L["href"].rsplit("/", 1)[-1]] *)
Definition link_id (L : link) : string := rsplit_last (href L).

(** The [for L in links] loop, from the given [seen_ids] and [uniq]. *)
Fixpoint dedup_loop (links : list link) (seen_ids : gset string) (uniq : list link)
  : list link :=
  match links with
  | [] => uniq
  | L :: rest =>
      let cid := link_id L in
      if decide (cid ∈ seen_ids)
      then dedup_loop rest seen_ids uniq
      else dedup_loop rest ({[cid]} ∪ seen_ids) (uniq ++ [L])
  end.

Definition dedup_links (links : list link) : list link := dedup_loop links ∅ [].

(** Lines 224-291. The clicks that try to open the sidebar (lines 226-233
    and 244-247) only act on the page; the scrolling decides nothing but
    the number of passes. *)
Definition load_all_chats_dom (sb : sidebar) : list link :=
  if negb (sidebar_found sb) then []
  else
    let _ := scroll_and_settle sb in
    dedup_links (collect_links sb).

(** ** The conversation loops of [main] *)

(** The browser as [main] observes it. Items and links are numbered from 1
    as [enumerate(..., 1)] does. [detail idx cid] is what
    [page.evaluate(FETCH_ONE_JS, cid)] comes to for item [idx];
    [title_count idx sel] and [title_text idx sel] are the count and the
    text of a title selector on the page of link [idx]; [page_turns idx] is
    what opening that page and [extract_turns_dom] come to. [str_other] is
    [str] on values that are not strings. *)
Record browser : Type := {
  listing : result (list value);
  detail : nat -> value -> result value;
  side : sidebar;
  title_count : nat -> string -> nat;
  title_text : nat -> string -> result string;
  page_turns : nat -> result (list value);
  str_other : value -> string
}.

(** [f"{v}"] *)
Definition py_str (b : browser) (v : value) : string :=
  match v with
  | VStr s => s
  | _ => str_other b v
  end.

(** Lines 167-172: the data, or [None] when the evaluation raises. *)
Definition fetch_conversation_via_api (b : browser) (idx : nat) (cid : value)
  : value :=
  match detail b idx cid with
  | Ok data => data
  | Raise _ => VNone
  end.

(** [{"id": cid, "title": title, "messages": msgs}] *)
Definition record (cid title : value) (msgs : list value) : value :=
  VDict [("id", cid); ("title", title); ("messages", VList msgs)].

(** Lines 379-392. *)
Fixpoint api_loop (b : browser) (items : list value) (idx : nat)
  (conversations : list value) : result (list value) :=
  match items with
  | [] => Ok conversations
  | it :: rest =>
      let! i1 := py_get it "id" in
      let! cid := py_or_else i1 (py_get it "conversation_id") in
      let! t := py_get it "title" in
      let title := py_or t (VStr "Untitled") in
      if negb (truthy cid) then api_loop b rest (S idx) conversations
      else
        let data := fetch_conversation_via_api b idx cid in
        let! conv := (if truthy data then convert_api_conversation data
                      else Ok (record cid title [])) in
        let! conv' := py_setitem conv "url"
                        (VStr (origin ++ "/c/" ++ py_str b cid)%string) in
        api_loop b rest (S idx) (conversations ++ [conv'])
  end.

Definition conversation_title_candidates : list string :=
  [("[data-testid=" ++ dq ++ "conversation-title" ++ dq ++ "]")%string;
   "header :is(h1,h2)";
   ("h1:below(:text(" ++ dq ++ "Share" ++ dq ++ "))")%string].

(** Lines 410-417: the first title selector that matches and can be read
    decides. *)
Fixpoint probe_title (b : browser) (idx : nat) (selectors : list string)
  (title : string) : string :=
  match selectors with
  | [] => title
  | sel :: rest =>
      if (0 <? title_count b idx sel)%nat then
        match title_text b idx sel with
        | Ok t => if String.eqb (strip t) "" then title else strip t
        | Raise _ => probe_title b idx rest title
        end
      else probe_title b idx rest title
  end.

(** Lines 401-427. *)
Fixpoint dom_loop (b : browser) (links : list link) (idx : nat)
  (conversations : list value) : result (list value) :=
  match links with
  | [] => Ok conversations
  | L :: rest =>
      let url := href L in
      let cid := rsplit_last url in
      let title0 := if String.eqb (title L) "" then "Untitled" else title L in
      let title := probe_title b idx conversation_title_candidates title0 in
      let! turns := page_turns b idx in
      dom_loop b rest (S idx)
        (conversations
         ++ [VDict [("id", VStr cid); ("url", VStr url); ("title", VStr title);
                    ("messages", VList turns)]])
  end.

(** Lines 368-427: the conversations of the export document. *)
Definition main_conversations (b : browser) : result (list value) :=
  let items := list_conversations_via_api (listing b) in
  let! conversations :=
    (match items with
     | [] => Ok []
     | _ :: _ => api_loop b items 1 []
     end) in
  match conversations with
  | [] => dom_loop b (load_all_chats_dom (side b)) 1 []
  | _ :: _ => Ok conversations
  end.

(** Lines 343-347 and 429: the export document, [now] being
    [int(time.time())]. *)
Definition export_document (b : browser) (now : Z) : result value :=
  let! conversations := main_conversations b in
  Ok (VDict [("exported_at", VNum (inject_Z now));
             ("source", VStr "chat.openai.com (API-first exporter)");
             ("conversations", VList conversations)]).

(** ** The detail fetch: [FETCH_ONE_JS] *)

(** Lines 144-158: the body of the first detail URL that replies, else
    [null]. The round is what the two URL variants answer for the id. *)
Definition FETCH_ONE_JS (r : round) : value :=
  match round_reply r with
  | Some data => data
  | None => VNone
  end.

(** ** The turns of a conversation page: [extract_turns_dom] *)

(** Lines 217-222: the first selector whose locator matches something;
    [count s] is [page.locator(s).count()]. The selector stands for its
    locator. *)
Fixpoint _first_locator (count : string -> result nat) (selectors : list string)
  : result (option string) :=
  match selectors with
  | [] => Ok None
  | s :: rest =>
      let! n := count s in
      if (0 <? n)%nat then Ok (Some s) else _first_locator count rest
  end.

Definition turn_candidates : list string :=
  ["[data-message-author-role]";
   ("[data-testid=" ++ dq ++ "conversation-turn" ++ dq ++ "]")%string;
   "article div:has([data-message-author-role])"].

Definition content_candidates : list string :=
  ["[data-message-content]";
   ".markdown";
   ("[data-testid=" ++ dq ++ "model-viewer" ++ dq ++ "]")%string;
   "article"].

(** One element matched by the turn locator, as lines 313-337 read it.
    [role_count] and [role_attr] are the count and the attribute of its
    role element; [content_match s] is the count of content selector [s]
    inside [_first_locator], [content_count s] the count asked again on
    line 325, [content_text s] and [content_html s] the reads of that
    locator; [node_text] and [node_html] are the reads of the element
    itself, the [_retry] ones those of the second attempt. *)
Record turn_element : Type := {
  role_count : result nat;
  role_attr : result (option string);
  content_match : string -> result nat;
  content_count : string -> result nat;
  content_text : string -> result string;
  content_html : string -> result string;
  node_text : result string;
  node_html : result string;
  node_text_retry : result string;
  node_html_retry : result string
}.

(** Lines 314-320: the role, ["assistant"] unless the role element is
    there and its attribute can be read and is not empty. *)
Definition turn_role (e : turn_element) : string :=
  match role_count e with
  | Ok n =>
      if (0 <? n)%nat then
        match role_attr e with
        | Ok (Some s) => if String.eqb s "" then "assistant" else s
        | Ok None => "assistant"
        | Raise _ => "assistant"
        end
      else "assistant"
  | Raise _ => "assistant"
  end.

(** [text = x.inner_text(...).strip(); html = x.inner_html(...)] inside a
    [try]: the text afterwards, and the markup when both reads succeed. A
    failed text read leaves [text] as it was. *)
Definition read_pair (rt rh : result string) (text : string)
  : string * option string :=
  match rt with
  | Raise _ => (text, None)
  | Ok t =>
      match rh with
      | Ok h => (strip t, Some h)
      | Raise _ => (strip t, None)
      end
  end.

(** Lines 322-336: [text] and [html] of a turn, [content_el] being the
    result of [_first_locator]. *)
Definition turn_text_html (e : turn_element) (content_el : option string)
  : string * string :=
  let attempt :=
    match content_el with
    | Some s =>
        match content_count e s with
        | Ok n =>
            if (0 <? n)%nat
            then read_pair (content_text e s) (content_html e s) ""
            else read_pair (node_text e) (node_html e) ""
        | Raise _ => ("", None)
        end
    | None => read_pair (node_text e) (node_html e) ""
    end in
  match attempt with
  | (text, Some html) => (text, html)
  | (text, None) =>
      match read_pair (node_text_retry e) (node_html_retry e) text with
      | (text', Some html') => (text', html')
      | (text', None) => (text', "")
      end
  end.

(** The body of [for i in range(count)]: the record appended. *)
Definition extract_turn (e : turn_element) : result value :=
  let role := turn_role e in
  let! content_el := _first_locator (content_match e) content_candidates in
  let (text, html) := turn_text_html e content_el in
  Ok (VDict [("role", VStr role); ("text", VStr text); ("html", VStr html)]).

(** A conversation page as [extract_turns_dom] observes it. [scroll_top]
    is what the first scroll comes to; [height_at i] is what the scroll to
    the bottom and the height read of pass [i] (from 0) come to;
    [turn_match s] is the count of turn selector [s] inside
    [_first_locator], [turn_count s] the count asked on line 311, and
    [turn_at s i] is [turn_loc.nth(i)]. *)
Record turns_page : Type := {
  scroll_top : result unit;
  height_at : nat -> result Z;
  turn_match : string -> result nat;
  turn_count : string -> result nat;
  turn_at : string -> nat -> turn_element
}.

(** Lines 296-303: the loop with [left] passes to go, [i] passes done. It
    returns the number of passes entered. *)
Fixpoint height_loop (pg : turns_page) (left i : nat) (last_h : Z) : result nat :=
  match left with
  | O => Ok i
  | S left' =>
      let! h := height_at pg i in
      if (h =? last_h)%Z then Ok (S i) else height_loop pg left' (S i) h
  end.

(** The bound [60] of [range(60)] on line 297. *)
Definition HEIGHT_PASSES : nat := 60.

(** Lines 293-338. *)
Definition extract_turns_dom (pg : turns_page) : result (list value) :=
  let! _ := scroll_top pg in
  let! _ := height_loop pg HEIGHT_PASSES 0 0 in
  let! found := _first_locator (turn_match pg) turn_candidates in
  let turn_loc := match found with Some s => s | None => "article" end in
  let! count := turn_count pg turn_loc in
  for_each (fun turns i =>
              let! turn := extract_turn (turn_at pg turn_loc i) in
              Ok (turns ++ [turn]))
           (seq 0 count) [].

(** ** The normaliser on a store of objects *)

(** Python lists and dicts are objects: a variable, a dict entry or a list
    item holds a reference to them, and [list.sort] and [list.append]
    change the object they are called on, for every holder of a reference.
    This second embedding of lines 174-213 keeps the store that the first
    leaves out. [None], booleans, numbers and strings cannot be changed and
    stay values. A store is the list of its objects, an address is a
    position in it, and a new object goes to the end. *)
Inductive ref_value : Type :=
| RNone
| RBool (b : bool)
| RNum (q : Q)
| RStr (s : string)
| RRef (l : nat).

Inductive object : Type :=
| OList (items : list ref_value)
| ODict (entries : list (string * ref_value)).

Abbreviation heap := (list object).

(** A computation on the store: it raises, or returns a result and the
    store it leaves. *)
Definition run (A : Type) : Type := heap -> result (A * heap).

Definition ret {A : Type} (a : A) : run A := fun h => Ok (a, h).

Definition raise {A : Type} (e : exn) : run A := fun _ => Raise e.

Definition bind_run {A B : Type} (c : run A) (k : A -> run B) : run B :=
  fun h =>
    match c h with
    | Ok (a, h') => k a h'
    | Raise e => Raise e
    end.

Notation "'do!' x ':=' c 'in' k" := (bind_run c (fun x => k))
  (at level 10, x name, c at level 100, k at level 200).

(** A list or dict display: a new object. *)
Definition alloc (o : object) : run ref_value :=
  fun h => Ok (RRef (length h), h ++ [o]).

(** The object a value refers to, if it is a reference. *)
Definition deref (r : ref_value) : run (option object) :=
  fun h => Ok (match r with RRef l => h !! l | _ => None end, h).

(** The object at [l] becomes [o]. *)
Definition update (l : nat) (o : object) : run unit :=
  fun h => Ok (tt, <[l := o]> h).

(** [for x in l: f(x)] *)
Fixpoint for_run {A : Type} (f : A -> run unit) (l : list A) : run unit :=
  match l with
  | [] => ret tt
  | x :: l' => do! _ := f x in for_run f l'
  end.

(** [[f(x) for x in l]] *)
Fixpoint map_run {A B : Type} (f : A -> run B) (l : list A) : run (list B) :=
  match l with
  | [] => ret []
  | x :: l' => do! y := f x in do! ys := map_run f l' in ret (y :: ys)
  end.

(** Truthiness: a list or a dict is true when it is not empty. *)
Definition truthy_in (r : ref_value) : run bool :=
  do! o := deref r in
  ret (match r with
       | RNone => false
       | RBool b => b
       | RNum q => negb (q_is_zero q)
       | RStr s => negb (String.eqb s "")
       | RRef _ =>
           match o with
           | Some (OList (_ :: _)) | Some (ODict (_ :: _)) => true
           | _ => false
           end
       end).

(** [a or b]: [b] is evaluated when [a] is falsy. *)
Definition or_in (a : ref_value) (b : run ref_value) : run ref_value :=
  do! t := truthy_in a in
  if t then ret a else b.

Fixpoint assoc_ref (k : string) (entries : list (string * ref_value))
  : option ref_value :=
  match entries with
  | [] => None
  | (k', r) :: rest => if String.eqb k k' then Some r else assoc_ref k rest
  end.

(** The entries of [d] for a method of dicts; any other value has no such
    attribute. *)
Definition dict_entries (d : ref_value) : run (list (string * ref_value)) :=
  do! o := deref d in
  match o with
  | Some (ODict entries) => ret entries
  | _ => raise AttributeError
  end.

(** [d.get(k, default)]: the attribute is looked up, then the default is
    evaluated, then the call is made. *)
Definition get_in (d : ref_value) (k : string) (default : run ref_value)
  : run ref_value :=
  do! entries := dict_entries d in
  do! dflt := default in
  ret (match assoc_ref k entries with
       | Some r => r
       | None => dflt
       end).

(** [list(d.values())]: a new list of the values of [d]. *)
Definition values_in (d : ref_value) : run ref_value :=
  do! entries := dict_entries d in
  alloc (OList (map snd entries)).

(** The items of a list object. *)
Definition list_items (r : ref_value) : run (list ref_value) :=
  do! o := deref r in
  match o with
  | Some (OList items) => ret items
  | _ => raise TypeError
  end.

(** [l.append(x)]: the object [l] gets one more item. *)
Definition append_in (l : ref_value) (x : ref_value) : run unit :=
  do! items := list_items l in
  match l with
  | RRef a => update a (OList (items ++ [x]))
  | _ => raise AttributeError
  end.

(** The JSON value a reference stands for: the objects are followed as
    long as [ok] admits their address and to the given depth. *)
Fixpoint reify_on (ok : nat -> bool) (depth : nat) (h : heap) (r : ref_value)
  : option value :=
  match r with
  | RNone => Some VNone
  | RBool b => Some (VBool b)
  | RNum q => Some (VNum q)
  | RStr s => Some (VStr s)
  | RRef l =>
      match depth with
      | O => None
      | S n =>
          if ok l then
            match h !! l with
            | Some (OList items) => VList <$> mapM (reify_on ok n h) items
            | Some (ODict entries) =>
                VDict <$> mapM (fun kr => pair (fst kr) <$> reify_on ok n h (snd kr))
                               entries
            | None => None
            end
          else None
      end
  end.

(** No object nests deeper than the number of objects of the store, unless
    it contains itself. *)
Definition reify (h : heap) (r : ref_value) : option value :=
  reify_on (fun _ => true) (length h) h r.

(** The operands of a comparison are read as they are when it is made. One
    that contains itself cannot be: Python gives up with an error of its
    own, which no payload made from JSON can cause. *)
Definition read_back (r : ref_value) : run value :=
  fun h =>
    match reify h r with
    | Some v => Ok (v, h)
    | None => Raise TypeError
    end.

(** [insert_keyed] and [sort_keyed] on references carrying their key. *)
Fixpoint insert_ref (x : value * ref_value) (l : list (value * ref_value))
  : result (list (value * ref_value)) :=
  match l with
  | [] => Ok [x]
  | y :: l' =>
      let! smaller := py_lt (fst y) (fst x) in
      if smaller
      then let! r := insert_ref x l' in Ok (y :: r)
      else Ok (x :: y :: l')
  end.

Fixpoint sort_ref (l : list (value * ref_value))
  : result (list (value * ref_value)) :=
  match l with
  | [] => Ok []
  | x :: l' => let! s := sort_ref l' in insert_ref x s
  end.

(** [l.sort(key=key)]: the keys of all items are computed, the items are
    ordered by key, and the list object itself holds them in that order. *)
Definition sort_in (l : ref_value) (key : ref_value -> run ref_value) : run unit :=
  do! items := list_items l in
  do! keys := map_run key items in
  do! ks := map_run read_back keys in
  match sort_ref (combine ks items), l with
  | Ok sorted, RRef a => update a (OList (map snd sorted))
  | Ok _, _ => raise AttributeError
  | Raise e, _ => raise e
  end.

(** [sep.join(items)] *)
Fixpoint join_ref (sep : string) (items : list ref_value) : result string :=
  match items with
  | [] => Ok ""
  | RStr s :: rest =>
      match rest with
      | [] => Ok s
      | _ :: _ => let! t := join_ref sep rest in Ok (s ++ sep ++ t)%string
      end
  | _ :: _ => Raise TypeError
  end.

(** Line 187: [lambda n: (n.get("message", {}).get("create_time") or 0)] *)
Definition sort_key_in (n : ref_value) : run ref_value :=
  do! m := get_in n "message" (alloc (ODict [])) in
  do! t := get_in m "create_time" (ret RNone) in
  or_in t (ret (RNum 0)).

(** Lines 198-202: the body of [for p in parts]. *)
Definition add_part_in (chunk : ref_value) (p : ref_value) : run unit :=
  match p with
  | RStr _ => append_in chunk p
  | RRef _ =>
      do! o := deref p in
      match o with
      | Some (ODict entries) =>
          match assoc_ref "text" entries with
          | Some t => append_in chunk t
          | None => ret tt
          end
      | _ => ret tt
      end
  | _ => ret tt
  end.

(** Lines 192-207. *)
Definition extract_text_in (content : ref_value) : run string :=
  do! parts := get_in content "parts" (ret RNone) in
  do! po := deref parts in
  match po with
  | Some (OList (p :: ps)) =>
      do! chunk := alloc (OList []) in
      do! _ := for_run (add_part_in chunk) (p :: ps) in
      do! items := list_items chunk in
      match join_ref newline items with
      | Ok joined => ret (strip joined)
      | Raise e => raise e
      end
  | _ =>
      do! t := get_in content "text" (ret RNone) in
      match t with
      | RStr s => ret (strip s)
      | _ =>
          match content with
          | RStr s => ret (strip s)
          | _ => ret ""
          end
      end
  end.

(** Lines 189-208 without the [append]: the new message dict of a node. *)
Definition node_message_in (n : ref_value) : run ref_value :=
  do! m0 := get_in n "message" (ret RNone) in
  do! m := or_in m0 (alloc (ODict [])) in
  do! a0 := get_in m "author" (ret RNone) in
  do! a := or_in a0 (alloc (ODict [])) in
  do! r0 := get_in a "role" (ret RNone) in
  do! author := or_in r0 (ret (RStr "assistant")) in
  do! c0 := get_in m "content" (ret RNone) in
  do! content := or_in c0 (alloc (ODict [])) in
  do! text := extract_text_in content in
  alloc (ODict [("role", author); ("text", RStr text); ("html", RNone)]).

(** Lines 174-213 on the store: [msgs] is the list object of line 181,
    which line 208 appends to, or the one of line 211; [nodes] is the list
    object of line 186, which line 187 sorts. *)
Definition convert_in (api_obj : ref_value) : run ref_value :=
  do! i1 := get_in api_obj "id" (ret RNone) in
  do! cid := or_in i1 (get_in api_obj "conversation_id" (ret RNone)) in
  do! t1 := get_in api_obj "title" (ret RNone) in
  do! t2 := or_in t1 (get_in api_obj "current_node" (ret RNone)) in
  do! title := or_in t2 (ret (RStr "Untitled")) in
  do! msgs := alloc (OList []) in
  do! mp := get_in api_obj "mapping" (ret RNone) in
  do! mapping := or_in mp (alloc (ODict [])) in
  do! some := truthy_in mapping in
  do! msgs' :=
    (if some then
       do! nodes := values_in mapping in
       do! _ := sort_in nodes sort_key_in in
       do! items := list_items nodes in
       do! _ := for_run (fun n => do! msg := node_message_in n in
                                  append_in msgs msg) items in
       ret msgs
     else alloc (OList [])) in
  alloc (ODict [("id", cid); ("title", title); ("messages", msgs')]).

(** * The vocabulary of the statements *)

(** *** Records and their fields *)

Definition header_id (kvs : list (string * value)) : value :=
  py_or (field "id" kvs) (field "conversation_id" kvs).

Definition header_title (kvs : list (string * value)) : value :=
  py_or (py_or (field "title" kvs) (field "current_node" kvs)) (VStr "Untitled").

(** The messages of a truthy mapping. *)
Definition mapping_messages (mapping : value) : result (list value) :=
  let! nodes0 := py_values mapping in
  let! nodes := py_sort sort_key nodes0 in
  map_each node_message nodes.

(** What the [text] field of a content dict contributes: its trimmed value
    when it is a string, the empty string otherwise. *)
Definition text_field (ck : list (string * value)) : string :=
  match assoc "text" ck with
  | Some (VStr s) => strip s
  | _ => ""
  end.

(** A list of characters that does not start with white space. *)
Definition starts_clean (l : list ascii) : Prop :=
  match l with
  | [] => True
  | c :: _ => is_space c = false
  end.

(** A string with no white space at either end. *)
Definition trimmed (s : string) : Prop :=
  starts_clean (list_ascii_of_string s)
  /\ starts_clean (rev (list_ascii_of_string s)).

(** The content has no [parts], or [parts] is not a non-empty list. *)
Definition no_parts (ck : list (string * value)) : Prop :=
  match assoc "parts" ck with
  | Some (VList (_ :: _)) => False
  | _ => True
  end.

(** The [id] of a conversation record. *)
Definition conv_id (conv : value) : value :=
  match conv with
  | VDict kvs => field "id" kvs
  | _ => VNone
  end.

(** A record with a non-empty id: [not cid] is false. *)
Definition has_id_field (conv : value) : Prop := truthy (conv_id conv) = true.

(** The conversations of an export document. *)
Definition document_conversations (doc : value) : list value :=
  match doc with
  | VDict kvs => match field "conversations" kvs with VList l => l | _ => [] end
  | _ => []
  end.

(** *** Timestamps and their order *)

(** The number a keyed item is ordered by. *)
Definition key_num (kv : value * value) : Q :=
  match num_of (fst kv) with
  | Some q => q
  | None => 0%Q
  end.

Definition numeric_key (kv : value * value) : Prop :=
  exists q, num_of (fst kv) = Some q.

Definition key_le (a b : value * value) : Prop := (key_num a <= key_num b)%Q.

Definition same_key (q : Q) (kv : value * value) : bool :=
  Qeq_bool (key_num kv) q.

(** The creation timestamp of a node's message; a missing or null
    timestamp counts as 0. *)
Definition timestamp (n : value) : Q :=
  match n with
  | VDict nk =>
      match assoc "message" nk with
      | Some (VDict mk) =>
          match assoc "create_time" mk with
          | Some t => match num_of t with Some q => q | None => 0%Q end
          | None => 0%Q
          end
      | _ => 0%Q
      end
  | _ => 0%Q
  end.

(** A node whose timestamp can be read and ordered: a dict whose message is
    absent or a dict, with a [create_time] that is absent, falsy or a
    number. *)
Definition timed_node (n : value) : bool :=
  match n with
  | VDict nk =>
      match assoc "message" nk with
      | None => true
      | Some (VDict mk) =>
          match assoc "create_time" mk with
          | None => true
          | Some t =>
              negb (truthy t)
              || match num_of t with Some _ => true | None => false end
          end
      | Some _ => false
      end
  | _ => false
  end.

Definition time_le (a b : value) : Prop := (timestamp a <= timestamp b)%Q.

Definition same_time (q : Q) (n : value) : bool := Qeq_bool (timestamp n) q.

(** A keyed item whose key is the timestamp of its node. *)
Definition keyed_by_time (kv : value * value) : Prop :=
  exists q, num_of (fst kv) = Some q /\ (q == timestamp (snd kv))%Q.

(** *** The shapes on which no line of the normaliser raises *)

(** A part: anything, but an object part's [text] must be a string. *)
Definition shaped_part (p : value) : bool :=
  match p with
  | VDict pk =>
      match assoc "text" pk with
      | Some (VStr _) | None => true
      | Some _ => false
      end
  | _ => true
  end.

(** A content: falsy, or a dict whose [parts], when a list, has shaped
    parts. *)
Definition shaped_content (c : value) : bool :=
  negb (truthy c)
  || match c with
     | VDict ck =>
         match assoc "parts" ck with
         | Some (VList ps) => forallb shaped_part ps
         | _ => true
         end
     | _ => false
     end.

(** An author: falsy, or a dict. *)
Definition shaped_author (a : value) : bool := negb (truthy a) || is_dict a.

(** A node: a dict with a readable timestamp whose message, when present,
    is a dict with a shaped author and a shaped content. *)
Definition shaped_node (n : value) : bool :=
  timed_node n
  && match n with
     | VDict nk =>
         match assoc "message" nk with
         | None => true
         | Some (VDict mk) =>
             shaped_author (field "author" mk) && shaped_content (field "content" mk)
         | Some _ => false
         end
     | _ => false
     end.

Definition all_str (items : list value) : Prop :=
  Forall (fun v => is_str v = true) items.

(** *** Pages of the listing *)

(** The item array of a page, in either known shape. *)
Definition page_items (data : value) : option (list value) :=
  if negb (js_truthy data) then None
  else
    match js_prop data "items" with
    | VList its => Some its
    | _ =>
        match js_prop data "conversations" with
        | VList its => Some its
        | _ => None
        end
    end.

Definition page_has_more (data : value) : bool :=
  js_truthy (js_prop data "has_more").

(** A round that adds [its] and asks for more. *)
Definition continues (r : round) (its : list value) : Prop :=
  exists data, round_reply r = Some data
               /\ page_items data = Some its
               /\ page_has_more data = true.

(** A round that ends the listing after adding [its]: no reply from either
    variant, a reply in neither shape, or a last page. *)
Definition stops (r : round) (its : list value) : Prop :=
  (round_reply r = None /\ its = [])
  \/ (exists data, round_reply r = Some data
                   /\ ((page_items data = None /\ its = [])
                       \/ (page_items data = Some its
                           /\ page_has_more data = false))).

(** *** Passes of the scroll loop *)

(** The total matched-link count of pass [i] (from 0): the elements the
    page shows for each of the four link selectors, added up. *)
Definition matched_links (sb : sidebar) (i : nat) : nat :=
  (link_count sb i ("[data-testid=" ++ dq ++ "conversation-link" ++ dq ++ "]")
   + link_count sb i ("a[href^=" ++ dq ++ "/c/" ++ dq ++ "]")
   + link_count sb i ("a[href*=" ++ dq ++ "/c/" ++ dq ++ "]")
   + link_count sb i ("a[data-radix-collection-item][href*=" ++ dq ++ "/c/" ++ dq ++ "]"))%nat.

(** The count seen after [k] passes; before the first pass it is the
    initial [seen = 0]. *)
Definition observed (sb : sidebar) (k : nat) : nat :=
  match k with
  | O => 0%nat
  | S i => matched_links sb i
  end.

(** The number of consecutive passes, ending with pass [k], that left the
    count unchanged. *)
Fixpoint unchanged_run (sb : sidebar) (k : nat) : nat :=
  match k with
  | O => 0%nat
  | S i =>
      if (observed sb (S i) =? observed sb i)%nat
      then S (unchanged_run sb i)
      else 0%nat
  end.

(** Pass [k] is the third in a row with an unchanged count. *)
Definition settled (sb : sidebar) (k : nat) : Prop :=
  (3 <= k)%nat
  /\ observed sb k = observed sb (k - 1)
  /\ observed sb (k - 1) = observed sb (k - 2)
  /\ observed sb (k - 2) = observed sb (k - 3).

(** The outcome [(n, why)] of a loop of at most [bound] passes: [n] passes
    were entered; every pass before the last scrolled and was not the third
    in a row with an unchanged count; the last pass is the one whose scroll
    failed, or the third unchanged one, or pass [bound]. *)
Definition scroll_outcome (sb : sidebar) (bound : nat) (r : nat * scroll_exit)
  : Prop :=
  let (n, why) := r in
  (n <= bound)%nat
  /\ (forall k, (1 <= k < n)%nat ->
                scroll_ok sb (k - 1) = true /\ ~ settled sb k)
  /\ match why with
     | ScrollFailed => (1 <= n)%nat /\ scroll_ok sb (n - 1) = false
     | Settled => (1 <= n)%nat /\ scroll_ok sb (n - 1) = true /\ settled sb n
     | Exhausted =>
         n = bound
         /\ ((1 <= n)%nat -> scroll_ok sb (n - 1) = true /\ ~ settled sb n)
     end.

(** *** Links and their ids *)

(** The links kept from [links] when the ids in [seen] are taken. *)
Fixpoint firsts (links : list link) (seen : gset string) : list link :=
  match links with
  | [] => []
  | L :: rest =>
      if decide (link_id L ∈ seen) then firsts rest seen
      else L :: firsts rest ({[link_id L]} ∪ seen)
  end.

Definition has_id (k : string) (L : link) : bool := String.eqb (link_id L) k.

(** A string without ["/"]. *)
Fixpoint slash_free (s : string) : bool :=
  match s with
  | EmptyString => true
  | String c s' => negb (Ascii.eqb c slash) && slash_free s'
  end.

(** Every detail payload that is fetched and truthy carries an [id] or a
    [conversation_id]. *)
Definition details_carry_id (b : browser) : Prop :=
  forall idx cid kvs,
    fetch_conversation_via_api b idx cid = VDict kvs ->
    truthy (VDict kvs) = true ->
    truthy (header_id kvs) = true.

(** No link has an empty trailing path segment. *)
Definition links_carry_id (links : list link) : Prop :=
  Forall (fun L => link_id L <> "") links.

(** *** Payloads, pages, sidebars and browsers of the examples *)

Definition msg_node (role : string) (content : value) (t : Q) : value :=
  VDict [("message",
          VDict [("author", VDict [("role", VStr role)]);
                 ("content", content);
                 ("create_time", VNum t)])].

Definition payload_of (nodes : list (string * value)) : value :=
  VDict [("id", VStr "c1"); ("title", VStr "Hello"); ("mapping", VDict nodes)].

(** A node whose message has the given content. *)
Definition content_node (content : value) : value :=
  VDict [("message", VDict [("content", content)])].

(** Two nodes listed latest first. *)
Definition two_nodes : list (string * value) :=
  [("n2", msg_node "assistant" (VDict [("text", VStr "Hello!")]) 2);
   ("n1", msg_node "user" (VDict [("text", VStr "Hi")]) 1)].

Definition two_messages : list value :=
  [VDict [("role", VStr "user"); ("text", VStr "Hi"); ("html", VNone)];
   VDict [("role", VStr "assistant"); ("text", VStr "Hello!"); ("html", VNone)]].

Definition hello_detail : value :=
  payload_of [("n1", msg_node "user" (VDict [("parts", VList [VStr "Hi"])]) 1);
              ("n2", msg_node "assistant" (VDict [("parts", VList [VStr "Hello!"])]) 2)].

Definition items_page (its : list value) (more : bool) : value :=
  VDict [("items", VList its); ("has_more", VBool more)].

Definition legacy_page (its : list value) (more : bool) : value :=
  VDict [("conversations", VList its); ("has_more", VBool more)].

(** The first URL variant answers. *)
Definition answered (data : value) : round :=
  {| primary := Reply data; secondary := NoReply |}.

(** Only the second URL variant answers. *)
Definition answered_second (data : value) : round :=
  {| primary := NoReply; secondary := Reply data |}.

Definition unanswered : round := {| primary := NoReply; secondary := NoReply |}.

Definition item (cid : string) : value := VDict [("id", VStr cid)].

Definition steady_sidebar (n : nat) : sidebar :=
  {| sidebar_found := true;
     scroll_ok := fun _ => true;
     link_count := fun _ c => if String.eqb c (nth 1 chat_link_candidates "") then n else 0%nat;
     anchors := fun _ => [] |}.

Definition growing_sidebar : sidebar :=
  {| sidebar_found := true;
     scroll_ok := fun _ => true;
     link_count := fun i _ => i;
     anchors := fun _ => [] |}.

Definition no_sidebar : sidebar :=
  {| sidebar_found := false;
     scroll_ok := fun _ => true;
     link_count := fun _ _ => 0%nat;
     anchors := fun _ => [] |}.

(** A sidebar showing the given anchors under the first link selector. *)
Definition sidebar_with (l : list anchor) : sidebar :=
  {| sidebar_found := true;
     scroll_ok := fun _ => true;
     link_count := fun _ c =>
       if String.eqb c (nth 0 chat_link_candidates "") then length l else 0%nat;
     anchors := fun c =>
       if String.eqb c (nth 0 chat_link_candidates "") then l else [] |}.

Definition chat_abc : link :=
  {| href := "https://chat.openai.com/c/abc"; title := "A chat" |}.

Definition chat_xyz : link :=
  {| href := "https://chat.openai.com/c/xyz"; title := "B chat" |}.

(** Another path that ends in the id of [chat_xyz]. *)
Definition shared_xyz : link := {| href := "/share/xyz"; title := "B again" |}.

Definition anchor_to (hr text : string) : anchor :=
  {| a_href := Ok (Some hr); a_title := Ok None; a_inner_text := Ok text |}.

(** A run on the API path: the listing and the details are given. *)
Definition api_browser (items : list value) (details : value -> value) : browser :=
  {| listing := Ok items;
     detail := fun _ cid => Ok (details cid);
     side := no_sidebar;
     title_count := fun _ _ => 0%nat;
     title_text := fun _ _ => Raise PlaywrightError;
     page_turns := fun _ => Ok [];
     str_other := fun _ => "" |}.

(** A run on the DOM path: the listing fails, the sidebar is given. *)
Definition dom_browser (sb : sidebar) : browser :=
  {| listing := Raise PlaywrightError;
     detail := fun _ _ => Raise PlaywrightError;
     side := sb;
     title_count := fun _ _ => 0%nat;
     title_text := fun _ _ => Raise PlaywrightError;
     page_turns := fun _ => Ok [];
     str_other := fun _ => "" |}.

(** *** Further vocabulary: messages and nodes *)

(** A message record as the normaliser builds it: a role that is not
    empty, a text without white space at either end, no markup. *)
Definition api_message (m : value) : Prop :=
  exists role text,
    m = VDict [("role", role); ("text", VStr text); ("html", VNone)]
    /\ truthy role = true
    /\ trimmed text.

(** The [title] of a conversation record. *)
Definition conv_title (conv : value) : value :=
  match conv with
  | VDict kvs => field "title" kvs
  | _ => VNone
  end.

(** The [messages] of a conversation record. *)
Definition conv_messages (conv : value) : list value :=
  match conv with
  | VDict kvs => match field "messages" kvs with VList l => l | _ => [] end
  | _ => []
  end.

(** A node the loop body of lines 189-208 can read: a dict whose message
    is falsy or a dict, with an author that is falsy or a dict and a
    shaped content. *)
Definition readable_node (n : value) : bool :=
  match n with
  | VDict nk =>
      match py_or (field "message" nk) (VDict []) with
      | VDict mk =>
          shaped_author (field "author" mk) && shaped_content (field "content" mk)
      | _ => false
      end
  | _ => false
  end.

(** A node the sort key of line 187 cannot read: not a dict, or a dict
    whose [message] key is present with a value that is not a dict. *)
Definition unsortable (n : value) : bool :=
  match n with
  | VDict nk =>
      match assoc "message" nk with
      | None | Some (VDict _) => false
      | Some _ => true
      end
  | _ => true
  end.

(** *** Further vocabulary: the listing *)

(** The step [data.limit ?? limit] when it is a number. *)
Definition page_limit (limit : Q) (data : value) : option Q :=
  match js_prop data "limit" with
  | VNone => Some limit
  | VNum b => Some b
  | VBool b => Some (b2q b)
  | VStr _ | VList _ | VDict _ => None
  end.

(** The offsets reached from [start] by adding the steps one after the
    other, [start] included. *)
Fixpoint offsets_from (start : Q) (steps : list Q) : list js_offset :=
  match steps with
  | [] => [OffNum start]
  | s :: rest => OffNum start :: offsets_from (start + s) rest
  end.

(** A round that asks for more and advances the offset by [s]. *)
Definition continues_by (limit : Q) (r : round) (s : Q) : Prop :=
  exists data its,
    round_reply r = Some data
    /\ page_items data = Some its
    /\ page_has_more data = true
    /\ page_limit limit data = Some s.

(** The integers [zs] can be added one after the other from [start] without
    leaving the integers of size at most 2^53, on which the addition of
    doubles is the addition of integers. *)
Fixpoint exactly_summed (start : Z) (zs : list Z) : Prop :=
  match zs with
  | [] => True
  | z :: rest =>
      (Z.abs start <= 2 ^ 53)%Z /\ (Z.abs z <= 2 ^ 53)%Z
      /\ (Z.abs (start + z) <= 2 ^ 53)%Z
      /\ exactly_summed (start + z) rest
  end.

(** *** Further vocabulary: the records of the API path *)

(** The URL [main] gives the record of a list item. *)
Definition item_url (b : browser) (it : value) : option value :=
  match it with
  | VDict kvs =>
      if truthy (header_id kvs)
      then Some (VStr (origin ++ "/c/" ++ py_str b (header_id kvs))%string)
      else None
  | _ => None
  end.

(** The header-only record of a list item: its id, its title or
    ["Untitled"], no message, its URL. An item without id has none. *)
Definition header_record (b : browser) (it : value) : option value :=
  match it with
  | VDict kvs =>
      if truthy (header_id kvs)
      then Some (VDict [("id", header_id kvs);
                        ("title", py_or (field "title" kvs) (VStr "Untitled"));
                        ("messages", VList []);
                        ("url", VStr (origin ++ "/c/" ++ py_str b (header_id kvs))%string)])
      else None
  | _ => None
  end.

(** The [url] of a conversation record. *)
Definition conv_url (conv : value) : value :=
  match conv with
  | VDict kvs => field "url" kvs
  | _ => VNone
  end.

(** No detail can be fetched: every fetch raises or returns a falsy
    value. *)
Definition details_fail (b : browser) : Prop :=
  forall idx cid, truthy (fetch_conversation_via_api b idx cid) = false.

(** *** Further vocabulary: the links of the sidebar *)

(** A link as [load_all_chats_dom] returns them: an absolute URL of a
    conversation and a title without white space at either end. *)
Definition chat_link (L : link) : Prop :=
  String.prefix "http" (href L) = true
  /\ contains "/c/" (href L) = true
  /\ trimmed (title L).

(** All anchors matched by the link selectors, selector by selector. *)
Definition all_anchors (sb : sidebar) : list anchor :=
  concat (map (anchors sb) chat_link_candidates).

(** The anchors the page shows for the four link selectors, selector after
    selector, each in page order. *)
Definition matched_anchors (sb : sidebar) : list anchor :=
  anchors sb ("[data-testid=" ++ dq ++ "conversation-link" ++ dq ++ "]")
  ++ anchors sb ("a[href^=" ++ dq ++ "/c/" ++ dq ++ "]")
  ++ anchors sb ("a[href*=" ++ dq ++ "/c/" ++ dq ++ "]")
  ++ anchors sb ("a[data-radix-collection-item][href*=" ++ dq ++ "/c/" ++ dq ++ "]").

(** The text the title of an anchor is made of: its [title] attribute when
    that is not empty, its inner text otherwise; none when a read raises. *)
Definition title_source (a : anchor) : option string :=
  match a_title a with
  | Raise _ => None
  | Ok (Some (String c s)) => Some (String c s)
  | Ok (Some EmptyString) | Ok None =>
      match a_inner_text a with
      | Ok i => Some i
      | Raise _ => None
      end
  end.

(** The link an anchor stands for, if any: its reads do not raise and its
    [href] is there and contains ["/c/"]. The URL is the [href], put after
    the origin unless it starts with ["http"]; the title is trimmed. *)
Definition chat_anchor (a : anchor) : option link :=
  match a_href a, title_source a with
  | Ok (Some hr), Some t =>
      if contains "/c/" hr
      then Some {| href := if String.prefix "http" hr then hr
                           else ("https://chat.openai.com" ++ hr)%string;
                   title := strip t |}
      else None
  | _, _ => None
  end.

(** An anchor whose reads raise. *)
Definition stale_anchor : anchor :=
  {| a_href := Raise PlaywrightError;
     a_title := Raise PlaywrightError;
     a_inner_text := Raise PlaywrightError |}.

(** A sidebar whose second and third selectors overlap; the second also
    matches an anchor that has gone and the third a link that is no chat. *)
Definition overlapping_sidebar : sidebar :=
  {| sidebar_found := true;
     scroll_ok := fun _ => true;
     link_count := fun _ _ => 2%nat;
     anchors := fun c =>
       if String.eqb c (nth 1 chat_link_candidates "")
       then [{| a_href := Ok (Some "/c/abc"); a_title := Ok None;
                a_inner_text := Ok " First " |};
             stale_anchor]
       else if String.eqb c (nth 2 chat_link_candidates "")
       then [{| a_href := Ok (Some "/c/abc"); a_title := Ok None;
                a_inner_text := Ok " First " |};
             {| a_href := Ok (Some "/gpts/c"); a_title := Ok None;
                a_inner_text := Ok "Explore" |};
             {| a_href := Ok (Some "https://chat.openai.com/c/xyz");
                a_title := Ok (Some "Second"); a_inner_text := Raise PlaywrightError |}]
       else [] |}.

(** *** Further vocabulary: turns *)

(** A turn record as [extract_turns_dom] builds it: three strings, a role
    that is not empty and a text without white space at either end. *)
Definition dom_turn (t : value) : Prop :=
  exists role text html,
    t = VDict [("role", VStr role); ("text", VStr text); ("html", VStr html)]
    /\ role <> ""
    /\ trimmed text.

(** [r] is the first selector with a positive count, every selector before
    it having the count 0; [None] when every count is 0. *)
Definition first_match (count : string -> result nat) (selectors : list string)
  (r : option string) : Prop :=
  match r with
  | Some s =>
      exists pre post n,
        selectors = pre ++ s :: post
        /\ Forall (fun x => count x = Ok 0%nat) pre
        /\ count s = Ok n /\ (0 < n)%nat
  | None => Forall (fun x => count x = Ok 0%nat) selectors
  end.

(** The height read by pass [k] (from 1); before the first pass it is the
    initial [last_h = 0]. *)
Definition seen_height (pg : turns_page) (k : nat) : Z :=
  match k with
  | O => 0%Z
  | S j => match height_at pg j with Ok h => h | Raise _ => 0%Z end
  end.

(** A user turn whose content is found under [.markdown]; the reads of the
    element itself fail. *)
Definition markdown_turn : turn_element :=
  {| role_count := Ok 1%nat;
     role_attr := Ok (Some "user");
     content_match := fun s => if String.eqb s ".markdown" then Ok 1%nat else Ok 0%nat;
     content_count := fun _ => Ok 1%nat;
     content_text := fun _ => Ok " Hi ";
     content_html := fun _ => Ok "<p>Hi</p>";
     node_text := Raise PlaywrightError;
     node_html := Raise PlaywrightError;
     node_text_retry := Raise PlaywrightError;
     node_html_retry := Raise PlaywrightError |}.

(** A page of height 900 with one turn under the first turn selector. *)
Definition one_turn_page : turns_page :=
  {| scroll_top := Ok tt;
     height_at := fun _ => Ok 900%Z;
     turn_match := fun s =>
       if String.eqb s "[data-message-author-role]" then Ok 1%nat else Ok 0%nat;
     turn_count := fun _ => Ok 1%nat;
     turn_at := fun _ _ => markdown_turn |}.

(** *** Further vocabulary: the messages of a document *)

(** Every message of the record is one the normaliser builds. *)
Definition api_record (conv : value) : Prop :=
  Forall api_message (conv_messages conv).

(** Every message of the record is a turn of a page. *)
Definition dom_record (conv : value) : Prop :=
  Forall dom_turn (conv_messages conv).

(** The turns of every page come from [extract_turns_dom]. *)
Definition turns_extracted (b : browser) : Prop :=
  forall idx, exists pg, page_turns b idx = extract_turns_dom pg.

(** *** Further vocabulary: nodes with numeric timestamps, items without id *)

(** The [create_time] of the node's message, when the message is a dict
    that has one, is falsy or a number. *)
Definition numeric_time (n : value) : bool :=
  match n with
  | VDict nk =>
      match assoc "message" nk with
      | Some (VDict mk) =>
          match assoc "create_time" mk with
          | Some t =>
              negb (truthy t)
              || match num_of t with Some _ => true | None => false end
          | None => true
          end
      | _ => true
      end
  | _ => true
  end.

(** A list item that is a dict without [id] and [conversation_id]. *)
Definition item_without_id (it : value) : Prop :=
  exists kvs, it = VDict kvs /\ truthy (header_id kvs) = false.

(** *** Values in a store *)

(** In the store [h] the reference [r] stands for the JSON value [v]. *)
Definition stored (h : heap) (r : ref_value) (v : value) : Prop :=
  reify h r = Some v.

(** Every object of [h] is in [h'], at its address and as it was. *)
Definition frame (h h' : heap) : Prop :=
  forall l o, h !! l = Some o -> h' !! l = Some o.

(** The computation [c] from the store [h] does what the result [p] says:
    it raises the same exception, or it returns a result that [Q] relates
    to the one of [p] and leaves the objects of [h] as they were. *)
Definition sim {A X : Type} (h : heap) (c : run A) (p : result X)
  (Q : X -> A -> heap -> Prop) : Prop :=
  match p with
  | Ok x => exists a h', c h = Ok (a, h') /\ frame h h' /\ Q x a h'
  | Raise e => c h = Raise e
  end.

(** Every address from the end of [h] on is admitted by [ok]. *)
Definition fresh_ok (ok : nat -> bool) (h : heap) : Prop :=
  forall l, (length h <= l)%nat -> ok l = true.

(** An entry of a dict and the entry it stands for. *)
Definition entry_on (ok : nat -> bool) (n : nat) (h : heap)
  (kr : string * ref_value) (kv : string * value) : Prop :=
  fst kr = fst kv /\ reify_on ok n h (snd kr) = Some (snd kv).

(** The forms of a reference and of the value read from it. *)
Inductive shape_on (ok : nat -> bool) (n : nat) (h : heap)
  : ref_value -> value -> Prop :=
| shape_none : shape_on ok n h RNone VNone
| shape_bool b : shape_on ok n h (RBool b) (VBool b)
| shape_num q : shape_on ok n h (RNum q) (VNum q)
| shape_str s : shape_on ok n h (RStr s) (VStr s)
| shape_list l items vs :
    ok l = true -> h !! l = Some (OList items) ->
    Forall2 (fun r v => reify_on ok n h r = Some v) items vs ->
    shape_on ok n h (RRef l) (VList vs)
| shape_dict l entries kvs :
    ok l = true -> h !! l = Some (ODict entries) ->
    Forall2 (entry_on ok n h) entries kvs ->
    shape_on ok n h (RRef l) (VDict kvs).

(** The relation between the results of the two embeddings: the reference
    returned stands for the value returned. *)
Definition read_on (ok : nat -> bool) (n : nat) (v : value) (r : ref_value)
  (h : heap) : Prop :=
  reify_on ok n h r = Some v.

(** From [h] to [h'] no object but the one at [a] has changed. *)
Definition keeps (a : nat) (h h' : heap) : Prop :=
  (length h <= length h')%nat
  /\ forall l o, l <> a -> h !! l = Some o -> h' !! l = Some o.

(** Two items of a sort with the same key. *)
Definition same_key_on (R : ref_value -> value -> Prop)
  (x : value * ref_value) (y : value * value) : Prop :=
  fst x = fst y /\ R (snd x) (snd y).

(** [sim] for a computation that may change the object at [a]. *)
Definition sim_keeps {A X : Type} (a : nat) (h : heap) (c : run A) (p : result X)
  (Q : X -> A -> heap -> Prop) : Prop :=
  match p with
  | Ok x => exists r h', c h = Ok (r, h') /\ keeps a h h' /\ Q x r h'
  | Raise e => c h = Raise e
  end.

(** A store holding one payload, at address 0: two nodes listed latest
    first, one with a text and one with parts. *)
Definition payload_store : heap :=
  [ODict [("id", RStr "c1"); ("title", RStr "Hello"); ("mapping", RRef 1)];
   ODict [("n2", RRef 2); ("n1", RRef 6)];
   ODict [("message", RRef 3)];
   ODict [("author", RRef 4); ("content", RRef 5); ("create_time", RNum 2)];
   ODict [("role", RStr "assistant")];
   ODict [("text", RStr "Hello!")];
   ODict [("message", RRef 7)];
   ODict [("author", RRef 8); ("content", RRef 9); ("create_time", RNum 1)];
   ODict [("role", RStr "user")];
   ODict [("parts", RRef 10)];
   OList [RStr "Hi"]].

Definition payload_value : value :=
  payload_of [("n2", msg_node "assistant" (VDict [("text", VStr "Hello!")]) 2);
              ("n1", msg_node "user" (VDict [("parts", VList [VStr "Hi"])]) 1)].

(** * Properties *)

(** ** Basic facts about the monad and the loops *)

Lemma bind_ok {A B : Type} (r : result A) (k : A -> result B) (b : B) :
  bind r k = Ok b -> exists a, r = Ok a /\ k a = Ok b.
Proof. destruct r as [a|e]; simpl; intros H; [eauto | discriminate]. Qed.

(** Appending in a loop builds the list of the per-item results. *)
Lemma for_each_append {A B : Type} (f : A -> result B) (l : list A) (acc : list B) :
  for_each (fun acc x => let! y := f x in Ok (acc ++ [y])) l acc
  = let! ys := map_each f l in Ok (acc ++ ys).
Proof.
  revert acc. induction l as [|x l IH]; intros acc; simpl.
  - now rewrite app_nil_r.
  - destruct (f x) as [y|e]; simpl; [|reflexivity].
    rewrite IH. destruct (map_each f l) as [ys|e]; simpl; [|reflexivity].
    now rewrite <- app_assoc.
Qed.

Lemma map_each_length {A B : Type} (f : A -> result B) (l : list A) (ys : list B) :
  map_each f l = Ok ys -> length ys = length l.
Proof.
  revert ys. induction l as [|x l IH]; simpl; intros ys H.
  - now inversion H.
  - apply bind_ok in H as (y & _ & H). apply bind_ok in H as (ys' & Hys & H).
    inversion H; subst. simpl. f_equal. now apply IH.
Qed.

Lemma map_each_Forall2 {A B : Type} (f : A -> result B) (l : list A) (ys : list B) :
  map_each f l = Ok ys -> Forall2 (fun x y => f x = Ok y) l ys.
Proof.
  revert ys. induction l as [|x l IH]; simpl; intros ys H.
  - inversion H. constructor.
  - apply bind_ok in H as (y & Hy & H). apply bind_ok in H as (ys' & Hys & H).
    inversion H; subst. constructor; auto.
Qed.

(** ** Text extraction *)

Lemma drop_space_clean (l : list ascii) : starts_clean (drop_space l).
Proof.
  induction l as [|c l IH]; simpl; [exact I|].
  destruct (is_space c) eqn:E; [exact IH|exact E].
Qed.

Lemma drop_space_suffix (l : list ascii) : exists p, l = p ++ drop_space l.
Proof.
  induction l as [|c l [p Hp]]; simpl; [now exists []|].
  destruct (is_space c).
  - exists (c :: p). simpl. now f_equal.
  - now exists [].
Qed.

Lemma starts_clean_prefix (l r : list ascii) :
  starts_clean (l ++ r) -> starts_clean l.
Proof. destruct l; simpl; auto. Qed.

(** [strip] leaves no white space at either end. *)
Lemma strip_trimmed (s : string) : trimmed (strip s).
Proof.
  unfold trimmed, strip. rewrite list_ascii_of_string_of_list_ascii.
  rewrite rev_involutive. split; [|apply drop_space_clean].
  destruct (drop_space_suffix (rev (drop_space (list_ascii_of_string s))))
    as [p Hp].
  apply (f_equal (@rev ascii)) in Hp. rewrite rev_involutive, rev_app_distr in Hp.
  apply (starts_clean_prefix _ (rev p)). rewrite <- Hp. apply drop_space_clean.
Qed.

Lemma extract_text_no_parts (ck : list (string * value)) :
  no_parts ck -> extract_text (VDict ck) = Ok (text_field ck).
Proof.
  unfold no_parts, extract_text, text_field, py_get, py_get_default.
  cbn [bind]. destruct (assoc "parts" ck) as [p|].
  - destruct p as [ | | | |ps| ];
      try (intros _; destruct (assoc "text" ck) as [[ | | | | | ]|]; reflexivity).
    destruct ps; [|tauto].
    intros _; destruct (assoc "text" ck) as [[ | | | | | ]|]; reflexivity.
  - intros _; destruct (assoc "text" ck) as [[ | | | | | ]|]; reflexivity.
Qed.

(** [parts] given as ["a", {text: "b"}]. *)
Example extract_text_parts :
  extract_text (VDict [("parts", VList [VStr "a"; VDict [("text", VStr "b")]])])
  = Ok ("a" ++ newline ++ "b")%string.
Proof. reflexivity. Qed.

(** A [text] field alone is trimmed. *)
Lemma extract_text_text_only (s : string) :
  extract_text (VDict [("text", VStr s)]) = Ok (strip s).
Proof. reflexivity. Qed.

Example extract_text_empty_content : extract_text (VDict []) = Ok "".
Proof. reflexivity. Qed.

(** A content that is a string has no [get]: the lookup of [parts] on line
    194 raises before line 206 can test for a string. *)
Lemma extract_text_bare_string (s : string) :
  extract_text (VStr s) = Raise AttributeError.
Proof. reflexivity. Qed.

Lemma node_message_bare_string (s : string) :
  s <> "" -> node_message (content_node (VStr s)) = Raise AttributeError.
Proof.
  intros Hs. unfold node_message, content_node, py_or. simpl.
  destruct (String.eqb s "") eqn:E; [apply String.eqb_eq in E; contradiction|].
  reflexivity.
Qed.

(** C2 (defect): the claim promises the text ["y"] for a message whose
    content is the bare string ["y"]. The normaliser raises
    [AttributeError] on that payload: [content.get("parts")] is evaluated
    on the string. *)
Theorem convert_bare_string_content_raises :
  convert_api_conversation (payload_of [("n1", content_node (VStr "y"))])
  = Raise AttributeError.
Proof. vm_compute. reflexivity. Qed.

(** C1 (defect): the claim promises a record for every payload, a null
    message included. The sort key of line 187 reads
    [n.get("message", {})], which is [None] for a null message, and raises
    [AttributeError]; line 189, with [or {}], would have accepted it. *)
Theorem convert_null_message_raises :
  convert_api_conversation
    (VDict [("id", VStr "c1"); ("mapping", VDict [("root", VDict [("message", VNone)])])])
  = Raise AttributeError.
Proof. vm_compute. reflexivity. Qed.

Lemma assoc_truthy (k : string) (kvs : list (string * value)) (v : value) :
  assoc k kvs = Some v -> py_or (VDict kvs) (VDict []) = VDict kvs.
Proof. destruct kvs; [discriminate|reflexivity]. Qed.

(** C10: a node message whose content has [parts] equal to the empty list
    gets its text from the [text] field, trimmed, when that is a string, and
    the empty text otherwise. More generally the [text] field decides
    whenever [parts] is anything but a non-empty list, and the parts branch
    is the one taken for a non-empty list. *)
Theorem empty_parts_fall_through :
  (forall (nk mk ck : list (string * value)) (role : value),
      assoc "message" nk = Some (VDict mk) ->
      assoc "content" mk = Some (VDict ck) ->
      assoc "parts" ck = Some (VList []) ->
      py_get (py_or (field "author" mk) (VDict [])) "role" = Ok role ->
      node_message (VDict nk)
      = Ok (VDict [("role", py_or role (VStr "assistant"));
                   ("text", VStr (text_field ck)); ("html", VNone)]))
  /\ (forall ck : list (string * value),
         no_parts ck -> extract_text (VDict ck) = Ok (text_field ck))
  /\ (forall (ck : list (string * value)) (p : value) (ps : list value),
         assoc "parts" ck = Some (VList (p :: ps)) ->
         extract_text (VDict ck)
         = let! joined := py_join newline (fold_left add_part (p :: ps) []) in
           Ok (strip joined)).
Proof.
  split; [|split].
  - intros nk mk ck role Hm Hc Hp Hr.
    unfold py_get, py_get_default, field in Hr.
    unfold node_message, py_get, py_get_default. cbn [bind]. rewrite Hm.
    rewrite (assoc_truthy _ _ _ Hc). cbn [bind]. rewrite Hr. cbn [bind].
    rewrite Hc. rewrite (assoc_truthy _ _ _ Hp).
    fold (py_get_default (VDict ck) "parts" VNone). fold (py_get (VDict ck) "parts").
    rewrite extract_text_no_parts; [reflexivity|].
    unfold no_parts. now rewrite Hp.
  - apply extract_text_no_parts.
  - intros ck p ps H. unfold extract_text, py_get, py_get_default. cbn [bind].
    now rewrite H.
Qed.

Lemma empty_parts_fall_through_witness :
  node_message
    (VDict [("message",
             VDict [("author", VDict [("role", VStr "user")]);
                    ("content", VDict [("parts", VList []); ("text", VStr " x ")])])])
  = Ok (VDict [("role", VStr "user"); ("text", VStr "x"); ("html", VNone)]).
Proof.
  destruct empty_parts_fall_through as [H _].
  apply (H [("message",
             VDict [("author", VDict [("role", VStr "user")]);
                    ("content", VDict [("parts", VList []); ("text", VStr " x ")])])]
           [("author", VDict [("role", VStr "user")]);
            ("content", VDict [("parts", VList []); ("text", VStr " x ")])]
           [("parts", VList []); ("text", VStr " x ")]
           (VStr "user")); reflexivity.
Defined.

(** ** [list.sort] on numeric keys *)

Lemma py_lt_numeric (a b : value) (x y : Q) :
  num_of a = Some x -> num_of b = Some y ->
  py_lt a b = Ok (negb (Qle_bool y x)).
Proof.
  destruct a; destruct b; simpl; intros Ha Hb; try discriminate;
    inversion Ha; inversion Hb; reflexivity.
Qed.

Lemma py_lt_keyed (x y : value * value) :
  numeric_key x -> numeric_key y ->
  py_lt (fst y) (fst x) = Ok (negb (Qle_bool (key_num x) (key_num y))).
Proof.
  intros [qx Hx] [qy Hy]. unfold key_num. rewrite Hx, Hy.
  now apply py_lt_numeric.
Qed.

Lemma insert_keyed_perm (x : value * value) (l r : list (value * value)) :
  insert_keyed x l = Ok r -> Permutation (x :: l) r.
Proof.
  revert r. induction l as [|y l IH]; simpl; intros r H.
  - inversion H. reflexivity.
  - apply bind_ok in H as (b & _ & H). destruct b.
    + apply bind_ok in H as (r' & Hr & H). inversion H; subst.
      rewrite perm_swap. constructor. now apply IH.
    + inversion H. reflexivity.
Qed.

Lemma sort_keyed_perm (l r : list (value * value)) :
  sort_keyed l = Ok r -> Permutation l r.
Proof.
  revert r. induction l as [|x l IH]; simpl; intros r H.
  - inversion H. reflexivity.
  - apply bind_ok in H as (s & Hs & H).
    apply insert_keyed_perm in H. rewrite <- H. constructor. now apply IH.
Qed.

Lemma insert_keyed_total (x : value * value) (l : list (value * value)) :
  numeric_key x -> Forall numeric_key l -> exists r, insert_keyed x l = Ok r.
Proof.
  intros Hx Hl. induction Hl as [|y l Hy Hl IH]; simpl; [eauto|].
  rewrite (py_lt_keyed x y Hx Hy). simpl.
  destruct (negb (Qle_bool (key_num x) (key_num y))); [|eauto].
  destruct IH as [r ->]. simpl. eauto.
Qed.

Lemma sort_keyed_total (l : list (value * value)) :
  Forall numeric_key l -> exists r, sort_keyed l = Ok r.
Proof.
  induction 1 as [|x l Hx Hl [s Hs]]; simpl; [eauto|].
  rewrite Hs. simpl. apply insert_keyed_total; [assumption|].
  apply sort_keyed_perm in Hs. now rewrite <- Hs.
Qed.

Lemma insert_keyed_sorted (x : value * value) (l r : list (value * value)) :
  numeric_key x -> Forall numeric_key l ->
  StronglySorted key_le l -> insert_keyed x l = Ok r ->
  StronglySorted key_le r.
Proof.
  intros Hx Hl Hs. revert r. induction Hs as [|y l Hs IH Hy]; simpl; intros r H.
  - inversion H. repeat constructor.
  - inversion Hl as [|? ? Hny Hl']; subst.
    rewrite (py_lt_keyed x y Hx Hny) in H. simpl in H.
    destruct (Qle_bool (key_num x) (key_num y)) eqn:E; simpl in H.
    + inversion H; subst. apply Qle_bool_iff in E.
      constructor; [constructor; assumption|].
      constructor; [exact E|].
      eapply Forall_impl; [exact Hy|]. intros z Hz. unfold key_le in *.
      eapply Qle_trans; eassumption.
    + apply bind_ok in H as (r' & Hr & H). inversion H; subst.
      constructor; [now apply IH|].
      apply insert_keyed_perm in Hr. rewrite <- Hr. constructor; [|assumption].
      unfold key_le. apply Qlt_le_weak. apply Qnot_le_lt. intros Hle.
      apply Qle_bool_iff in Hle. congruence.
Qed.

Lemma sort_keyed_sorted (l r : list (value * value)) :
  Forall numeric_key l -> sort_keyed l = Ok r -> StronglySorted key_le r.
Proof.
  intros Hl. revert r. induction Hl as [|x l Hx Hl IH]; simpl; intros r H.
  - inversion H. constructor.
  - apply bind_ok in H as (s & Hs & H).
    apply (insert_keyed_sorted x s r Hx); [|apply IH; exact Hs|exact H].
    apply sort_keyed_perm in Hs. now rewrite <- Hs.
Qed.

(** Stability: the items that share a key keep their order. *)
Lemma insert_keyed_stable (q : Q) (x : value * value) (l r : list (value * value)) :
  numeric_key x -> Forall numeric_key l -> insert_keyed x l = Ok r ->
  List.filter (same_key q) r = List.filter (same_key q) (x :: l).
Proof.
  intros Hx Hl. revert r. induction Hl as [|y l Hy Hl IH]; intros r H.
  - simpl in H. inversion H. reflexivity.
  - cbn [insert_keyed] in H. rewrite (py_lt_keyed x y Hx Hy) in H. simpl in H.
    destruct (Qle_bool (key_num x) (key_num y)) eqn:E; simpl in H.
    + inversion H. reflexivity.
    + apply bind_ok in H as (r' & Hr & H). inversion H; subst.
      cbn [List.filter]. rewrite (IH _ Hr). cbn [List.filter].
      destruct (same_key q x) eqn:Ex; [|reflexivity].
      destruct (same_key q y) eqn:Ey; [|reflexivity].
      exfalso. unfold same_key in *.
      apply Qeq_bool_iff in Ex. apply Qeq_bool_iff in Ey.
      assert (Hle : (key_num x <= key_num y)%Q) by (rewrite Ex, Ey; apply Qle_refl).
      apply Qle_bool_iff in Hle. congruence.
Qed.

Lemma sort_keyed_stable (q : Q) (l r : list (value * value)) :
  Forall numeric_key l -> sort_keyed l = Ok r ->
  List.filter (same_key q) r = List.filter (same_key q) l.
Proof.
  intros Hl. revert r. induction Hl as [|x l Hx Hl IH]; simpl; intros r H.
  - inversion H. reflexivity.
  - apply bind_ok in H as (s & Hs & H).
    assert (Hsn : Forall numeric_key s).
    { apply sort_keyed_perm in Hs. now rewrite <- Hs. }
    rewrite (insert_keyed_stable q x s r Hx Hsn H). simpl.
    rewrite (IH _ Hs). reflexivity.
Qed.

(** ** Chronological order of the messages *)

Lemma falsy_num_zero (t : value) (q : Q) :
  truthy t = false -> num_of t = Some q -> (q == 0)%Q.
Proof.
  destruct t; simpl; intros Ht Hq; inversion Hq; subst.
  - simpl. reflexivity.
  - unfold q_is_zero in Ht. apply negb_false_iff in Ht.
    now apply Qeq_bool_iff in Ht.
Qed.

Lemma sort_key_timed (n : value) :
  timed_node n = true -> exists k, sort_key n = Ok k /\ keyed_by_time (k, n).
Proof.
  destruct n as [ | | | | |nk]; try discriminate.
  unfold timed_node, sort_key, keyed_by_time, py_get, py_get_default.
  cbn [fst snd timestamp].
  destruct (assoc "message" nk) as [m|]; cbn [bind].
  - destruct m as [ | | | | |mk]; try discriminate.
    destruct (assoc "create_time" mk) as [t|]; cbn [bind].
    + intros Ht. unfold py_or. destruct (truthy t) eqn:E; simpl in Ht.
      * destruct (num_of t) as [q|] eqn:Eq; [|discriminate].
        exists t. split; [reflexivity|]. exists q. split; [assumption|reflexivity].
      * exists (VNum 0). split; [reflexivity|]. exists 0%Q.
        split; [reflexivity|].
        destruct (num_of t) as [q|] eqn:Eq; [|reflexivity].
        symmetry. now apply (falsy_num_zero t).
    + intros _. exists (VNum 0). split; [reflexivity|]. exists 0%Q.
      split; reflexivity.
  - intros _. exists (VNum 0). split; [reflexivity|]. exists 0%Q.
    split; reflexivity.
Qed.

Lemma keyed_by_time_numeric (kv : value * value) :
  keyed_by_time kv -> numeric_key kv.
Proof. intros (q & Hq & _). now exists q. Qed.

Lemma keyed_by_time_num (kv : value * value) :
  keyed_by_time kv -> (key_num kv == timestamp (snd kv))%Q.
Proof. intros (q & Hq & Ht). unfold key_num. now rewrite Hq. Qed.

Lemma keys_of_timed_nodes (nodes : list value) :
  Forall (fun n => timed_node n = true) nodes ->
  exists keys, map_each sort_key nodes = Ok keys
               /\ Forall keyed_by_time (combine keys nodes)
               /\ map snd (combine keys nodes) = nodes.
Proof.
  induction 1 as [|n nodes Hn _ (keys & Hk & Hf & Hm)]; simpl.
  - exists []. repeat split. constructor.
  - destruct (sort_key_timed n Hn) as (k & Hkey & Hkt).
    exists (k :: keys). rewrite Hkey, Hk. simpl.
    repeat split; [constructor; assumption|now f_equal].
Qed.

Lemma sorted_by_time (l : list (value * value)) :
  Forall keyed_by_time l -> StronglySorted key_le l ->
  StronglySorted time_le (map snd l).
Proof.
  intros Hk Hs. induction Hs as [|x l Hs IH Hx]; simpl; [constructor|].
  inversion Hk as [|? ? Hkx Hkl]; subst.
  constructor; [now apply IH|].
  apply Forall_map. clear IH Hs Hk.
  induction Hx as [|y l Hxy Hx IH]; [constructor|].
  inversion Hkl; subst. constructor; [|now apply IH].
  unfold time_le, key_le in *. simpl.
  rewrite <- (keyed_by_time_num x), <- (keyed_by_time_num y); assumption.
Qed.

Lemma filter_by_time (q : Q) (l : list (value * value)) :
  Forall keyed_by_time l ->
  map snd (List.filter (same_key q) l) = List.filter (same_time q) (map snd l).
Proof.
  induction 1 as [|x l Hx _ IH]; simpl; [reflexivity|].
  assert (E : same_key q x = same_time q (snd x)).
  { unfold same_key, same_time. apply keyed_by_time_num in Hx.
    destruct (Qeq_bool (key_num x) q) eqn:E1;
      destruct (Qeq_bool (timestamp (snd x)) q) eqn:E2; try reflexivity.
    - apply Qeq_bool_iff in E1. rewrite Hx in E1.
      apply Qeq_bool_iff in E1. congruence.
    - apply Qeq_bool_iff in E2. rewrite <- Hx in E2.
      apply Qeq_bool_iff in E2. congruence. }
  rewrite <- E. destruct (same_key q x); simpl; now rewrite IH.
Qed.

(** [nodes.sort(key=...)] on nodes with readable timestamps: it returns,
    the result is a stable rearrangement in non-decreasing timestamp
    order. *)
Lemma py_sort_by_time (nodes : list value) :
  Forall (fun n => timed_node n = true) nodes ->
  exists sorted,
    py_sort sort_key nodes = Ok sorted
    /\ Permutation nodes sorted
    /\ StronglySorted time_le sorted
    /\ forall q, List.filter (same_time q) sorted = List.filter (same_time q) nodes.
Proof.
  intros Hn. destruct (keys_of_timed_nodes nodes Hn) as (keys & Hk & Hf & Hm).
  assert (Hnum : Forall numeric_key (combine keys nodes)).
  { eapply Forall_impl; [exact Hf|]. apply keyed_by_time_numeric. }
  destruct (sort_keyed_total _ Hnum) as [s Hs].
  pose proof (sort_keyed_perm _ _ Hs) as Hp.
  assert (Hfs : Forall keyed_by_time s) by now rewrite <- Hp.
  exists (map snd s). unfold py_sort. rewrite Hk. simpl. rewrite Hs. simpl.
  split; [reflexivity|]. split; [|split].
  - rewrite <- Hm at 1. now apply Permutation_map.
  - apply sorted_by_time; [assumption|]. now apply (sort_keyed_sorted _ _ Hnum).
  - intros q. rewrite <- (filter_by_time q s Hfs).
    rewrite (sort_keyed_stable q _ _ Hnum Hs).
    rewrite (filter_by_time q _ Hf). now rewrite Hm.
Qed.

(** ** The record returned for a dict payload *)

Example convert_end_to_end :
  convert_api_conversation
    (payload_of [("n2", msg_node "assistant" (VDict [("parts", VList [VStr "Hello!"])]) 2);
                 ("n1", msg_node "user" (VDict [("parts", VList [VStr "Hi"])]) 1)])
  = Ok (VDict [("id", VStr "c1"); ("title", VStr "Hello");
               ("messages",
                VList [VDict [("role", VStr "user"); ("text", VStr "Hi"); ("html", VNone)];
                       VDict [("role", VStr "assistant"); ("text", VStr "Hello!");
                              ("html", VNone)]])]).
Proof. vm_compute. reflexivity. Qed.

Lemma mapping_messages_loop (mapping : value) :
  (let! nodes0 := py_values mapping in
   let! nodes := py_sort sort_key nodes0 in
   for_each (fun msgs n => let! msg := node_message n in Ok (msgs ++ [msg]))
            nodes [])
  = mapping_messages mapping.
Proof.
  unfold mapping_messages.
  destruct (py_values mapping) as [nodes0|]; [|reflexivity]. cbn [bind].
  destruct (py_sort sort_key nodes0) as [nodes|]; [|reflexivity]. cbn [bind].
  rewrite for_each_append. destruct (map_each node_message nodes); reflexivity.
Qed.

Lemma convert_dict (kvs : list (string * value)) :
  convert_api_conversation (VDict kvs)
  = let! msgs := (if truthy (py_or (field "mapping" kvs) (VDict []))
                  then mapping_messages (py_or (field "mapping" kvs) (VDict []))
                  else Ok []) in
    Ok (record (header_id kvs) (header_title kvs) msgs).
Proof.
  unfold convert_api_conversation, header_id, header_title, record.
  change (py_get (VDict kvs) "id") with (Ok (field "id" kvs)).
  change (py_get (VDict kvs) "conversation_id")
    with (Ok (field "conversation_id" kvs)).
  change (py_get (VDict kvs) "title") with (Ok (field "title" kvs)).
  change (py_get (VDict kvs) "current_node") with (Ok (field "current_node" kvs)).
  change (py_get (VDict kvs) "mapping") with (Ok (field "mapping" kvs)).
  unfold py_or_else, py_or. cbn [bind].
  destruct (truthy (field "id" kvs)); cbn [bind];
    destruct (truthy (field "title" kvs)); cbn [bind];
    rewrite mapping_messages_loop; reflexivity.
Qed.

(** C6: a payload whose mapping is absent, null or empty (falsy) yields a
    header-only record: the messages are the empty sequence. *)
Theorem no_mapping_no_messages (kvs : list (string * value)) :
  truthy (field "mapping" kvs) = false ->
  convert_api_conversation (VDict kvs)
  = Ok (record (header_id kvs) (header_title kvs) []).
Proof.
  intros H. rewrite convert_dict. unfold py_or at 1. rewrite H. reflexivity.
Qed.

Lemma no_mapping_no_messages_witness :
  convert_api_conversation (VDict [("id", VStr "c1"); ("mapping", VNone)])
  = Ok (record (VStr "c1") (VStr "Untitled") []).
Proof.
  apply (no_mapping_no_messages [("id", VStr "c1"); ("mapping", VNone)]).
  reflexivity.
Defined.

(** The three shapes the claim names. *)
Lemma mapping_absent_null_empty (kvs : list (string * value)) :
  assoc "mapping" kvs = None \/ assoc "mapping" kvs = Some VNone
  \/ assoc "mapping" kvs = Some (VDict []) ->
  truthy (field "mapping" kvs) = false.
Proof. unfold field. intros [H|[H|H]]; rewrite H; reflexivity. Qed.



(** The record depends on five fields of the payload and on nothing else. *)
Lemma convert_reads_five_fields (kvs1 kvs2 : list (string * value)) :
  field "id" kvs1 = field "id" kvs2 ->
  field "conversation_id" kvs1 = field "conversation_id" kvs2 ->
  field "title" kvs1 = field "title" kvs2 ->
  field "current_node" kvs1 = field "current_node" kvs2 ->
  field "mapping" kvs1 = field "mapping" kvs2 ->
  convert_api_conversation (VDict kvs1) = convert_api_conversation (VDict kvs2).
Proof.
  intros Hi Hc Ht Hn Hm. rewrite !convert_dict. unfold header_id, header_title.
  now rewrite Hi, Hc, Ht, Hn, Hm.
Qed.

(** ** The normaliser on a store *)

Lemma bind_run_ok {A B : Type} (c : run A) (k : A -> run B) (h h' : heap) (a : A) :
  c h = Ok (a, h') -> bind_run c k h = k a h'.
Proof. intros H. unfold bind_run. now rewrite H. Qed.

Lemma bind_run_raise {A B : Type} (c : run A) (k : A -> run B) (h : heap) (e : exn) :
  c h = Raise e -> bind_run c k h = Raise e.
Proof. intros H. unfold bind_run. now rewrite H. Qed.

Lemma frame_refl (h : heap) : frame h h.
Proof. intros l o H. exact H. Qed.

Lemma frame_trans (h1 h2 h3 : heap) : frame h1 h2 -> frame h2 h3 -> frame h1 h3.
Proof. intros H12 H23 l o H. apply H23, H12, H. Qed.

Lemma frame_alloc (h : heap) (o : object) : frame h (h ++ [o]).
Proof. intros l o' H. now apply lookup_app_l_Some. Qed.

Lemma frame_length (h h' : heap) : frame h h' -> (length h <= length h')%nat.
Proof.
  intros H. destruct (le_lt_dec (length h) (length h')) as [Hle|Hlt]; [exact Hle|].
  destruct (lookup_lt_is_Some_2 h (length h') Hlt) as [o Ho].
  apply H in Ho. apply lookup_lt_Some in Ho. lia.
Qed.

(** An object made after [h] can change without touching [h]. *)
Lemma frame_update (h0 h : heap) (l : nat) (o : object) :
  frame h0 h -> (length h0 <= l)%nat -> frame h0 (<[l := o]> h).
Proof.
  intros H Hl a o' Ha. rewrite list_lookup_insert_ne.
  - now apply H.
  - apply lookup_lt_Some in Ha. lia.
Qed.

Lemma fresh_ok_frame (ok : nat -> bool) (h h' : heap) :
  fresh_ok ok h -> frame h h' -> fresh_ok ok h'.
Proof.
  intros H Hf l Hl. apply H. apply frame_length in Hf. lia.
Qed.

Lemma sim_bind {A B X Y : Type} (h : heap) (c : run A) (k : A -> run B)
  (p : result X) (kp : X -> result Y)
  (Q : X -> A -> heap -> Prop) (Q' : Y -> B -> heap -> Prop) :
  sim h c p Q ->
  (forall x a h', frame h h' -> Q x a h' -> sim h' (k a) (kp x) Q') ->
  sim h (bind_run c k) (bind p kp) Q'.
Proof.
  intros Hc Hk. destruct p as [x|e]; cbn [sim bind] in *.
  - destruct Hc as (a & h' & Hc & Hf & HQ).
    specialize (Hk x a h' Hf HQ).
    destruct (kp x) as [y|e]; cbn [sim] in *; rewrite (bind_run_ok _ _ _ _ _ Hc).
    + destruct Hk as (b & h'' & Hk & Hf' & HQ'). exists b, h''.
      split; [exact Hk|]. split; [|exact HQ']. now apply (frame_trans h h' h'').
    + exact Hk.
  - now apply bind_run_raise.
Qed.

(** The same when the first result is known. *)
Lemma sim_bind_val {A B X Y : Type} (h : heap) (c : run A) (k : A -> run B)
  (x : X) (p : result Y)
  (Q : X -> A -> heap -> Prop) (Q' : Y -> B -> heap -> Prop) :
  sim h c (Ok x) Q ->
  (forall a h', frame h h' -> Q x a h' -> sim h' (k a) p Q') ->
  sim h (bind_run c k) p Q'.
Proof.
  intros Hc Hk. cbn [sim] in Hc. destruct Hc as (a & h' & Hc & Hf & HQ).
  specialize (Hk a h' Hf HQ). destruct p as [y|e]; cbn [sim] in *.
  - destruct Hk as (b & h'' & Hk & Hf' & HQ'). exists b, h''.
    rewrite (bind_run_ok _ _ _ _ _ Hc).
    split; [exact Hk|]. split; [|exact HQ']. now apply (frame_trans h h' h'').
  - now rewrite (bind_run_ok _ _ _ _ _ Hc).
Qed.

Lemma sim_ret {A X : Type} (h : heap) (a : A) (x : X) (Q : X -> A -> heap -> Prop) :
  Q x a h -> sim h (ret a) (Ok x) Q.
Proof. intros H. exists a, h. split; [reflexivity|]. split; [apply frame_refl|exact H]. Qed.

(** *** Reading values back *)

Lemma mapM_ext_Some {A B : Type} (f g : A -> option B) (l : list A) (k : list B) :
  (forall x y, f x = Some y -> g x = Some y) ->
  mapM f l = Some k -> mapM g l = Some k.
Proof.
  intros H Hf. apply mapM_Some in Hf. apply mapM_Some.
  eapply Forall2_impl; [exact Hf|]. exact H.
Qed.

(** What is read stays when the objects met stay, when more addresses are
    admitted and when the depth grows. *)
Lemma reify_on_mono (ok ok' : nat -> bool) (h h' : heap) (n : nat) :
  (forall l o, ok l = true -> h !! l = Some o -> ok' l = true /\ h' !! l = Some o) ->
  forall (m : nat) (r : ref_value) (v : value),
    (n <= m)%nat ->
    reify_on ok n h r = Some v -> reify_on ok' m h' r = Some v.
Proof.
  intros Hh. induction n as [|n IH]; intros m r v Hm H.
  - destruct r; destruct m; cbn in H |- *; try exact H; discriminate H.
  - destruct m as [|m]; [lia|].
    destruct r as [ | | | |l]; try exact H. cbn [reify_on] in H |- *.
    destruct (ok l) eqn:Hok; [|discriminate H].
    destruct (h !! l) as [o|] eqn:Hl; [|discriminate H].
    destruct (Hh l o Hok Hl) as [Hok' Hl']. rewrite Hok', Hl'.
    assert (Hnm : (n <= m)%nat) by lia.
    destruct o as [items|entries].
    + destruct (mapM (reify_on ok n h) items) as [vs|] eqn:E; [|discriminate H].
      rewrite (mapM_ext_Some _ (reify_on ok' m h') items vs
                 (fun x y => IH m x y Hnm) E). exact H.
    + destruct (mapM (fun kr => pair (fst kr) <$> reify_on ok n h (snd kr)) entries)
        as [kvs|] eqn:E; [|discriminate H].
      rewrite (mapM_ext_Some (fun kr => pair (fst kr) <$> reify_on ok n h (snd kr))
                 (fun kr => pair (fst kr) <$> reify_on ok' m h' (snd kr))
                 entries kvs); [exact H| |exact E].
      intros [k r] [k' v'] Hx. cbn [fst snd] in *.
      destruct (reify_on ok n h r) as [w|] eqn:Er; [|discriminate Hx].
      now rewrite (IH m r w Hnm Er).
Qed.

Lemma reify_on_frame (ok : nat -> bool) (n : nat) (h h' : heap)
  (r : ref_value) (v : value) :
  frame h h' -> reify_on ok n h r = Some v -> reify_on ok n h' r = Some v.
Proof.
  intros Hf. apply reify_on_mono; [|lia]. intros l o Hok Hl. split; [exact Hok|].
  now apply Hf.
Qed.

Lemma reify_on_shape (ok : nat -> bool) (n : nat) (h : heap)
  (r : ref_value) (v : value) :
  reify_on ok n h r = Some v -> shape_on ok n h r v.
Proof.
  intros H. destruct n as [|n].
  { destruct r; cbn in H; try discriminate H; inversion H; constructor. }
  destruct r as [ | | | |l]; cbn [reify_on] in H.
  1-4: inversion H; constructor.
  destruct (ok l) eqn:Hok; [|discriminate H].
  destruct (h !! l) as [[items|entries]|] eqn:Hl; [| |discriminate H].
  - destruct (mapM (reify_on ok n h) items) as [vs|] eqn:E; [|discriminate H].
    inversion H; subst. apply (shape_list ok (S n) h l items vs Hok Hl).
    apply mapM_Some in E. eapply Forall2_impl; [exact E|].
    intros x y Hxy. apply (reify_on_mono ok ok h h n); [auto|lia|exact Hxy].
  - destruct (mapM (fun kr => pair (fst kr) <$> reify_on ok n h (snd kr)) entries)
      as [kvs|] eqn:E; [|discriminate H].
    inversion H; subst. apply (shape_dict ok (S n) h l entries kvs Hok Hl).
    apply mapM_Some in E. eapply Forall2_impl; [exact E|].
    intros [k r] [k' v'] Hx. cbn [fst snd] in Hx. unfold entry_on. cbn [fst snd].
    destruct (reify_on ok n h r) as [w|] eqn:Er; [|discriminate Hx].
    inversion Hx; subst. split; [reflexivity|].
    apply (reify_on_mono ok ok h h n); [auto|lia|exact Er].
Qed.

Lemma keeps_frame (a : nat) (h h' : heap) : frame h h' -> keeps a h h'.
Proof.
  intros H. split; [now apply frame_length|]. intros l o _. apply H.
Qed.

Lemma keeps_trans (a : nat) (h1 h2 h3 : heap) :
  keeps a h1 h2 -> keeps a h2 h3 -> keeps a h1 h3.
Proof.
  intros [Hl1 H1] [Hl2 H2]. split; [lia|]. intros l o Hl Ho.
  apply H2; [exact Hl|]. now apply H1.
Qed.

Lemma keeps_update (a : nat) (h : heap) (o : object) : keeps a h (<[a := o]> h).
Proof.
  split; [now rewrite length_insert|]. intros l o' Hl Ho.
  now rewrite list_lookup_insert_ne.
Qed.

(** What is read without the object at [a] is not touched by its change. *)
Lemma reify_on_keeps (ok : nat -> bool) (n a : nat) (h h' : heap)
  (r : ref_value) (v : value) :
  keeps a h h' -> ok a = false ->
  reify_on ok n h r = Some v -> reify_on ok n h' r = Some v.
Proof.
  intros [_ Hk] Ha. apply reify_on_mono; [|lia]. intros l o Hok Hl.
  split; [exact Hok|]. apply Hk; [|exact Hl]. intros ->. congruence.
Qed.

(** Reading a list object and a dict object. *)
Lemma reify_on_list (ok : nat -> bool) (n : nat) (h : heap) (l : nat)
  (items : list ref_value) (vs : list value) :
  ok l = true -> h !! l = Some (OList items) ->
  Forall2 (fun r v => reify_on ok n h r = Some v) items vs ->
  reify_on ok (S n) h (RRef l) = Some (VList vs).
Proof.
  intros Hok Hl Hall. cbn [reify_on]. rewrite Hok, Hl.
  apply mapM_Some in Hall. now rewrite Hall.
Qed.

Lemma reify_on_dict (ok : nat -> bool) (n : nat) (h : heap) (l : nat)
  (entries : list (string * ref_value)) (kvs : list (string * value)) :
  ok l = true -> h !! l = Some (ODict entries) ->
  Forall2 (entry_on ok n h) entries kvs ->
  reify_on ok (S n) h (RRef l) = Some (VDict kvs).
Proof.
  intros Hok Hl Hall. cbn [reify_on]. rewrite Hok, Hl.
  assert (H : mapM (fun kr => pair (fst kr) <$> reify_on ok n h (snd kr)) entries
              = Some kvs).
  { apply mapM_Some. eapply Forall2_impl; [exact Hall|].
    intros [k r] [k' v] [Hk Hr]. cbn [fst snd] in *. subst k'. now rewrite Hr. }
  now rewrite H.
Qed.

(** *** Sorting references *)

Lemma insert_ref_keyed (R : ref_value -> value -> Prop)
  (x1 : value * ref_value) (x2 : value * value)
  (l1 : list (value * ref_value)) (l2 : list (value * value)) :
  same_key_on R x1 x2 ->
  Forall2 (same_key_on R) l1 l2 ->
  match insert_keyed x2 l2 with
  | Ok s2 => exists s1, insert_ref x1 l1 = Ok s1 /\ Forall2 (same_key_on R) s1 s2
  | Raise e => insert_ref x1 l1 = Raise e
  end.
Proof.
  intros Hx. induction 1 as [|y1 y2 l1 l2 Hy Hl IH]; cbn [insert_keyed insert_ref].
  - exists [x1]. split; [reflexivity|]. constructor; [exact Hx|constructor].
  - destruct Hx as [Hkx Hrx]. destruct Hy as [Hky Hry]. rewrite Hkx, Hky.
    destruct (py_lt (fst y2) (fst x2)) as [[|]|e]; cbn [bind]; [| |reflexivity].
    + destruct (insert_keyed x2 l2) as [s2|e]; cbn [bind].
      * destruct IH as (s1 & -> & Hs). cbn [bind]. exists (y1 :: s1).
        split; [reflexivity|]. constructor; [now split|exact Hs].
      * now rewrite IH.
    + exists (x1 :: y1 :: l1). split; [reflexivity|].
      constructor; [now split|]. constructor; [now split|exact Hl].
Qed.

Lemma sort_ref_keyed (R : ref_value -> value -> Prop)
  (l1 : list (value * ref_value)) (l2 : list (value * value)) :
  Forall2 (same_key_on R) l1 l2 ->
  match sort_keyed l2 with
  | Ok s2 => exists s1, sort_ref l1 = Ok s1 /\ Forall2 (same_key_on R) s1 s2
  | Raise e => sort_ref l1 = Raise e
  end.
Proof.
  induction 1 as [|x1 x2 l1 l2 Hx Hl IH]; cbn [sort_keyed sort_ref].
  - exists []. split; [reflexivity|constructor].
  - destruct (sort_keyed l2) as [s2|e]; cbn [bind].
    + destruct IH as (s1 & -> & Hs). cbn [bind].
      now apply insert_ref_keyed.
    + now rewrite IH.
Qed.

Lemma combine_keyed (R : ref_value -> value -> Prop)
  (items : list ref_value) (vs : list value) :
  Forall2 R items vs ->
  forall ks : list value,
    Forall2 (same_key_on R) (combine ks items) (combine ks vs).
Proof.
  induction 1 as [|r v items vs Hr _ IH]; intros [|k ks]; cbn [combine];
    try constructor; [now split|apply IH].
Qed.

Lemma keyed_items (R : ref_value -> value -> Prop)
  (l1 : list (value * ref_value)) (l2 : list (value * value)) :
  Forall2 (same_key_on R) l1 l2 -> Forall2 R (map snd l1) (map snd l2).
Proof.
  induction 1 as [|x1 x2 l1 l2 [_ Hx] _ IH]; cbn [map]; constructor; assumption.
Qed.

(** What was read in [h] is read in a store that keeps the objects of
    [h]. *)
Ltac carry Hf :=
  repeat match goal with
    | H : reify_on _ _ ?h _ = Some _ |- _ =>
        match type of Hf with frame ?h0 _ => constr_eq h h0 end;
        apply (reify_on_frame _ _ _ _ _ _ Hf) in H
    | H : fresh_ok ?ok ?h |- _ =>
        match type of Hf with frame ?h0 _ => constr_eq h h0 end;
        let H' := fresh in
        pose proof (fresh_ok_frame ok _ _ H Hf) as H'; clear H; rename H' into H
    end.

Section Simulation.

Variable ok : nat -> bool.
Variable n : nat.

Lemma reify_on_none (h : heap) : reify_on ok n h RNone = Some VNone.
Proof. destruct n; reflexivity. Qed.

Lemma reify_on_str (h : heap) (s : string) : reify_on ok n h (RStr s) = Some (VStr s).
Proof. destruct n; reflexivity. Qed.

Lemma reify_on_num (h : heap) (q : Q) : reify_on ok n h (RNum q) = Some (VNum q).
Proof. destruct n; reflexivity. Qed.

Lemma truthy_in_reads (h : heap) (r : ref_value) (v : value) :
  reify_on ok n h r = Some v -> truthy_in r h = Ok (truthy v, h).
Proof.
  intros H. apply reify_on_shape in H.
  destruct H as [ | | | |l items vs _ Hl Hi|l entries kvs _ Hl He];
    unfold truthy_in, bind_run, deref, ret; cbn [truthy]; try reflexivity.
  - rewrite Hl. now destruct Hi.
  - rewrite Hl. now destruct He.
Qed.

Lemma dict_entries_reads (h : heap) (d : ref_value) (dv : value) :
  reify_on ok n h d = Some dv ->
  match dv with
  | VDict kvs =>
      exists entries, dict_entries d h = Ok (entries, h)
                      /\ Forall2 (entry_on ok n h) entries kvs
  | _ => dict_entries d h = Raise AttributeError
  end.
Proof.
  intros H. apply reify_on_shape in H.
  destruct H as [ | | | |l items vs _ Hl Hi|l entries kvs _ Hl He];
    unfold dict_entries, bind_run, deref, ret, raise; try reflexivity.
  - now rewrite Hl.
  - rewrite Hl. now exists entries.
Qed.

Lemma assoc_ref_reads (h : heap) (k : string)
  (entries : list (string * ref_value)) (kvs : list (string * value)) :
  Forall2 (entry_on ok n h) entries kvs ->
  match assoc k kvs with
  | Some v => exists r, assoc_ref k entries = Some r /\ reify_on ok n h r = Some v
  | None => assoc_ref k entries = None
  end.
Proof.
  induction 1 as [|[k1 r1] [k2 v2] entries kvs [Hk Hr] _ IH]; [reflexivity|].
  cbn [fst snd] in Hk, Hr. subst k2. cbn [assoc assoc_ref].
  destruct (String.eqb k k1); [|exact IH]. now exists r1.
Qed.

(** [d.get(k, default)] *)
Lemma sim_get (h : heap) (d : ref_value) (dv : value) (k : string)
  (default : run ref_value) (dflt : value) :
  reify_on ok n h d = Some dv ->
  sim h default (Ok dflt) (read_on ok n) ->
  sim h (get_in d k default) (py_get_default dv k dflt) (read_on ok n).
Proof.
  intros Hd Hdef. pose proof (dict_entries_reads h d dv Hd) as He.
  unfold get_in.
  destruct dv as [ | | | | |kvs]; cbn [py_get_default sim];
    try (now apply bind_run_raise).
  destruct He as (entries & He & Hes).
  rewrite (bind_run_ok _ _ _ _ _ He).
  destruct Hdef as (a & h' & Hdef & Hf & Ha).
  rewrite (bind_run_ok _ _ _ _ _ Hdef).
  pose proof (assoc_ref_reads h k entries kvs Hes) as Hk.
  destruct (assoc k kvs) as [v|].
  - destruct Hk as (r & -> & Hr). exists r, h'. split; [reflexivity|].
    split; [exact Hf|]. now apply (reify_on_frame ok n h h').
  - rewrite Hk. exists a, h'. repeat split; assumption.
Qed.

Lemma sim_none (h : heap) : sim h (ret RNone) (Ok VNone) (read_on ok n).
Proof. apply sim_ret. apply reify_on_none. Qed.

(** [d.get(k)] *)
Lemma sim_get_none (h : heap) (d : ref_value) (dv : value) (k : string) :
  reify_on ok n h d = Some dv ->
  sim h (get_in d k (ret RNone)) (py_get dv k) (read_on ok n).
Proof. intros Hd. apply sim_get; [exact Hd|apply sim_none]. Qed.

(** [{}] *)
Lemma sim_empty_dict (h : heap) :
  (1 <= n)%nat ->
  fresh_ok ok h ->
  sim h (alloc (ODict [])) (Ok (VDict [])) (read_on ok n).
Proof.
  intros n_pos Hfresh. exists (RRef (length h)), (h ++ [ODict []]).
  split; [reflexivity|]. split; [apply frame_alloc|].
  unfold read_on. destruct n as [|m]; [lia|]. cbn [reify_on].
  rewrite (Hfresh (length h)) by lia.
  rewrite list_lookup_middle by reflexivity. reflexivity.
Qed.

(** [a or b] *)
Lemma sim_or (h : heap) (a : ref_value) (av : value)
  (b : run ref_value) (pb : result value) :
  reify_on ok n h a = Some av ->
  sim h b pb (read_on ok n) ->
  sim h (or_in a b) (py_or_else av pb) (read_on ok n).
Proof.
  intros Ha Hb. unfold or_in, py_or_else.
  assert (Ht := truthy_in_reads h a av Ha).
  destruct (truthy av).
  - exists a, h. rewrite (bind_run_ok _ _ _ _ _ Ht).
    split; [reflexivity|]. split; [apply frame_refl|exact Ha].
  - destruct pb as [bv|e]; cbn [sim] in *; rewrite (bind_run_ok _ _ _ _ _ Ht);
      exact Hb.
Qed.

Lemma py_or_else_Ok (a b : value) : py_or_else a (Ok b) = Ok (py_or a b).
Proof. unfold py_or_else, py_or. now destruct (truthy a). Qed.

(** [a or {}] *)
Lemma sim_or_empty (h : heap) (a : ref_value) (av : value) :
  (1 <= n)%nat ->
  reify_on ok n h a = Some av ->
  fresh_ok ok h ->
  sim h (or_in a (alloc (ODict []))) (Ok (py_or av (VDict []))) (read_on ok n).
Proof.
  intros n_pos Ha Hfresh. rewrite <- py_or_else_Ok.
  apply sim_or; [exact Ha|now apply sim_empty_dict].
Qed.

(** [a or "..."] *)
Lemma sim_or_str (h : heap) (a : ref_value) (av : value) (s : string) :
  reify_on ok n h a = Some av ->
  sim h (or_in a (ret (RStr s))) (Ok (py_or av (VStr s))) (read_on ok n).
Proof.
  intros Ha. rewrite <- py_or_else_Ok.
  apply sim_or; [exact Ha|]. apply sim_ret. apply reify_on_str.
Qed.

(** Line 187. *)
Lemma sim_sort_key (h : heap) (r : ref_value) (v : value) :
  (1 <= n)%nat ->
  reify_on ok n h r = Some v ->
  fresh_ok ok h ->
  sim h (sort_key_in r) (sort_key v) (read_on ok n).
Proof.
  intros n_pos Hr Hfresh. unfold sort_key_in, sort_key.
  eapply sim_bind.
  { apply sim_get; [exact Hr|now apply sim_empty_dict]. }
  intros m mr h1 Hf1 Hm. unfold read_on in Hm.
  eapply sim_bind.
  { apply sim_get_none. exact Hm. }
  intros t tr h2 Hf2 Ht. unfold read_on in Ht.
  rewrite <- py_or_else_Ok. apply sim_or; [exact Ht|].
  apply sim_ret. apply reify_on_num.
Qed.

(** [l.append(x)] on a list object. *)
Lemma append_in_list (h : heap) (l : nat) (items : list ref_value) (x : ref_value) :
  h !! l = Some (OList items) ->
  append_in (RRef l) x h = Ok (tt, <[l := OList (items ++ [x])]> h).
Proof.
  intros Hl. unfold append_in, list_items, bind_run, deref, ret, update.
  now rewrite Hl.
Qed.

Lemma list_items_list (h : heap) (l : nat) (items : list ref_value) :
  h !! l = Some (OList items) -> list_items (RRef l) h = Ok (items, h).
Proof. intros Hl. unfold list_items, bind_run, deref, ret. now rewrite Hl. Qed.

Lemma join_ref_reads (h : heap) (sep : string)
  (items : list ref_value) (vs : list value) :
  Forall2 (fun r v => reify_on ok n h r = Some v) items vs ->
  join_ref sep items = py_join sep vs.
Proof.
  induction 1 as [|r v items vs Hr Hrest IH]; [reflexivity|].
  apply reify_on_shape in Hr. cbn [join_ref py_join].
  destruct Hr; try reflexivity.
  rewrite IH. now destruct Hrest.
Qed.

(** Lines 197-202: the [for p in parts] loop fills the list object [chunk],
    which is newer than the store [he] the parts are read in. *)
Lemma chunk_loop (he : heap) (lc : nat) :
  (length he <= lc)%nat ->
  forall (items : list ref_value) (vs : list value),
    Forall2 (fun r v => reify_on ok n he r = Some v) items vs ->
    forall (h : heap) (cr : list ref_value) (cv : list value),
      frame he h ->
      h !! lc = Some (OList cr) ->
      Forall2 (fun r v => reify_on ok n he r = Some v) cr cv ->
      exists h' cr',
        for_run (add_part_in (RRef lc)) items h = Ok (tt, h')
        /\ frame he h'
        /\ h' !! lc = Some (OList cr')
        /\ Forall2 (fun r v => reify_on ok n he r = Some v) cr'
                   (fold_left add_part vs cv).
Proof.
  intros Hlc. induction 1 as [|p pv items vs Hp _ IH]; intros h cr cv Hf Hl Hc.
  - exists h, cr. repeat split; assumption.
  - cbn [for_run fold_left].
    assert (Happ : forall x xv,
               reify_on ok n he x = Some xv ->
               exists h' cr',
                 for_run (add_part_in (RRef lc)) items
                   (<[lc := OList (cr ++ [x])]> h) = Ok (tt, h')
                 /\ frame he h'
                 /\ h' !! lc = Some (OList cr')
                 /\ Forall2 (fun r v => reify_on ok n he r = Some v) cr'
                            (fold_left add_part vs (cv ++ [xv]))).
    { intros x xv Hx. apply (IH _ (cr ++ [x]) (cv ++ [xv])).
      - now apply frame_update.
      - apply list_lookup_insert_eq. now apply lookup_lt_Some in Hl.
      - apply Forall2_app; [exact Hc|]. now constructor. }
    pose proof (reify_on_shape _ _ _ _ _ Hp) as Hs.
    destruct Hs as [ | | |s|l ps pvs _ Hpl _|l entries kvs _ Hpl He];
      cbn [add_part_in add_part].
    1-3: rewrite (bind_run_ok _ _ h h tt eq_refl); now apply (IH h cr cv).
    + rewrite (bind_run_ok _ _ _ _ _ (append_in_list h lc cr (RStr s) Hl)).
      now apply Happ.
    + apply Hf in Hpl.
      assert (Hd : (do! o := deref (RRef l) in
                    match o with
                    | Some (ODict entries) =>
                        match assoc_ref "text" entries with
                        | Some t => append_in (RRef lc) t
                        | None => ret tt
                        end
                    | _ => ret tt
                    end) h = Ok (tt, h)).
      { unfold bind_run, deref. now rewrite Hpl. }
      rewrite (bind_run_ok _ _ _ _ _ Hd). now apply (IH h cr cv).
    + apply Hf in Hpl.
      pose proof (assoc_ref_reads he "text" entries kvs He) as Hk.
      destruct (assoc "text" kvs) as [tv|].
      * destruct Hk as (t & Hk & Ht).
        assert (Hd : (do! o := deref (RRef l) in
                      match o with
                      | Some (ODict entries) =>
                          match assoc_ref "text" entries with
                          | Some t => append_in (RRef lc) t
                          | None => ret tt
                          end
                      | _ => ret tt
                      end) h = Ok (tt, <[lc := OList (cr ++ [t])]> h)).
        { unfold bind_run at 1, deref. rewrite Hpl, Hk.
          now apply append_in_list. }
        rewrite (bind_run_ok _ _ _ _ _ Hd). now apply (Happ t tv).
      * assert (Hd : (do! o := deref (RRef l) in
                      match o with
                      | Some (ODict entries) =>
                          match assoc_ref "text" entries with
                          | Some t => append_in (RRef lc) t
                          | None => ret tt
                          end
                      | _ => ret tt
                      end) h = Ok (tt, h)).
        { unfold bind_run, deref. now rewrite Hpl, Hk. }
        rewrite (bind_run_ok _ _ _ _ _ Hd). now apply (IH h cr cv).
Qed.

(** Lines 203-207: no part list. *)
Lemma sim_text_without_parts (h : heap) (content : ref_value) (cv : value) :
  reify_on ok n h content = Some cv ->
  sim h (do! t := get_in content "text" (ret RNone) in
         match t with
         | RStr s => ret (strip s)
         | _ =>
             match content with
             | RStr s => ret (strip s)
             | _ => ret ""
             end
         end)
        (let! t := py_get cv "text" in
         match t with
         | VStr s => Ok (strip s)
         | _ =>
             match cv with
             | VStr s => Ok (strip s)
             | _ => Ok ""
             end
         end)
        (fun s s' _ => s' = s).
Proof.
  intros Hc. eapply sim_bind.
  { apply sim_get_none. exact Hc. }
  intros tv t h1 Hf Ht. unfold read_on in Ht.
  apply reify_on_shape in Ht. apply reify_on_shape in Hc.
  destruct Ht; try (now apply sim_ret); destruct Hc; now apply sim_ret.
Qed.

Lemma sim_deref {B Y : Type} (h : heap) (r : ref_value)
  (k : option object -> run B) (p : result Y) (Q : Y -> B -> heap -> Prop) :
  sim h (k (match r with RRef l => h !! l | _ => None end)) p Q ->
  sim h (bind_run (deref r) k) p Q.
Proof. intros H. exact H. Qed.

(** Lines 192-207. *)
Lemma sim_extract_text (h : heap) (content : ref_value) (cv : value) :
  reify_on ok n h content = Some cv ->
  sim h (extract_text_in content) (extract_text cv) (fun s s' _ => s' = s).
Proof.
  intros Hc. unfold extract_text_in, extract_text.
  eapply sim_bind.
  { apply sim_get_none. exact Hc. }
  intros pv parts h1 Hf1 Hp. unfold read_on in Hp.
  apply (reify_on_frame _ _ _ _ _ _ Hf1) in Hc.
  pose proof (reify_on_shape _ _ _ _ _ Hp) as Hs. apply sim_deref.
  destruct Hs as [ | | |s|l ps pvs _ Hpl Hps|l entries kvs _ Hpl He].
  1-4: now apply sim_text_without_parts.
  - rewrite Hpl. destruct Hps as [|p pv' ps pvs Hp1 Hps].
    { now apply sim_text_without_parts. }
    assert (Hall : Forall2 (fun r v => reify_on ok n h1 r = Some v)
                     (p :: ps) (pv' :: pvs)) by now constructor.
    destruct (chunk_loop h1 (length h1) (le_n _) (p :: ps) (pv' :: pvs) Hall
                (h1 ++ [OList []]) [] [] (frame_alloc _ _)
                (list_lookup_middle h1 [] (OList []) (length h1) eq_refl)
                (List.Forall2_nil _))
      as (h' & cr' & Hloop & Hf' & Hl' & Hcr').
    cbn zeta.
    assert (Hrun : forall k : string -> run string,
               (do! chunk := alloc (OList []) in
                do! _ := for_run (add_part_in chunk) (p :: ps) in
                do! items := list_items chunk in
                match join_ref newline items with
                | Ok joined => k joined
                | Raise e => raise e
                end) h1
               = match join_ref newline cr' with
                 | Ok joined => k joined h'
                 | Raise e => Raise e
                 end).
    { intros k. unfold bind_run at 1, alloc.
      rewrite (bind_run_ok _ _ _ _ _ Hloop).
      rewrite (bind_run_ok _ _ _ _ _ (list_items_list h' _ cr' Hl')).
      now destruct (join_ref newline cr'). }
    rewrite (join_ref_reads h1 newline cr' _ Hcr') in Hrun.
    destruct (py_join newline (fold_left add_part (pv' :: pvs) [])) as [j|e];
      cbn [bind sim].
    + exists (strip j), h'. split; [apply Hrun|]. split; [exact Hf'|reflexivity].
    + apply Hrun.
  - rewrite Hpl. now apply sim_text_without_parts.
Qed.

(** Lines 189-208, up to the [append]. *)
Lemma sim_node_message (h : heap) (r : ref_value) (v : value) :
  (1 <= n)%nat ->
  reify_on ok n h r = Some v ->
  fresh_ok ok h ->
  sim h (node_message_in r) (node_message v) (read_on ok (S n)).
Proof.
  intros n_pos Hr Hfresh. unfold node_message_in, node_message.
  eapply sim_bind.
  { apply sim_get_none. exact Hr. }
  intros m0v m0 h1 Hf1 Hm0. unfold read_on in Hm0. carry Hf1.
  eapply sim_bind_val.
  { apply sim_or_empty; [exact n_pos|exact Hm0|exact Hfresh]. }
  intros m h2 Hf2 Hm. unfold read_on in Hm. carry Hf2. cbn zeta.
  eapply sim_bind.
  { apply sim_get_none. exact Hm. }
  intros a0v a0 h3 Hf3 Ha0. unfold read_on in Ha0. carry Hf3.
  eapply sim_bind_val.
  { apply sim_or_empty; [exact n_pos|exact Ha0|exact Hfresh]. }
  intros a h4 Hf4 Ha. unfold read_on in Ha. carry Hf4.
  eapply sim_bind.
  { apply sim_get_none. exact Ha. }
  intros r0v r0 h5 Hf5 Hr0. unfold read_on in Hr0. carry Hf5.
  eapply sim_bind_val.
  { apply sim_or_str. exact Hr0. }
  intros author h6 Hf6 Hauthor. unfold read_on in Hauthor. carry Hf6. cbn zeta.
  eapply sim_bind.
  { apply sim_get_none. exact Hm. }
  intros c0v c0 h7 Hf7 Hc0. unfold read_on in Hc0. carry Hf7.
  eapply sim_bind_val.
  { apply sim_or_empty; [exact n_pos|exact Hc0|exact Hfresh]. }
  intros content h8 Hf8 Hcontent. unfold read_on in Hcontent. carry Hf8. cbn zeta.
  eapply sim_bind.
  { apply sim_extract_text. exact Hcontent. }
  intros text text' h9 Hf9 ->. carry Hf9.
  exists (RRef (length h9)),
    (h9 ++ [ODict [("role", author); ("text", RStr text); ("html", RNone)]]).
  split; [reflexivity|]. split; [apply frame_alloc|].
  unfold read_on. cbn [reify_on]. rewrite (Hfresh (length h9)) by lia.
  rewrite list_lookup_middle by reflexivity.
  carry (frame_alloc h9 (ODict [("role", author); ("text", RStr text);
                                ("html", RNone)])).
  cbn [mapM fst snd]. rewrite Hauthor, reify_on_str, reify_on_none. reflexivity.
Qed.

(** The keys of the sort, one per node. *)
Lemma sim_sort_keys (items : list ref_value) (vs : list value) :
  (1 <= n)%nat ->
  forall h : heap,
    Forall2 (fun r v => reify_on ok n h r = Some v) items vs ->
    fresh_ok ok h ->
    sim h (map_run sort_key_in items) (map_each sort_key vs)
        (fun kvs krs h' => Forall2 (fun r v => reify_on ok n h' r = Some v) krs kvs).
Proof.
  intros n_pos. revert vs.
  induction items as [|r items IH]; intros vs h Hall Hfresh;
    inversion Hall as [|? v ? vs' Hr Hrest]; subst; cbn [map_run map_each].
  - apply sim_ret. constructor.
  - eapply sim_bind.
    { now apply sim_sort_key. }
    intros kv k h1 Hf1 Hk. unfold read_on in Hk.
    assert (Hrest1 : Forall2 (fun r v => reify_on ok n h1 r = Some v) items vs').
    { eapply Forall2_impl; [exact Hrest|]. intros x y. now apply reify_on_frame. }
    carry Hf1.
    eapply sim_bind.
    { now apply IH. }
    intros kvs ks h2 Hf2 Hks. cbn beta in Hks. carry Hf2.
    apply sim_ret. now constructor.
Qed.

(** The keys are read back for the comparisons. *)
Lemma read_back_keys (h : heap) (ks : list ref_value) (kvs : list value) :
  (n <= length h)%nat ->
  Forall2 (fun r v => reify_on ok n h r = Some v) ks kvs ->
  map_run read_back ks h = Ok (kvs, h).
Proof.
  intros Hn. induction 1 as [|k kv ks kvs Hk _ IH]; [reflexivity|].
  cbn [map_run].
  assert (Hr : read_back k h = Ok (kv, h)).
  { unfold read_back, reify.
    rewrite (reify_on_mono ok (fun _ => true) h h n (fun l o _ Hl => conj eq_refl Hl)
               (length h) k kv Hn Hk).
    reflexivity. }
  rewrite (bind_run_ok _ _ _ _ _ Hr), (bind_run_ok _ _ _ _ _ IH). reflexivity.
Qed.

(** Line 187: [nodes.sort(key=...)] changes the list object [nodes], which
    is newer than the store [ha] its items are read in, and nothing else. *)
Lemma sort_in_nodes (ha h : heap) (ln : nat)
  (items : list ref_value) (vs : list value) :
  (1 <= n)%nat ->
  frame ha h -> (length ha <= ln)%nat -> (n <= length ha)%nat ->
  fresh_ok ok h ->
  h !! ln = Some (OList items) ->
  Forall2 (fun r v => reify_on ok n ha r = Some v) items vs ->
  match py_sort sort_key vs with
  | Ok sorted =>
      exists h' rs,
        sort_in (RRef ln) sort_key_in h = Ok (tt, h')
        /\ frame ha h' /\ keeps ln h h'
        /\ h' !! ln = Some (OList rs)
        /\ Forall2 (fun r v => reify_on ok n ha r = Some v) rs sorted
  | Raise e => sort_in (RRef ln) sort_key_in h = Raise e
  end.
Proof.
  intros n_pos Hf Hln Hn Hfresh Hl Hall. unfold sort_in, py_sort.
  rewrite (bind_run_ok _ _ _ _ _ (list_items_list h ln items Hl)).
  assert (Hall' : Forall2 (fun r v => reify_on ok n h r = Some v) items vs).
  { eapply Forall2_impl; [exact Hall|]. intros x y. now apply reify_on_frame. }
  pose proof (sim_sort_keys items vs n_pos h Hall' Hfresh) as Hkeys.
  destruct (map_each sort_key vs) as [kvs|e]; cbn [sim bind] in *.
  2: now apply bind_run_raise.
  destruct Hkeys as (ks & hk & Hrun & Hfk & Hks).
  rewrite (bind_run_ok _ _ _ _ _ Hrun).
  assert (Hnk : (n <= length hk)%nat).
  { apply frame_length in Hf, Hfk. lia. }
  rewrite (bind_run_ok _ _ _ _ _ (read_back_keys hk ks kvs Hnk Hks)).
  pose proof (sort_ref_keyed _ _ _ (combine_keyed _ items vs Hall kvs)) as Hsort.
  destruct (sort_keyed (combine kvs vs)) as [s2|e]; cbn [bind].
  - destruct Hsort as (s1 & -> & Hs).
    exists (<[ln := OList (map snd s1)]> hk), (map snd s1).
    split; [reflexivity|]. split; [|split; [|split]].
    + apply frame_update; [|exact Hln]. now apply (frame_trans ha h hk).
    + apply (keeps_trans ln h hk); [now apply keeps_frame|apply keeps_update].
    + apply list_lookup_insert_eq. apply Hfk in Hl. now apply lookup_lt_Some in Hl.
    + now apply keyed_items in Hs.
  - now rewrite Hsort.
Qed.

(** Lines 188-208: the [for n in nodes] loop fills the list object [msgs];
    what is read does not go through that object. *)
Lemma node_loop (lm : nat) :
  (1 <= n)%nat ->
  ok lm = false ->
  forall (items : list ref_value) (vs : list value)
         (h : heap) (ds : list ref_value) (msgs : list value),
    Forall2 (fun r v => reify_on ok n h r = Some v) items vs ->
    fresh_ok ok h ->
    h !! lm = Some (OList ds) ->
    Forall2 (fun d m => reify_on ok (S n) h d = Some m) ds msgs ->
    match for_each (fun msgs n => let! msg := node_message n in Ok (msgs ++ [msg]))
                   vs msgs with
    | Ok msgs' =>
        exists h' ds',
          for_run (fun r => do! msg := node_message_in r in
                            append_in (RRef lm) msg) items h = Ok (tt, h')
          /\ keeps lm h h'
          /\ h' !! lm = Some (OList ds')
          /\ Forall2 (fun d m => reify_on ok (S n) h' d = Some m) ds' msgs'
    | Raise e =>
        for_run (fun r => do! msg := node_message_in r in
                          append_in (RRef lm) msg) items h = Raise e
    end.
Proof.
  intros n_pos Hlm.
  induction items as [|r items IH]; intros vs h ds msgs Hall Hfresh Hl Hds;
    inversion Hall as [|? v ? vs' Hr Hrest]; subst; cbn [for_run for_each].
  - exists h, ds. split; [reflexivity|]. split; [|split; assumption].
    apply keeps_frame, frame_refl.
  - pose proof (sim_node_message h r v n_pos Hr Hfresh) as Hmsg.
    destruct (node_message v) as [mv|e]; cbn [sim bind] in *.
    2: { apply bind_run_raise. now apply bind_run_raise. }
    destruct Hmsg as (mr & h1 & Hrun & Hf1 & Hmr). unfold read_on in Hmr.
    assert (Hl1 := Hf1 _ _ Hl).
    assert (Hstep : (do! msg := node_message_in r in append_in (RRef lm) msg) h
                    = Ok (tt, <[lm := OList (ds ++ [mr])]> h1)).
    { rewrite (bind_run_ok _ _ _ _ _ Hrun). now apply append_in_list. }
    rewrite (bind_run_ok _ _ _ _ _ Hstep).
    assert (Hk : keeps lm h (<[lm := OList (ds ++ [mr])]> h1)).
    { apply (keeps_trans lm h h1); [now apply keeps_frame|apply keeps_update]. }
    assert (H1 : Forall2 (fun r v => reify_on ok n (<[lm := OList (ds ++ [mr])]> h1) r
                                     = Some v) items vs').
    { eapply Forall2_impl; [exact Hrest|]. intros x y.
      now apply (reify_on_keeps ok n lm h). }
    assert (H2 : fresh_ok ok (<[lm := OList (ds ++ [mr])]> h1)).
    { intros l Hlen. apply Hfresh. destruct Hk as [Hk _]. lia. }
    assert (H3 : <[lm := OList (ds ++ [mr])]> h1 !! lm = Some (OList (ds ++ [mr]))).
    { apply list_lookup_insert_eq. now apply lookup_lt_Some in Hl1. }
    assert (H4 : Forall2 (fun d m => reify_on ok (S n) (<[lm := OList (ds ++ [mr])]> h1) d
                                     = Some m) (ds ++ [mr]) (msgs ++ [mv])).
    { apply Forall2_app.
      - eapply Forall2_impl; [exact Hds|]. intros x y.
        now apply (reify_on_keeps ok (S n) lm h).
      - constructor; [|constructor].
        now apply (reify_on_keeps ok (S n) lm h1 _ _ _ (keeps_update _ _ _)). }
    specialize (IH vs' (<[lm := OList (ds ++ [mr])]> h1) (ds ++ [mr]) (msgs ++ [mv])
                  H1 H2 H3 H4).
    destruct (for_each (fun msgs n => let! msg := node_message n in Ok (msgs ++ [msg]))
                vs' (msgs ++ [mv])) as [msgs'|e]; [|exact IH].
    destruct IH as (h' & ds' & Hloop & Hk' & Hl' & Hds').
    exists h', ds'. split; [exact Hloop|]. split; [|split; assumption].
    apply (keeps_trans lm h (<[lm := OList (ds ++ [mr])]> h1) h'); assumption.
Qed.

End Simulation.

(** *** The whole normaliser *)

Lemma sim_keeps_bind {A B X Y : Type} (a : nat) (h : heap) (c : run A)
  (k : A -> run B) (p : result X) (kp : X -> result Y)
  (Q : X -> A -> heap -> Prop) (Q' : Y -> B -> heap -> Prop) :
  sim h c p Q ->
  (forall x r h', frame h h' -> Q x r h' -> sim_keeps a h' (k r) (kp x) Q') ->
  sim_keeps a h (bind_run c k) (bind p kp) Q'.
Proof.
  intros Hc Hk. destruct p as [x|e]; cbn [sim bind] in *.
  - destruct Hc as (r & h' & Hc & Hf & HQ).
    specialize (Hk x r h' Hf HQ).
    destruct (kp x) as [y|e]; cbn [sim_keeps] in *; rewrite (bind_run_ok _ _ _ _ _ Hc).
    + destruct Hk as (b & h'' & Hk & Hf' & HQ'). exists b, h''.
      split; [exact Hk|]. split; [|exact HQ'].
      apply (keeps_trans a h h' h''); [now apply keeps_frame|exact Hf'].
    + exact Hk.
  - now apply bind_run_raise.
Qed.

Lemma sim_keeps_bind_val {A B X Y : Type} (a : nat) (h : heap) (c : run A)
  (k : A -> run B) (x : X) (p : result Y)
  (Q : X -> A -> heap -> Prop) (Q' : Y -> B -> heap -> Prop) :
  sim h c (Ok x) Q ->
  (forall r h', frame h h' -> Q x r h' -> sim_keeps a h' (k r) p Q') ->
  sim_keeps a h (bind_run c k) p Q'.
Proof.
  intros Hc Hk. cbn [sim] in Hc. destruct Hc as (r & h' & Hc & Hf & HQ).
  specialize (Hk r h' Hf HQ). destruct p as [y|e]; cbn [sim_keeps] in *;
    rewrite (bind_run_ok _ _ _ _ _ Hc); [|exact Hk].
  destruct Hk as (b & h'' & Hk & Hf' & HQ'). exists b, h''.
  split; [exact Hk|]. split; [|exact HQ'].
  apply (keeps_trans a h h' h''); [now apply keeps_frame|exact Hf'].
Qed.

(** Line 181: [msgs = []] makes the one object that the rest changes. *)
Lemma sim_alloc_list {B Y : Type} (h : heap) (k : ref_value -> run B)
  (p : result Y) (Q : Y -> B -> heap -> Prop) :
  sim_keeps (length h) (h ++ [OList []]) (k (RRef (length h))) p Q ->
  sim h (do! l := alloc (OList []) in k l) p Q.
Proof.
  intros H. destruct p as [y|e]; cbn [sim sim_keeps] in *; [|exact H].
  destruct H as (r & h' & Hc & Hk & HQ). exists r, h'.
  split; [exact Hc|]. split; [|exact HQ].
  intros l o Ho. destruct Hk as [_ Hk]. apply Hk.
  - apply lookup_lt_Some in Ho. lia.
  - now apply lookup_app_l_Some.
Qed.

(** What was read before an object is made does not go through it. *)
Lemma reify_on_before (ok : nat -> bool) (n : nat) (h : heap) (o : object)
  (r : ref_value) (v : value) :
  reify_on ok n h r = Some v ->
  reify_on (fun l => negb (l =? length h)%nat) n (h ++ [o]) r = Some v.
Proof.
  apply reify_on_mono; [|lia]. intros l o' _ Hl. split.
  - apply lookup_lt_Some in Hl. apply negb_true_iff. apply Nat.eqb_neq. lia.
  - now apply lookup_app_l_Some.
Qed.

Lemma reify_on_all (ok : nat -> bool) (n m : nat) (h h' : heap)
  (r : ref_value) (v : value) :
  frame h h' -> (n <= m)%nat ->
  reify_on ok n h r = Some v -> reify_on (fun _ => true) m h' r = Some v.
Proof.
  intros Hf Hm. apply reify_on_mono; [|exact Hm]. intros l o _ Hl.
  split; [reflexivity|]. now apply Hf.
Qed.

Lemma entries_values (ok : nat -> bool) (n : nat) (h : heap)
  (entries : list (string * ref_value)) (kvs : list (string * value)) :
  Forall2 (entry_on ok n h) entries kvs ->
  Forall2 (fun r v => reify_on ok n h r = Some v) (map snd entries) (map snd kvs).
Proof.
  induction 1 as [|kr kv entries kvs [_ H] _ IH]; cbn [map]; constructor; assumption.
Qed.

(** A payload that is not a dict: line 176 raises. *)
Lemma convert_in_no_dict (h : heap) (p : ref_value) (v : value) :
  stored h p v -> is_dict v = false ->
  convert_api_conversation v = Raise AttributeError
  /\ convert_in p h = Raise AttributeError.
Proof.
  intros Hp Hv. unfold stored, reify in Hp.
  pose proof (dict_entries_reads _ _ h p v Hp) as He.
  split.
  - destruct v; try reflexivity. discriminate Hv.
  - unfold convert_in, get_in. apply bind_run_raise. apply bind_run_raise.
    destruct v; try exact He. discriminate Hv.
Qed.

(** Lines 182-213, after [msgs = []] has made the object at [lm]. *)
Lemma convert_in_rest (n lm : nat) (h : heap) (api_obj cid title : ref_value)
  (pv cidv titlev : value) :
  let ok := fun l => negb (l =? lm)%nat in
  (1 <= n)%nat -> (n < length h)%nat -> (lm < length h)%nat ->
  fresh_ok ok h ->
  h !! lm = Some (OList []) ->
  reify_on ok n h api_obj = Some pv ->
  reify_on ok n h cid = Some cidv ->
  reify_on ok n h title = Some titlev ->
  sim_keeps lm h
    (do! mp := get_in api_obj "mapping" (ret RNone) in
     do! mapping := or_in mp (alloc (ODict [])) in
     do! some := truthy_in mapping in
     do! msgs' :=
       (if some then
          do! nodes := values_in mapping in
          do! _ := sort_in nodes sort_key_in in
          do! items := list_items nodes in
          do! _ := for_run (fun n => do! msg := node_message_in n in
                                     append_in (RRef lm) msg) items in
          ret (RRef lm)
        else alloc (OList [])) in
     alloc (ODict [("id", cid); ("title", title); ("messages", msgs')]))
    (let! mp := py_get pv "mapping" in
     let mapping := py_or mp (VDict []) in
     let! msgs :=
       (if truthy mapping then
          let! nodes0 := py_values mapping in
          let! nodes := py_sort sort_key nodes0 in
          for_each (fun msgs n => let! msg := node_message n in Ok (msgs ++ [msg]))
                   nodes []
        else Ok []) in
     Ok (VDict [("id", cidv); ("title", titlev); ("messages", VList msgs)]))
    (fun conv r h' => stored h' r conv).
Proof.
  intros ok Hn Hnh Hlm Hfresh Hl Hp Hcid Htitle.
  assert (Hok : ok lm = false).
  { unfold ok. now rewrite Nat.eqb_refl. }
  eapply sim_keeps_bind.
  { apply (sim_get_none ok n). exact Hp. }
  intros mpv mp h1 Hf1 Hmp. unfold read_on in Hmp. carry Hf1.
  apply Hf1 in Hl. apply frame_length in Hf1.
  eapply sim_keeps_bind_val.
  { apply (sim_or_empty ok n); [exact Hn|exact Hmp|exact Hfresh]. }
  intros mapping h2 Hf2 Hmapping. unfold read_on in Hmapping. carry Hf2.
  apply Hf2 in Hl. apply frame_length in Hf2. cbn zeta.
  eapply (sim_keeps_bind_val lm h2 (truthy_in mapping) _ (truthy (py_or mpv (VDict [])))
            _ (fun x t h' => t = x /\ h' = h2)).
  { exists (truthy (py_or mpv (VDict []))), h2.
    split; [now apply (truthy_in_reads ok n)|]. split; [apply frame_refl|now split]. }
  cbn beta. intros some h3 _ [-> ->].
  destruct (truthy (py_or mpv (VDict []))) eqn:Htruthy.
  - (* lines 186-208 *)
    pose proof (dict_entries_reads ok n h2 mapping _ Hmapping) as He.
    destruct (py_or mpv (VDict [])) as [ | | | | |mkvs] eqn:Hmv;
      cbn [py_values bind sim_keeps];
      try (apply bind_run_raise; apply bind_run_raise; now apply bind_run_raise).
    destruct He as (entries & He & Hes).
    apply entries_values in Hes.
    assert (Hvals : values_in mapping h2
                    = Ok (RRef (length h2), h2 ++ [OList (map snd entries)])).
    { unfold values_in. now rewrite (bind_run_ok _ _ _ _ _ He). }
    assert (Hfresh' : fresh_ok ok (h2 ++ [OList (map snd entries)])).
    { now apply (fresh_ok_frame ok h2), frame_alloc. }
    pose proof (sort_in_nodes ok n h2 (h2 ++ [OList (map snd entries)]) (length h2)
                  (map snd entries) (map snd mkvs) Hn (frame_alloc _ _) (le_n _)
                  ltac:(lia) Hfresh'
                  (list_lookup_middle h2 [] _ (length h2) eq_refl) Hes) as Hsort.
    destruct (py_sort sort_key (map snd mkvs)) as [sorted|e]; cbn [bind].
    2: { cbn [sim_keeps]. apply bind_run_raise.
         rewrite (bind_run_ok _ _ _ _ _ Hvals). now apply bind_run_raise. }
    destruct Hsort as (h3 & rs & Hsort & Hf3 & Hk3 & Hl3 & Hrs).
    assert (Hrs3 : Forall2 (fun r v => reify_on ok n h3 r = Some v) rs sorted).
    { eapply Forall2_impl; [exact Hrs|]. intros x y. now apply reify_on_frame. }
    carry Hf3. apply Hf3 in Hl.
    pose proof (node_loop ok n lm Hn Hok rs sorted h3 [] [] Hrs3 Hfresh Hl
                  (List.Forall2_nil _)) as Hloop.
    destruct (for_each (fun msgs n => let! msg := node_message n in Ok (msgs ++ [msg]))
                sorted []) as [msgs|e]; cbn [bind sim_keeps].
    2: { apply bind_run_raise. rewrite (bind_run_ok _ _ _ _ _ Hvals).
         rewrite (bind_run_ok _ _ _ _ _ Hsort).
         rewrite (bind_run_ok _ _ _ _ _ (list_items_list h3 _ rs Hl3)).
         now apply bind_run_raise. }
    destruct Hloop as (h4 & ds & Hloop & Hk4 & Hl4 & Hds).
    exists (RRef (length h4)),
      (h4 ++ [ODict [("id", cid); ("title", title); ("messages", RRef lm)]]).
    split; [|split].
    + assert (Hin : (do! nodes := values_in mapping in
                     do! _ := sort_in nodes sort_key_in in
                     do! items := list_items nodes in
                     do! _ := for_run (fun n => do! msg := node_message_in n in
                                                append_in (RRef lm) msg) items in
                     ret (RRef lm)) h2 = Ok (RRef lm, h4)).
      { rewrite (bind_run_ok _ _ _ _ _ Hvals).
        rewrite (bind_run_ok _ _ _ _ _ Hsort).
        rewrite (bind_run_ok _ _ _ _ _ (list_items_list h3 _ rs Hl3)).
        now rewrite (bind_run_ok _ _ _ _ _ Hloop). }
      now rewrite (bind_run_ok _ _ _ _ _ Hin).
    + apply (keeps_trans lm h2 h3); [now apply keeps_frame|].
      apply (keeps_trans lm h3 h4); [exact Hk4|]. apply keeps_frame, frame_alloc.
    + set (hf := h4 ++ [ODict [("id", cid); ("title", title); ("messages", RRef lm)]]).
      assert (Hf4 : frame h4 hf) by apply frame_alloc.
      assert (Hlen : (S (S (S n)) <= length hf)%nat).
      { unfold hf. rewrite length_app. cbn [length].
        destruct Hk3 as [Hk3 _]. rewrite length_app in Hk3. cbn [length] in Hk3.
        destruct Hk4 as [Hk4 _]. lia. }
      unfold stored, reify.
      apply (reify_on_mono (fun _ => true) (fun _ => true) hf hf (S (S (S n)))
               (fun l o _ Hlo => conj eq_refl Hlo) (length hf) _ _ Hlen).
      assert (Hrec : hf !! length h4
                     = Some (ODict [("id", cid); ("title", title);
                                    ("messages", RRef lm)])).
      { unfold hf. now apply list_lookup_middle. }
      apply (reify_on_dict _ _ _ _ _ _ eq_refl Hrec).
      constructor; [|constructor; [|constructor; [|constructor]]];
        (split; [reflexivity|]); cbn [snd].
      * exact (reify_on_all ok n (S (S n)) h4 hf cid cidv Hf4 ltac:(lia)
                 (reify_on_keeps ok n lm h3 h4 _ _ Hk4 Hok Hcid)).
      * exact (reify_on_all ok n (S (S n)) h4 hf title titlev Hf4 ltac:(lia)
                 (reify_on_keeps ok n lm h3 h4 _ _ Hk4 Hok Htitle)).
      * apply (reify_on_list _ _ _ _ _ _ eq_refl (Hf4 _ _ Hl4)).
        eapply Forall2_impl; [exact Hds|]. intros x y.
        now apply (reify_on_all ok (S n) (S n) h4 hf).
  - (* line 211 *)
    cbn [bind sim_keeps].
    exists (RRef (S (length h2))),
      ((h2 ++ [OList []])
         ++ [ODict [("id", cid); ("title", title); ("messages", RRef (length h2))]]).
    split; [|split].
    + unfold bind_run, alloc. now rewrite length_app, Nat.add_1_r.
    + apply keeps_frame. apply (frame_trans h2 (h2 ++ [OList []])); apply frame_alloc.
    + set (h3 := h2 ++ [OList []]).
      set (hf := h3 ++ [ODict [("id", cid); ("title", title);
                               ("messages", RRef (length h2))]]).
      assert (Hf3 : frame h2 hf).
      { apply (frame_trans h2 h3); apply frame_alloc. }
      assert (Hlen : (S n <= length hf)%nat).
      { unfold hf, h3. rewrite !length_app. cbn [length]. lia. }
      unfold stored, reify.
      apply (reify_on_mono (fun _ => true) (fun _ => true) hf hf (S n)
               (fun l o _ Hlo => conj eq_refl Hlo) (length hf) _ _ Hlen).
      assert (Hrec : hf !! S (length h2)
                     = Some (ODict [("id", cid); ("title", title);
                                    ("messages", RRef (length h2))])).
      { unfold hf. apply list_lookup_middle. unfold h3.
        now rewrite length_app, Nat.add_1_r. }
      assert (Hnew : hf !! length h2 = Some (OList [])).
      { unfold hf. apply lookup_app_l_Some. unfold h3.
        now apply list_lookup_middle. }
      apply (reify_on_dict _ _ _ _ _ _ eq_refl Hrec).
      constructor; [|constructor; [|constructor; [|constructor]]];
        (split; [reflexivity|]); cbn [snd].
      * exact (reify_on_all ok n n h2 hf cid cidv Hf3 (le_n _) Hcid).
      * exact (reify_on_all ok n n h2 hf title titlev Hf3 (le_n _) Htitle).
      * destruct n as [|m]; [lia|].
        apply (reify_on_list _ _ _ _ _ _ eq_refl Hnew). constructor.
Qed.

(** The normaliser on the store does what the normaliser on values says:
    it raises the same exception, or it returns a reference to the record
    and leaves every object it found as it was. *)
Lemma convert_in_refines (h : heap) (p : ref_value) (v : value) :
  stored h p v ->
  sim h (convert_in p) (convert_api_conversation v)
      (fun conv r h' => stored h' r conv).
Proof.
  intros Hp. destruct (is_dict v) eqn:Hd.
  2: { destruct (convert_in_no_dict h p v Hp Hd) as [-> H]. exact H. }
  destruct v as [ | | | | |kvs]; try discriminate Hd. clear Hd.
  unfold stored, reify in Hp.
  assert (Hn : (1 <= length h)%nat).
  { apply reify_on_shape in Hp. inversion Hp as [ | | | | |l entries ? _ Hl _]; subst.
    apply lookup_lt_Some in Hl. lia. }
  set (n := length h) in *.
  unfold convert_in, convert_api_conversation.
  eapply sim_bind.
  { apply (sim_get_none (fun _ => true) n). exact Hp. }
  intros i1v i1 h1 Hf1 Hi1. unfold read_on in Hi1. carry Hf1.
  apply frame_length in Hf1.
  eapply sim_bind.
  { apply (sim_or (fun _ => true) n); [exact Hi1|]. apply (sim_get_none (fun _ => true) n). exact Hp. }
  intros cidv cid h2 Hf2 Hcid. unfold read_on in Hcid. carry Hf2.
  apply frame_length in Hf2.
  eapply sim_bind.
  { apply (sim_get_none (fun _ => true) n). exact Hp. }
  intros t1v t1 h3 Hf3 Ht1. unfold read_on in Ht1. carry Hf3.
  apply frame_length in Hf3.
  eapply sim_bind.
  { apply (sim_or (fun _ => true) n); [exact Ht1|]. apply (sim_get_none (fun _ => true) n). exact Hp. }
  intros t2v t2 h4 Hf4 Ht2. unfold read_on in Ht2. carry Hf4.
  apply frame_length in Hf4.
  eapply sim_bind_val.
  { apply (sim_or_str (fun _ => true) n). exact Ht2. }
  intros title h5 Hf5 Htitle. unfold read_on in Htitle. carry Hf5.
  apply frame_length in Hf5. cbn zeta.
  apply sim_alloc_list.
  apply (convert_in_rest n (length h5) (h5 ++ [OList []]) p cid title
           (VDict kvs) cidv (py_or t2v (VStr "Untitled"))).
  - exact Hn.
  - rewrite length_app. cbn [length]. lia.
  - rewrite length_app. cbn [length]. lia.
  - intros l Hl. rewrite length_app in Hl. cbn [length] in Hl.
    apply negb_true_iff. apply Nat.eqb_neq. lia.
  - now apply list_lookup_middle.
  - apply (reify_on_before (fun _ => true)). exact Hp.
  - apply (reify_on_before (fun _ => true)). exact Hcid.
  - apply (reify_on_before (fun _ => true)). exact Htitle.
Qed.

Lemma stored_frame (h h' : heap) (r : ref_value) (v : value) :
  frame h h' -> stored h r v -> stored h' r v.
Proof.
  intros Hf. unfold stored, reify. apply reify_on_all; [exact Hf|].
  now apply frame_length.
Qed.

(** C7: the normaliser run on a store of objects, where [nodes.sort],
    [chunk.append] and [msgs.append] change list objects in place, returns
    the record that the normaliser on values computes from the JSON value
    of the payload, and nothing else decides it. When a run on a payload
    returns, every object of the store is left as it was, so the payload
    still stands for the same value; the record is the one of
    [convert_api_conversation]; and every run on a payload that stands for
    this value, a second run on the same object in the store the first run
    left or a run on a copy in any other store, returns too, with a record
    that stands for the same value. *)
Theorem convert_twice_same_record (h : heap) (p : ref_value) (v : value)
  (r1 : ref_value) (h1 : heap) :
  stored h p v ->
  convert_in p h = Ok (r1, h1) ->
  frame h h1
  /\ stored h1 p v
  /\ exists conv,
       convert_api_conversation v = Ok conv
       /\ stored h1 r1 conv
       /\ (exists r2 h2,
             convert_in p h1 = Ok (r2, h2)
             /\ frame h1 h2 /\ stored h2 r2 conv /\ stored h2 r1 conv)
       /\ (forall (h' : heap) (p' : ref_value),
             stored h' p' v ->
             exists r2 h2,
               convert_in p' h' = Ok (r2, h2)
               /\ frame h' h2 /\ stored h2 r2 conv).
Proof.
  intros Hp Hrun. pose proof (convert_in_refines h p v Hp) as H.
  destruct (convert_api_conversation v) as [conv|e] eqn:Hconv; cbn [sim] in H.
  2: { rewrite H in Hrun. discriminate Hrun. }
  destruct H as (r & h' & Hrun' & Hf & Hr). rewrite Hrun' in Hrun.
  inversion Hrun; subst r h'. clear Hrun.
  assert (Hp1 : stored h1 p v) by now apply (stored_frame h h1).
  assert (Hany : forall (h' : heap) (p' : ref_value),
             stored h' p' v ->
             exists r2 h2,
               convert_in p' h' = Ok (r2, h2)
               /\ frame h' h2 /\ stored h2 r2 conv).
  { intros h' p' Hp'. pose proof (convert_in_refines h' p' v Hp') as H.
    rewrite Hconv in H. exact H. }
  split; [exact Hf|]. split; [exact Hp1|]. exists conv.
  split; [reflexivity|]. split; [exact Hr|]. split; [|exact Hany].
  destruct (Hany h1 p Hp1) as (r2 & h2 & Hrun2 & Hf2 & Hr2).
  exists r2, h2. split; [exact Hrun2|]. split; [exact Hf2|]. split; [exact Hr2|].
  now apply (stored_frame h1 h2).
Qed.

(** The store of the example after a run: the payload objects are as they
    were, the list of line 181 holds the two message dicts in the order of
    the timestamps, and a second run returns a new record with the same
    value. *)
Lemma convert_twice_same_record_witness :
  exists r1 h1,
    convert_in (RRef 0) payload_store = Ok (r1, h1)
    /\ (frame payload_store h1
        /\ stored h1 (RRef 0) payload_value
        /\ exists conv,
             convert_api_conversation payload_value = Ok conv
             /\ stored h1 r1 conv
             /\ (exists r2 h2,
                   convert_in (RRef 0) h1 = Ok (r2, h2)
                   /\ frame h1 h2 /\ stored h2 r2 conv /\ stored h2 r1 conv)
             /\ (forall (h' : heap) (p' : ref_value),
                   stored h' p' payload_value ->
                   exists r2 h2,
                     convert_in p' h' = Ok (r2, h2)
                     /\ frame h' h2 /\ stored h2 r2 conv)).
Proof.
  eexists _, _. split; [vm_compute; reflexivity|].
  apply (convert_twice_same_record payload_store (RRef 0) payload_value);
    vm_compute; reflexivity.
Defined.

(** The run of the example, object by object. The eleven objects of the
    payload are untouched; the list of line 181 holds the two new message
    dicts, in the order of the timestamps; the list that line 187 sorted is
    the new one of line 186; the two dicts after it are the defaults of the
    two calls of the sort key, the list after them is the [chunk] of the
    node with parts; the record comes last. A second run makes a second
    record of the same value. *)
Example convert_in_end_to_end :
  exists h1 r2 h2,
    convert_in (RRef 0) payload_store = Ok (RRef 18, h1)
    /\ firstn 11 h1 = payload_store
    /\ skipn 11 h1
       = [OList [RRef 16; RRef 17];
          OList [RRef 6; RRef 2];
          ODict []; ODict [];
          OList [RStr "Hi"];
          ODict [("role", RStr "user"); ("text", RStr "Hi"); ("html", RNone)];
          ODict [("role", RStr "assistant"); ("text", RStr "Hello!");
                 ("html", RNone)];
          ODict [("id", RStr "c1"); ("title", RStr "Hello"); ("messages", RRef 11)]]
    /\ reify h1 (RRef 18)
       = Some (record (VStr "c1") (VStr "Hello")
                 [VDict [("role", VStr "user"); ("text", VStr "Hi"); ("html", VNone)];
                  VDict [("role", VStr "assistant"); ("text", VStr "Hello!");
                         ("html", VNone)]])
    /\ convert_in (RRef 0) h1 = Ok (r2, h2)
    /\ r2 = RRef 26
    /\ reify h2 r2 = reify h1 (RRef 18).
Proof.
  eexists _, _, _. split; [vm_compute; reflexivity|].
  split; [reflexivity|]. split; [reflexivity|].
  split; [vm_compute; reflexivity|].
  split; [vm_compute; reflexivity|]. split; [reflexivity|].
  vm_compute. reflexivity.
Qed.

(** ** Where the normaliser returns *)

Lemma py_join_total (sep : string) (items : list value) :
  all_str items -> exists s, py_join sep items = Ok s.
Proof.
  induction 1 as [|v items Hv _ [t Ht]]; simpl; [eauto|].
  destruct v; try discriminate. destruct items; [eauto|].
  rewrite Ht. simpl. eauto.
Qed.

Lemma add_part_strs (chunk : list value) (p : value) :
  all_str chunk -> shaped_part p = true -> all_str (add_part chunk p).
Proof.
  intros Hc Hp. unfold add_part.
  destruct p as [ | | |s| |pk]; try assumption.
  - apply Forall_app. split; [assumption|]. now repeat constructor.
  - simpl in Hp. destruct (assoc "text" pk) as [t|]; [|assumption].
    destruct t; try discriminate.
    apply Forall_app. split; [assumption|]. now repeat constructor.
Qed.

Lemma chunk_strs (ps chunk : list value) :
  all_str chunk -> forallb shaped_part ps = true ->
  all_str (fold_left add_part ps chunk).
Proof.
  revert chunk. induction ps as [|p ps IH]; simpl; intros chunk Hc Hp; [assumption|].
  apply andb_true_iff in Hp as [Hp Hps].
  apply IH; [|assumption]. now apply add_part_strs.
Qed.

Lemma extract_text_total (c : value) :
  shaped_content (py_or c (VDict [])) = true ->
  exists s, extract_text (py_or c (VDict [])) = Ok s.
Proof.
  unfold py_or. destruct (truthy c) eqn:Ht; [|now exists ""].
  unfold shaped_content. rewrite Ht. simpl.
  destruct c as [ | | | | |ck]; try discriminate.
  destruct (assoc "parts" ck) as [p|] eqn:Hp.
  - destruct p as [ | | | |ps| ];
      try (intros _; exists (text_field ck); apply extract_text_no_parts;
           unfold no_parts; now rewrite Hp).
    destruct ps as [|p ps].
    + intros _; exists (text_field ck); apply extract_text_no_parts.
      unfold no_parts; now rewrite Hp.
    + intros Hs. unfold extract_text, py_get, py_get_default. rewrite Hp.
      cbn [bind].
      destruct (py_join_total newline (fold_left add_part (p :: ps) []))
        as [j ->]; [|cbn [bind]; eauto].
      apply chunk_strs; [constructor|assumption].
  - intros _; exists (text_field ck); apply extract_text_no_parts.
    unfold no_parts; now rewrite Hp.
Qed.

Lemma role_total (a : value) :
  shaped_author a = true -> exists r, py_get (py_or a (VDict [])) "role" = Ok r.
Proof.
  unfold shaped_author, py_or. destruct (truthy a); simpl; [|eauto].
  destruct a; try discriminate. simpl. eauto.
Qed.

Lemma node_message_total (n : value) :
  shaped_node n = true -> exists msg, node_message n = Ok msg.
Proof.
  unfold shaped_node. intros H. apply andb_true_iff in H as [_ H].
  destruct n as [ | | | | |nk]; try discriminate.
  unfold node_message, py_get at 1, py_get_default. cbn [bind].
  destruct (assoc "message" nk) as [m|].
  - destruct m as [ | | | | |mk]; try discriminate.
    apply andb_true_iff in H as [Ha Hc].
    assert (Hm : forall k, py_get (py_or (VDict mk) (VDict [])) k = Ok (field k mk)).
    { intros k. unfold py_or. destruct mk; reflexivity. }
    rewrite !Hm. cbn [bind].
    destruct (role_total _ Ha) as [r ->]. cbn [bind].
    destruct (extract_text_total (field "content" mk)) as [s ->]; [|simpl; eauto].
    unfold shaped_content in *. unfold py_or.
    destruct (truthy (field "content" mk)) eqn:E; [|reflexivity].
    rewrite E. exact Hc.
  - simpl. eauto.
Qed.

Lemma map_each_total {A B : Type} (f : A -> result B) (l : list A) :
  Forall (fun x => exists y, f x = Ok y) l -> exists ys, map_each f l = Ok ys.
Proof.
  induction 1 as [|x l [y Hy] _ [ys Hys]]; simpl; [eauto|].
  rewrite Hy, Hys. simpl. eauto.
Qed.

(** The normaliser returns a record on every dict payload whose mapping is
    falsy or a dict of shaped nodes. *)
Theorem convert_returns_on_shaped (kvs : list (string * value)) :
  (truthy (field "mapping" kvs) = false
   \/ exists mp, field "mapping" kvs = VDict mp
                 /\ Forall (fun n => shaped_node n = true) (map snd mp)) ->
  exists msgs,
    convert_api_conversation (VDict kvs)
    = Ok (record (header_id kvs) (header_title kvs) msgs).
Proof.
  intros [H|(mp & Hm & Hn)].
  - exists []. rewrite convert_dict. unfold py_or at 1. now rewrite H.
  - rewrite convert_dict, Hm. destruct mp as [|kv mp]; [now exists []|].
    unfold py_or. cbn [truthy]. unfold mapping_messages. cbn [py_values bind].
    assert (Ht : Forall (fun n => timed_node n = true) (map snd (kv :: mp))).
    { eapply Forall_impl; [exact Hn|]. intros n H.
      unfold shaped_node in H. now apply andb_true_iff in H as [H _]. }
    destruct (py_sort_by_time _ Ht) as (sorted & -> & Hp & _). cbn [bind].
    destruct (map_each_total node_message sorted) as [msgs ->]; [|simpl; eauto].
    rewrite <- Hp. eapply Forall_impl; [exact Hn|]. apply node_message_total.
Qed.

(** ** The listing loop *)

Lemma list_js_loop_continues (r : round) (its : list value) (rest : list round)
  (limit : Q) (offset : js_offset) (res : list value) (asked : list js_offset) :
  continues r its ->
  exists offset',
    list_js_loop (r :: rest) limit offset res asked
    = list_js_loop rest limit offset' (res ++ its) (asked ++ [offset]).
Proof.
  intros (data & Hr & Hi & Hm). unfold page_items, page_has_more in *.
  cbn [list_js_loop]. rewrite Hr.
  exists (advance offset (js_prop data "limit") limit).
  destruct (negb (js_truthy data)); [discriminate|].
  destruct (js_prop data "items") as [ | | | |l| ].
  5: inversion Hi; subst; now rewrite Hm.
  all: destruct (js_prop data "conversations") as [ | | | |cs| ]; try discriminate.
  all: inversion Hi; subst; now rewrite Hm.
Qed.

Lemma list_js_loop_stops (r : round) (its : list value) (rest : list round)
  (limit : Q) (offset : js_offset) (res : list value) (asked : list js_offset) :
  stops r its ->
  list_js_loop (r :: rest) limit offset res asked
  = Some (res ++ its, asked ++ [offset]).
Proof.
  unfold stops, page_items, page_has_more. cbn [list_js_loop].
  intros [[Hr ->]|(data & Hr & H)]; rewrite Hr; [now rewrite app_nil_r|].
  destruct (negb (js_truthy data)).
  { destruct H as [[_ ->]|[H _]]; [now rewrite app_nil_r|discriminate]. }
  destruct (js_prop data "items") as [ | | | |l| ].
  5: { destruct H as [[H _]|[H Hm]]; [discriminate|].
       inversion H; subst. now rewrite Hm. }
  all: destruct (js_prop data "conversations") as [ | | | |cs| ].
  all: destruct H as [[H ->]|[H Hm]]; try discriminate.
  all: try (now rewrite app_nil_r).
  all: inversion H; subst; now rewrite Hm.
Qed.

Lemma list_js_loop_pages (pre : list round) (pages : list (list value)) :
  Forall2 continues pre pages ->
  forall (last : round) (its : list value) (rest : list round)
         (limit : Q) (offset : js_offset) (res : list value)
         (asked : list js_offset),
    stops last its ->
    exists asked',
      list_js_loop (pre ++ last :: rest) limit offset res asked
      = Some (res ++ concat pages ++ its, asked')
      /\ length asked' = (length asked + S (length pre))%nat.
Proof.
  induction 1 as [|r p pre pages Hr _ IH];
    intros last its rest limit offset res asked Hs.
  - exists (asked ++ [offset]). cbn [app concat].
    rewrite (list_js_loop_stops last its rest limit offset res asked Hs).
    split; [reflexivity|]. rewrite length_app. simpl. lia.
  - destruct (list_js_loop_continues r p (pre ++ last :: rest) limit offset res
                asked Hr) as [offset' Hc].
    destruct (IH last its rest limit offset' (res ++ p) (asked ++ [offset]) Hs)
      as (asked' & Hl & Hn).
    exists asked'. cbn [app]. rewrite Hc, Hl. split.
    + simpl. now rewrite <- !app_assoc.
    + rewrite Hn, length_app. simpl. lia.
Qed.

(** C5: when the service answers a run of pages that ask for more and then
    a round that ends the listing (a last page, a reply in neither known
    shape, or no reply from either URL variant), the loop returns the
    concatenation of the item arrays in order, after exactly one round per
    page, whatever the service would have answered afterwards. *)
Theorem listing_concatenates_pages
  (pre : list round) (pages : list (list value)) (last : round)
  (its : list value) (rest : list round) (limit : Q) :
  Forall2 continues pre pages ->
  stops last its ->
  exists asked,
    LIST_JS (pre ++ last :: rest) limit = Some (concat pages ++ its, asked)
    /\ length asked = S (length pre)
    /\ list_conversations_via_api (Ok (concat pages ++ its))
       = concat pages ++ its.
Proof.
  intros Hp Hs.
  destruct (list_js_loop_pages pre pages Hp last its rest limit (OffNum 0) [] [] Hs)
    as (asked & Hl & Hn).
  exists asked. repeat split; [exact Hl|exact Hn|].
  unfold list_conversations_via_api.
  destruct (concat pages ++ its); reflexivity.
Qed.

Lemma items_page_continues (its : list value) :
  continues (answered (items_page its true)) its.
Proof. exists (items_page its true). repeat split. Qed.

Lemma legacy_page_continues (its : list value) :
  continues (answered_second (legacy_page its true)) its.
Proof. exists (legacy_page its true). repeat split. Qed.

Lemma last_page_stops (its : list value) :
  stops (answered (items_page its false)) its.
Proof. right. exists (items_page its false). split; [reflexivity|]. now right. Qed.

Lemma unknown_shape_stops (data : value) :
  page_items data = None -> stops (answered data) [].
Proof. intros H. right. exists data. split; [reflexivity|]. now left. Qed.

Lemma unanswered_stops : stops unanswered [].
Proof. now left. Qed.

Lemma listing_concatenates_pages_witness :
  exists asked,
    LIST_JS ([answered (items_page [item "a"] true);
              answered_second (legacy_page [item "b"; item "c"] true)]
             ++ answered (items_page [item "d"] false)
             :: [answered (items_page [item "e"] true)]) LIST_PAGE_SIZE
    = Some (concat [[item "a"]; [item "b"; item "c"]] ++ [item "d"], asked)
    /\ length asked = 3%nat
    /\ list_conversations_via_api
         (Ok (concat [[item "a"]; [item "b"; item "c"]] ++ [item "d"]))
       = concat [[item "a"]; [item "b"; item "c"]] ++ [item "d"].
Proof.
  apply (listing_concatenates_pages
           [answered (items_page [item "a"] true);
            answered_second (legacy_page [item "b"; item "c"] true)]
           [[item "a"]; [item "b"; item "c"]]
           (answered (items_page [item "d"] false)) [item "d"]
           [answered (items_page [item "e"] true)] LIST_PAGE_SIZE).
  - constructor; [apply items_page_continues|].
    constructor; [apply legacy_page_continues|constructor].
  - apply last_page_stops.
Defined.

(** [has_more] = true, true, false: the three pages in order, three rounds,
    at offsets 0, 50 and 100; the fourth round is never asked. *)
Example listing_three_pages :
  LIST_JS [answered (items_page [item "a"] true);
           answered (items_page [item "b"; item "c"] true);
           answered (items_page [item "d"] false);
           answered (items_page [item "e"] true)] LIST_PAGE_SIZE
  = Some ([item "a"; item "b"; item "c"; item "d"],
          [OffNum 0; OffNum (0 + 50); OffNum (0 + 50 + 50)]).
Proof. reflexivity. Qed.

(** A reply in neither shape ends the listing with what was accumulated. *)
Example listing_unknown_shape :
  LIST_JS [answered (items_page [item "a"] true);
           answered (VDict [("error", VStr "rate limited")]);
           answered (items_page [item "e"] true)] LIST_PAGE_SIZE
  = Some ([item "a"], [OffNum 0; OffNum (0 + 50)]).
Proof. reflexivity. Qed.

(** So does a round in which both URL variants fail. *)
Example listing_request_error :
  LIST_JS [answered (items_page [item "a"] true); unanswered;
           answered (items_page [item "e"] true)] LIST_PAGE_SIZE
  = Some ([item "a"], [OffNum 0; OffNum (0 + 50)]).
Proof. reflexivity. Qed.

(** The wrapper never raises: an exception of [page.evaluate] gives the
    empty list. *)
Lemma list_conversations_via_api_raise (e : exn) :
  list_conversations_via_api (Raise e) = [].
Proof. reflexivity. Qed.

(** ** Scroll and settle *)

(** The [total] the loop computes is the sum over the four selectors. *)
Lemma total_links_matched (sb : sidebar) (i : nat) :
  total_links sb i = matched_links sb i.
Proof. reflexivity. Qed.

Lemma unchanged_run_le (sb : sidebar) (k : nat) : (unchanged_run sb k <= k)%nat.
Proof.
  induction k as [|k IH]; [reflexivity|]. cbn [unchanged_run].
  destruct (observed sb (S k) =? observed sb k)%nat; lia.
Qed.

Lemma settled_run (sb : sidebar) (k : nat) :
  settled sb k <-> (3 <= unchanged_run sb k)%nat.
Proof.
  unfold settled. split.
  - intros (Hk & H1 & H2 & H3).
    destruct k as [|[|[|k]]]; try lia.
    replace (S (S (S k)) - 1)%nat with (S (S k)) in * by lia.
    replace (S (S (S k)) - 2)%nat with (S k) in * by lia.
    replace (S (S (S k)) - 3)%nat with k in * by lia.
    cbn [unchanged_run].
    rewrite H1, H2, H3, !Nat.eqb_refl. lia.
  - intros H. destruct k as [|k]; [simpl in H; lia|].
    cbn [unchanged_run] in H.
    destruct (observed sb (S k) =? observed sb k)%nat eqn:E1; [|lia].
    destruct k as [|k]; [simpl in H; lia|].
    cbn [unchanged_run] in H.
    destruct (observed sb (S k) =? observed sb k)%nat eqn:E2; [|lia].
    destruct k as [|k]; [simpl in H; lia|].
    cbn [unchanged_run] in H.
    destruct (observed sb (S k) =? observed sb k)%nat eqn:E3; [|lia].
    apply Nat.eqb_eq in E1, E2, E3.
    replace (S (S (S k)) - 1)%nat with (S (S k)) by lia.
    replace (S (S (S k)) - 2)%nat with (S k) by lia.
    replace (S (S (S k)) - 3)%nat with k by lia.
    repeat split; [lia|assumption..].
Qed.

Lemma scroll_loop_outcome (sb : sidebar) (left i : nat) :
  (forall k, (1 <= k <= i)%nat ->
             scroll_ok sb (k - 1) = true /\ ~ settled sb k) ->
  scroll_outcome sb (i + left)
    (scroll_loop sb left i (observed sb i) (unchanged_run sb i)).
Proof.
  revert i. induction left as [|left IH]; intros i Hpast.
  - simpl. split; [lia|]. split.
    + intros k Hk. apply Hpast. lia.
    + split; [lia|]. intros Hi. apply Hpast. lia.
  - cbn [scroll_loop].
    destruct (scroll_ok sb i) eqn:Hok; cbn [negb].
    + assert (Hstep : forall k, (1 <= k <= S i)%nat -> ~ settled sb (S i) ->
                                scroll_ok sb (k - 1) = true /\ ~ settled sb k).
      { intros k Hk Hns. destruct (Nat.eq_dec k (S i)) as [->|Hne].
        - replace (S i - 1)%nat with i by lia. now split.
        - apply Hpast. lia. }
      rewrite total_links_matched.
      change (matched_links sb i) with (observed sb (S i)).
      destruct (observed sb (S i) =? observed sb i)%nat eqn:E.
      * destruct (3 <=? S (unchanged_run sb i))%nat eqn:E3.
        -- simpl. split; [lia|]. split; [intros k Hk; apply Hpast; lia|].
           split; [lia|]. replace (i - 0)%nat with i by lia.
           split; [assumption|]. apply settled_run. cbn [unchanged_run].
           rewrite E. now apply Nat.leb_le in E3.
        -- assert (Hns : ~ settled sb (S i)).
           { rewrite settled_run. cbn [unchanged_run]. rewrite E.
             apply Nat.leb_gt in E3. lia. }
           specialize (IH (S i) (fun k Hk => Hstep k Hk Hns)).
           cbn [unchanged_run] in IH. rewrite E in IH.
           apply Nat.eqb_eq in E. rewrite E in IH.
           replace (i + S left)%nat with (S i + left)%nat by lia. exact IH.
      * assert (Hns : ~ settled sb (S i)).
        { rewrite settled_run. cbn [unchanged_run]. rewrite E. lia. }
        specialize (IH (S i) (fun k Hk => Hstep k Hk Hns)).
        cbn [unchanged_run] in IH. rewrite E in IH.
        replace (i + S left)%nat with (S i + left)%nat by lia. exact IH.
    + simpl. split; [lia|]. split; [intros k Hk; apply Hpast; lia|].
      split; [lia|]. now replace (i - 0)%nat with i by lia.
Qed.

(** C9: the scroll-and-settle loop enters at most [MAX_SCROLL_PASSES] = 80
    passes, and it ends at the first pass whose scroll fails or that is the
    third in a row to leave unchanged the total matched-link count, the sum
    of the counts of the four link selectors. *)
Theorem scroll_and_settle_bounded (sb : sidebar) :
  scroll_outcome sb MAX_SCROLL_PASSES (scroll_and_settle sb)
  /\ MAX_SCROLL_PASSES = 80%nat.
Proof.
  split; [|reflexivity].
  apply (scroll_loop_outcome sb MAX_SCROLL_PASSES 0). intros k Hk. lia.
Qed.

(** A sidebar that shows 7 links from the first pass on: the loop ends at
    pass 4, the third to leave the count at 7; and one whose four counts
    grow with every pass: pass 80 is the last and none has settled. *)
Lemma scroll_and_settle_bounded_witness :
  (scroll_outcome (steady_sidebar 7) 80 (4%nat, Settled)
   /\ observed (steady_sidebar 7) 4 = 7%nat
   /\ observed (steady_sidebar 7) 1 = 7%nat)
  /\ (scroll_outcome growing_sidebar 80 (80%nat, Exhausted)
      /\ observed growing_sidebar 80 = 316%nat).
Proof.
  split; (split; [|vm_compute; repeat split]).
  - exact (proj1 (scroll_and_settle_bounded (steady_sidebar 7))).
  - exact (proj1 (scroll_and_settle_bounded growing_sidebar)).
Defined.

(** No link at all: the count equals the initial [seen], three passes. *)
Example scroll_empty_sidebar : scroll_and_settle (steady_sidebar 0) = (3%nat, Settled).
Proof. reflexivity. Qed.

(** A steady count is first recorded, then seen unchanged three times. *)
Example scroll_steady_sidebar : scroll_and_settle (steady_sidebar 7) = (4%nat, Settled).
Proof. reflexivity. Qed.

Example scroll_growing_sidebar : scroll_and_settle growing_sidebar = (80%nat, Exhausted).
Proof. vm_compute. reflexivity. Qed.

(** ** De-duplication of the links *)

Example rsplit_last_url :
  rsplit_last "https://chat.openai.com/c/abc-123" = "abc-123".
Proof. reflexivity. Qed.

Example rsplit_last_no_slash : rsplit_last "abc" = "abc".
Proof. reflexivity. Qed.

Example rsplit_last_trailing_slash :
  rsplit_last "https://chat.openai.com/c/abc/" = "".
Proof. reflexivity. Qed.

Lemma dedup_loop_firsts (links : list link) (seen : gset string) (uniq : list link) :
  dedup_loop links seen uniq = uniq ++ firsts links seen.
Proof.
  revert seen uniq. induction links as [|L rest IH]; intros seen uniq; simpl.
  - now rewrite app_nil_r.
  - destruct (decide (link_id L ∈ seen)); rewrite IH; [reflexivity|].
    now rewrite <- app_assoc.
Qed.

Lemma firsts_sublist (links : list link) (seen : gset string) :
  sublist (firsts links seen) links.
Proof.
  revert seen. induction links as [|L rest IH]; intros seen; simpl.
  - constructor.
  - destruct (decide (link_id L ∈ seen)).
    + apply sublist_cons. apply IH.
    + apply sublist_skip. apply IH.
Qed.

Lemma firsts_fresh (links : list link) (seen : gset string) (L : link) :
  L ∈ firsts links seen -> link_id L ∉ seen.
Proof.
  revert seen. induction links as [|L' rest IH]; intros seen; simpl.
  - intros H. inversion H.
  - destruct (decide (link_id L' ∈ seen)) as [Hin|Hnin].
    + apply IH.
    + intros H. apply elem_of_cons in H as [->|H]; [assumption|].
      apply IH in H. set_solver.
Qed.

Lemma firsts_NoDup (links : list link) (seen : gset string) :
  NoDup (map link_id (firsts links seen)).
Proof.
  revert seen. induction links as [|L rest IH]; intros seen; simpl.
  - constructor.
  - destruct (decide (link_id L ∈ seen)); [apply IH|].
    simpl. constructor; [|apply IH].
    intros H. apply list_elem_of_fmap in H as (L' & Heq & HL').
    apply firsts_fresh in HL'. set_solver.
Qed.

(** The first link with a given id is the same before and after, unless
    the id was already taken. *)
Lemma firsts_find (links : list link) (seen : gset string) (k : string) :
  List.find (has_id k) (firsts links seen)
  = if decide (k ∈ seen) then None else List.find (has_id k) links.
Proof.
  revert seen. induction links as [|L rest IH]; intros seen; simpl.
  - now destruct (decide (k ∈ seen)).
  - unfold has_id at 2. destruct (String.eqb (link_id L) k) eqn:E.
    + apply String.eqb_eq in E. subst k.
      destruct (decide (link_id L ∈ seen)) as [Hin|Hnin].
      * rewrite IH. now destruct (decide (link_id L ∈ seen)).
      * simpl. unfold has_id at 1. now rewrite String.eqb_refl.
    + apply String.eqb_neq in E.
      destruct (decide (link_id L ∈ seen)) as [Hin|Hnin]; [apply IH|].
      simpl. unfold has_id at 1.
      destruct (String.eqb (link_id L) k) eqn:E'.
      { apply String.eqb_eq in E'. contradiction. }
      rewrite IH.
      destruct (decide (k ∈ seen)) as [Hk|Hk];
        destruct (decide (k ∈ {[link_id L]} ∪ seen)) as [Hu|Hu];
        try reflexivity; exfalso.
      * apply Hu. apply elem_of_union. now right.
      * apply elem_of_union in Hu as [Hu|Hu]; [|contradiction].
        apply elem_of_singleton in Hu. congruence.
Qed.

Lemma after_last_slash_free (t : string) :
  slash_free t = true -> after_last_slash t = None.
Proof.
  induction t as [|c t IH]; simpl; [reflexivity|].
  intros H. apply andb_true_iff in H as [Hc Ht]. rewrite (IH Ht).
  now destruct (Ascii.eqb c slash).
Qed.

(** [rsplit_last] returns the trailing path segment. *)
Lemma rsplit_last_segment (p t : string) :
  slash_free t = true -> rsplit_last (p ++ String slash t)%string = t.
Proof.
  intros Ht. unfold rsplit_last.
  assert (H : after_last_slash (p ++ String slash t)%string = Some t).
  { induction p as [|c p IH]; simpl.
    - rewrite (after_last_slash_free t Ht). reflexivity.
    - now rewrite IH. }
  now rewrite H.
Qed.

Lemma rsplit_last_whole (s : string) :
  slash_free s = true -> rsplit_last s = s.
Proof. intros H. unfold rsplit_last. now rewrite after_last_slash_free. Qed.

(** Processing one more link at the end: it is dropped when a link before
    it has its id, appended otherwise. *)
Lemma firsts_snoc (links : list link) (seen : gset string) (L : link) :
  firsts (links ++ [L]) seen
  = if decide (link_id L ∈ seen) then firsts links seen
    else if existsb (has_id (link_id L)) links then firsts links seen
    else firsts links seen ++ [L].
Proof.
  revert seen. induction links as [|L0 links IH]; intros seen; cbn [app firsts existsb].
  - destruct (decide (link_id L ∈ seen)); reflexivity.
  - unfold has_id at 1.
    destruct (decide (link_id L0 ∈ seen)) as [Hin0|Hnin0]; rewrite IH.
    + destruct (decide (link_id L ∈ seen)) as [Hin|Hnin]; [reflexivity|].
      destruct (String.eqb (link_id L0) (link_id L)) eqn:E; cbn [orb]; [|reflexivity].
      apply String.eqb_eq in E. exfalso. apply Hnin. now rewrite <- E.
    + destruct (String.eqb (link_id L0) (link_id L)) eqn:E; cbn [orb].
      * apply String.eqb_eq in E.
        destruct (decide (link_id L ∈ {[link_id L0]} ∪ seen)) as [_|Hu].
        -- destruct (decide (link_id L ∈ seen)) as [Hin|_]; [|reflexivity].
           exfalso. apply Hnin0. now rewrite E.
        -- exfalso. apply Hu. apply elem_of_union. left.
           apply elem_of_singleton. now symmetry.
      * apply String.eqb_neq in E.
        destruct (decide (link_id L ∈ {[link_id L0]} ∪ seen)) as [Hu|Hu];
          destruct (decide (link_id L ∈ seen)) as [Hin|Hnin].
        -- reflexivity.
        -- exfalso. apply elem_of_union in Hu as [Hu|Hu]; [|contradiction].
           apply elem_of_singleton in Hu. congruence.
        -- exfalso. apply Hu. apply elem_of_union. now right.
        -- now destruct (existsb (has_id (link_id L)) links).
Qed.

(** C8: links are keyed by the trailing path segment of their URL, and the
    result keeps, in order, exactly the first link of each key: it is a
    subsequence of the links with pairwise distinct keys in which the first
    link of every key is the one it was; taking the links one by one, a
    link whose key an earlier link has adds nothing and any other link is
    added at the end; and the key is the part of the URL after its last
    slash, the whole URL when it has none. *)
Theorem dedup_keeps_first_occurrences (links : list link) :
  sublist (dedup_links links) links
  /\ NoDup (map link_id (dedup_links links))
  /\ (forall k, List.find (has_id k) (dedup_links links)
                = List.find (has_id k) links)
  /\ (forall L p seg, href L = (p ++ String slash seg)%string ->
                       slash_free seg = true -> link_id L = seg)
  /\ (forall L, slash_free (href L) = true -> link_id L = href L)
  /\ dedup_links [] = []
  /\ (forall L, dedup_links (links ++ [L])
                = if existsb (has_id (link_id L)) links
                  then dedup_links links
                  else dedup_links links ++ [L]).
Proof.
  unfold dedup_links. rewrite !dedup_loop_firsts. cbn [app].
  split; [apply firsts_sublist|]. split; [apply firsts_NoDup|]. split; [|split].
  - intros k. rewrite firsts_find.
    destruct (decide (k ∈ ∅)); [set_solver|reflexivity].
  - intros L p seg Hh Hs. unfold link_id. rewrite Hh.
    now apply rsplit_last_segment.
  - split; [|split].
    + intros L HL. unfold link_id. now apply rsplit_last_whole.
    + reflexivity.
    + intros L. rewrite !dedup_loop_firsts. cbn [app]. rewrite firsts_snoc.
      destruct (decide (link_id L ∈ ∅)) as [Hin|_]; [|reflexivity].
      exfalso. revert Hin. apply not_elem_of_empty.
Qed.

(** The key of a chat URL is the conversation id; a link met a second
    time, verbatim or under another path that ends in the same id, is
    dropped, and the links kept stay in the order of their first
    occurrence. *)
Lemma dedup_keeps_first_occurrences_witness :
  link_id chat_abc = "abc"
  /\ dedup_links [chat_abc; chat_xyz; chat_abc] = [chat_abc; chat_xyz]
  /\ dedup_links ([chat_abc; chat_xyz; chat_abc] ++ [shared_xyz])
     = dedup_links [chat_abc; chat_xyz; chat_abc].
Proof.
  split; [|split].
  - destruct (dedup_keeps_first_occurrences [chat_abc]) as (_ & _ & _ & H & _).
    apply (H _ "https://chat.openai.com/c"); reflexivity.
  - destruct (dedup_keeps_first_occurrences [chat_abc; chat_xyz])
      as (_ & _ & _ & _ & _ & _ & H3).
    destruct (dedup_keeps_first_occurrences [chat_abc])
      as (_ & _ & _ & _ & _ & _ & H2).
    destruct (dedup_keeps_first_occurrences [])
      as (_ & _ & _ & _ & _ & H0 & H1).
    change [chat_abc; chat_xyz; chat_abc] with ([chat_abc; chat_xyz] ++ [chat_abc]).
    rewrite H3. cbn [existsb has_id].
    change (String.eqb (link_id chat_abc) (link_id chat_abc)) with true. cbn [orb].
    change [chat_abc; chat_xyz] with ([chat_abc] ++ [chat_xyz]).
    rewrite H2. cbn [existsb has_id].
    change (String.eqb (link_id chat_abc) (link_id chat_xyz)) with false. cbn [orb].
    change [chat_abc] with ([] ++ [chat_abc]).
    rewrite H1. cbn [existsb]. rewrite H0. reflexivity.
  - destruct (dedup_keeps_first_occurrences [chat_abc; chat_xyz; chat_abc])
      as (_ & _ & _ & _ & _ & _ & H).
    rewrite H. reflexivity.
Defined.

(** Two links that end in the same id collapse to the first. *)
Example dedup_same_id :
  dedup_links [{| href := "https://chat.openai.com/c/abc"; title := "first" |};
               {| href := "https://chat.openai.com/share/c/abc"; title := "second" |};
               {| href := "https://chat.openai.com/c/xyz"; title := "third" |}]
  = [{| href := "https://chat.openai.com/c/abc"; title := "first" |};
     {| href := "https://chat.openai.com/c/xyz"; title := "third" |}].
Proof. vm_compute. reflexivity. Qed.

(** ** The ids of the exported records *)

Lemma assoc_dict_set_other (k k' : string) (v : value) (kvs : list (string * value)) :
  k <> k' -> assoc k (dict_set k' v kvs) = assoc k kvs.
Proof.
  intros Hne. induction kvs as [|[k0 v0] kvs IH]; simpl.
  - destruct (String.eqb k k') eqn:E; [|reflexivity].
    apply String.eqb_eq in E. contradiction.
  - destruct (String.eqb k' k0) eqn:E0; simpl.
    + apply String.eqb_eq in E0. subst k0.
      destruct (String.eqb k k') eqn:E; [|reflexivity].
      apply String.eqb_eq in E. contradiction.
    + now rewrite IH.
Qed.

Lemma setitem_url_keeps_id (conv conv' u : value) :
  py_setitem conv "url" u = Ok conv' -> conv_id conv' = conv_id conv.
Proof.
  destruct conv; simpl; intros H; inversion H; subst. simpl. unfold field.
  now rewrite assoc_dict_set_other.
Qed.

Lemma api_loop_ids (b : browser) (items : list value) :
  details_carry_id b ->
  forall (idx : nat) (conversations out : list value),
    Forall has_id_field conversations ->
    api_loop b items idx conversations = Ok out ->
    Forall has_id_field out.
Proof.
  intros Hd. induction items as [|it rest IH]; intros idx convs out Hc H.
  - simpl in H. now inversion H; subst.
  - cbn [api_loop] in H.
    apply bind_ok in H as (i1 & _ & H).
    apply bind_ok in H as (cid & _ & H).
    apply bind_ok in H as (t & _ & H).
    destruct (truthy cid) eqn:Hcid; cbn [negb] in H; [|now apply (IH _ _ _ Hc H)].
    apply bind_ok in H as (conv & Hconv & H).
    apply bind_ok in H as (conv' & Hset & H).
    refine (IH _ _ _ _ H). apply Forall_app. split; [assumption|].
    constructor; [|constructor].
    unfold has_id_field. rewrite (setitem_url_keeps_id _ _ _ Hset).
    destruct (truthy (fetch_conversation_via_api b idx cid)) eqn:Ht.
    + destruct (fetch_conversation_via_api b idx cid) as [ | | | | |kvs] eqn:Hf;
        try discriminate.
      rewrite convert_dict in Hconv. apply bind_ok in Hconv as (msgs & _ & Hconv).
      inversion Hconv; subst. simpl. now apply (Hd idx cid kvs).
    + inversion Hconv; subst. exact Hcid.
Qed.

Lemma dom_loop_ids (b : browser) (links : list link) :
  links_carry_id links ->
  forall (idx : nat) (conversations out : list value),
    Forall has_id_field conversations ->
    dom_loop b links idx conversations = Ok out ->
    Forall has_id_field out.
Proof.
  induction 1 as [|L rest HL _ IH]; intros idx convs out Hc H.
  - simpl in H. now inversion H; subst.
  - cbn [dom_loop] in H. apply bind_ok in H as (turns & _ & H).
    refine (IH _ _ _ _ H). apply Forall_app. split; [assumption|].
    constructor; [|constructor]. unfold has_id_field. simpl.
    apply negb_true_iff. apply String.eqb_neq. exact HL.
Qed.

(** Where the ids are not empty: when every fetched detail payload carries
    an [id] or a [conversation_id] (a failed fetch gives the record the id
    of the list item) and, on the DOM path, no link URL ends in a slash. *)
Lemma main_conversations_ids (b : browser) (conversations : list value) :
  details_carry_id b ->
  links_carry_id (load_all_chats_dom (side b)) ->
  main_conversations b = Ok conversations ->
  Forall has_id_field conversations.
Proof.
  intros Hd Hl H. unfold main_conversations in H.
  apply bind_ok in H as (convs & Ha & H).
  assert (Hc : Forall has_id_field convs).
  { destruct (list_conversations_via_api (listing b)) as [|it items].
    - inversion Ha. constructor.
    - apply (api_loop_ids b (it :: items) Hd 1%nat [] convs); [constructor|assumption]. }
  destruct convs as [|c convs].
  - apply (dom_loop_ids b _ Hl 1%nat [] conversations); [constructor|assumption].
  - now inversion H; subst.
Qed.

(** The end-to-end scenario: one listed item, its detail with two nodes. *)
Example main_end_to_end :
  main_conversations
    (api_browser [VDict [("id", VStr "c1"); ("title", VStr "Hello")]]
                 (fun _ => hello_detail))
  = Ok [VDict [("id", VStr "c1"); ("title", VStr "Hello");
               ("messages",
                VList [VDict [("role", VStr "user"); ("text", VStr "Hi");
                              ("html", VNone)];
                       VDict [("role", VStr "assistant"); ("text", VStr "Hello!");
                              ("html", VNone)]]);
               ("url", VStr "https://chat.openai.com/c/c1")]].
Proof. vm_compute. reflexivity. Qed.

(** A failed detail fetch leaves a header-only record with the id of the
    list item. *)
Example main_header_only :
  main_conversations
    (api_browser [VDict [("id", VStr "c1"); ("title", VStr "Hello")]]
                 (fun _ => VNone))
  = Ok [VDict [("id", VStr "c1"); ("title", VStr "Hello"); ("messages", VList []);
               ("url", VStr "https://chat.openai.com/c/c1")]].
Proof. vm_compute. reflexivity. Qed.

(** On the DOM path a link whose URL ends in a slash gives the document a
    record whose id is the empty string. *)
Lemma dom_record_with_empty_id :
  exists doc,
    export_document (dom_browser (sidebar_with [anchor_to "/c/abc/" "A chat"])) 0
    = Ok doc
    /\ document_conversations doc
       = [VDict [("id", VStr "");
                 ("url", VStr "https://chat.openai.com/c/abc/");
                 ("title", VStr "A chat");
                 ("messages", VList [])]]
    /\ ~ Forall has_id_field (document_conversations doc).
Proof.
  eexists. split; [vm_compute; reflexivity|]. split; [reflexivity|].
  intros H. inversion H as [|? ? Hid _]; subst. discriminate Hid.
Qed.

(** On the API path the record of a detail payload that lacks both id
    fields has the id [None], although the list item had one: line 387
    keeps the normalised record as it is and line 391 only adds the URL. *)
Example api_record_without_id :
  main_conversations
    (api_browser [VDict [("id", VStr "c1"); ("title", VStr "Hello")]]
                 (fun _ => VDict [("title", VStr "Hello")]))
  = Ok [VDict [("id", VNone); ("title", VStr "Hello"); ("messages", VList []);
               ("url", VStr "https://chat.openai.com/c/c1")]].
Proof. vm_compute. reflexivity. Qed.

(** C3 (defect): a list item with the id ["c1"] whose detail payload is
    fetched but carries neither [id] nor [conversation_id] gives the export
    document a record whose id is [None]. The id of the item passed the
    guard of line 382 and makes the URL of line 391, and it is the id of the
    header-only record of line 390; but line 387 keeps the normalised record
    as it is, with the id the payload lacks. *)
Theorem api_record_loses_item_id :
  exists doc,
    export_document
      (api_browser [VDict [("id", VStr "c1"); ("title", VStr "Hello")]]
                   (fun _ => VDict [("title", VStr "Hello")]))
      1700000000
    = Ok doc
    /\ document_conversations doc
       = [VDict [("id", VNone); ("title", VStr "Hello"); ("messages", VList []);
                 ("url", VStr "https://chat.openai.com/c/c1")]]
    /\ ~ Forall has_id_field (document_conversations doc).
Proof.
  eexists. split; [vm_compute; reflexivity|]. split; [reflexivity|].
  intros H. inversion H as [|? ? Hid _]; subst. discriminate Hid.
Qed.

(** * Further properties *)

(** ** The normaliser: nodes and messages *)

Lemma map_snd_combine {A B : Type} (l1 : list A) (l2 : list B) :
  length l1 = length l2 -> map snd (combine l1 l2) = l2.
Proof.
  revert l2. induction l1 as [|a l1 IH]; intros [|b l2] H; simpl in *;
    try discriminate; [reflexivity|]. f_equal. apply IH. now inversion H.
Qed.

(** Whatever the keys are, a sort that returns has rearranged its input. *)
Lemma py_sort_perm (key : value -> result value) (l sorted : list value) :
  py_sort key l = Ok sorted -> Permutation l sorted.
Proof.
  unfold py_sort. intros H.
  apply bind_ok in H as (keys & Hk & H). apply bind_ok in H as (s & Hs & H).
  inversion H; subst. apply sort_keyed_perm in Hs.
  rewrite <- (map_snd_combine keys l) at 1.
  - now apply Permutation_map.
  - now apply map_each_length in Hk.
Qed.

(** The messages of a mapping are those of its nodes, rearranged. *)
Lemma mapping_messages_nodes (mp : list (string * value)) (msgs : list value) :
  mapping_messages (VDict mp) = Ok msgs ->
  exists nodes,
    Permutation (map snd mp) nodes
    /\ Forall2 (fun n m => node_message n = Ok m) nodes msgs.
Proof.
  unfold mapping_messages. cbn [py_values bind]. intros H.
  apply bind_ok in H as (sorted & Hs & H). apply py_sort_perm in Hs.
  exists sorted. split; [exact Hs|]. now apply map_each_Forall2.
Qed.



Lemma trimmed_empty : trimmed "".
Proof. split; exact I. Qed.

Lemma extract_text_trimmed (content : value) (s : string) :
  extract_text content = Ok s -> trimmed s.
Proof.
  unfold extract_text. intros H. apply bind_ok in H as (parts & _ & H).
  assert (Hrest :
    (let! t := py_get content "text" in
     match t with
     | VStr s => Ok (strip s)
     | _ => match content with VStr s => Ok (strip s) | _ => Ok "" end
     end) = Ok s -> trimmed s).
  { clear H. intros H. apply bind_ok in H as (t & _ & H).
    destruct t; try (inversion H; subst; apply strip_trimmed);
      destruct content; inversion H; subst;
      first [apply strip_trimmed | apply trimmed_empty]. }
  destruct parts as [ | | | |ps| ]; try (now apply Hrest).
  destruct ps as [|p ps]; [now apply Hrest|].
  apply bind_ok in H as (joined & _ & H). inversion H; subst. apply strip_trimmed.
Qed.

Lemma node_message_shape (n m : value) :
  node_message n = Ok m -> api_message m.
Proof.
  unfold node_message. intros H.
  apply bind_ok in H as (m0 & _ & H). apply bind_ok in H as (a0 & _ & H).
  apply bind_ok in H as (r0 & _ & H). apply bind_ok in H as (c0 & _ & H).
  apply bind_ok in H as (text & Ht & H). inversion H; subst.
  exists (py_or r0 (VStr "assistant")), text. split; [reflexivity|]. split.
  - unfold py_or. destruct (truthy r0) eqn:E; [exact E|reflexivity].
  - now apply extract_text_trimmed in Ht.
Qed.

Lemma mapping_messages_api (mapping : value) (msgs : list value) :
  mapping_messages mapping = Ok msgs -> Forall api_message msgs.
Proof.
  unfold mapping_messages. intros H. apply bind_ok in H as (n0 & _ & H).
  apply bind_ok in H as (nodes & _ & H). apply map_each_Forall2 in H.
  induction H as [|n m nodes msgs Hn _ IH]; [constructor|].
  constructor; [|exact IH]. now apply (node_message_shape n).
Qed.

(** X2: every message of a record the normaliser returns has exactly the
    keys [role], [text] and [html]; the role is never empty (it falls back
    to ["assistant"]), the text is a string without white space at either
    end, and the markup is [None]. *)
Theorem convert_messages_shaped (api_obj conv : value) :
  convert_api_conversation api_obj = Ok conv ->
  Forall api_message (conv_messages conv).
Proof.
  intros H. destruct api_obj as [ | | | | |kvs]; try discriminate.
  rewrite convert_dict in H. apply bind_ok in H as (msgs & Hm & H).
  inversion H; subst.
  change (conv_messages (record (header_id kvs) (header_title kvs) msgs)) with msgs.
  destruct (truthy (py_or (field "mapping" kvs) (VDict []))).
  - now apply mapping_messages_api in Hm.
  - inversion Hm. constructor.
Qed.

Lemma convert_messages_shaped_witness :
  Forall api_message (conv_messages (record (VStr "c1") (VStr "Untitled") two_messages)).
Proof.
  apply (convert_messages_shaped (VDict [("id", VStr "c1"); ("mapping", VDict two_nodes)])).
  vm_compute. reflexivity.
Defined.

(** X3: the title of a returned record is the payload's [title] when that
    is truthy, else its [current_node] when that is truthy, else
    ["Untitled"]; it is never empty. The id is the payload's [id] when
    truthy and its [conversation_id] otherwise. *)
Theorem convert_title_and_id_fallbacks (kvs : list (string * value)) (conv : value) :
  convert_api_conversation (VDict kvs) = Ok conv ->
  truthy (conv_title conv) = true
  /\ (truthy (field "title" kvs) = true -> conv_title conv = field "title" kvs)
  /\ (truthy (field "title" kvs) = false ->
      truthy (field "current_node" kvs) = true ->
      conv_title conv = field "current_node" kvs)
  /\ (truthy (field "title" kvs) = false ->
      truthy (field "current_node" kvs) = false ->
      conv_title conv = VStr "Untitled")
  /\ (truthy (field "id" kvs) = true -> conv_id conv = field "id" kvs)
  /\ (truthy (field "id" kvs) = false ->
      conv_id conv = field "conversation_id" kvs).
Proof.
  intros H. rewrite convert_dict in H. apply bind_ok in H as (msgs & _ & H).
  inversion H; subst.
  change (conv_title (record (header_id kvs) (header_title kvs) msgs))
    with (header_title kvs).
  change (conv_id (record (header_id kvs) (header_title kvs) msgs))
    with (header_id kvs).
  unfold header_title, header_id, py_or.
  destruct (truthy (field "title" kvs)) eqn:Et;
    destruct (truthy (field "current_node" kvs)) eqn:Ec;
    destruct (truthy (field "id" kvs)) eqn:Ei;
    rewrite ?Et, ?Ec; repeat split; intros; try discriminate; reflexivity.
Qed.

Lemma convert_title_and_id_fallbacks_witness :
  truthy (conv_title (record (VStr "c9") (VStr "node-7") [])) = true.
Proof.
  apply (convert_title_and_id_fallbacks
           [("conversation_id", VStr "c9"); ("title", VStr "");
            ("current_node", VStr "node-7")]).
  vm_compute. reflexivity.
Defined.

(** X4: a payload that is not a dict, or whose mapping is truthy but not a
    dict (a non-empty list, a string, a number), makes the normaliser raise
    [AttributeError]. *)
Theorem convert_rejects_non_dict (api_obj : value) :
  (is_dict api_obj = false
   \/ exists kvs, api_obj = VDict kvs
                  /\ truthy (field "mapping" kvs) = true
                  /\ is_dict (field "mapping" kvs) = false) ->
  convert_api_conversation api_obj = Raise AttributeError.
Proof.
  intros [H|(kvs & -> & Ht & Hd)].
  - destruct api_obj; try discriminate; reflexivity.
  - rewrite convert_dict. unfold py_or. rewrite Ht. rewrite Ht.
    unfold mapping_messages. destruct (field "mapping" kvs); try discriminate;
      reflexivity.
Qed.

Lemma convert_rejects_non_dict_witness :
  convert_api_conversation (VDict [("id", VStr "c1"); ("mapping", VList [VStr "n1"])])
  = Raise AttributeError.
Proof.
  apply convert_rejects_non_dict. right.
  exists [("id", VStr "c1"); ("mapping", VList [VStr "n1"])].
  repeat split.
Defined.

Lemma py_join_strs (sep : string) (items : list value) (s : string) :
  py_join sep items = Ok s -> all_str items.
Proof.
  revert s. induction items as [|v items IH]; intros s H; [constructor|].
  destruct v; try discriminate. simpl in H. destruct items as [|w items].
  - repeat constructor.
  - apply bind_ok in H as (t & Ht & _). constructor; [reflexivity|].
    now apply (IH t).
Qed.

Lemma add_part_strs_inv (chunk : list value) (p : value) :
  all_str (add_part chunk p) -> all_str chunk /\ shaped_part p = true.
Proof.
  unfold add_part, all_str. destruct p as [ | | |s| |pk]; try (now split).
  - intros H. apply Forall_app in H as [H _]. now split.
  - simpl. destruct (assoc "text" pk) as [t|]; [|now split].
    intros H. apply Forall_app in H as [H Ht]. split; [assumption|].
    inversion Ht as [|? ? Hs _]; subst. now destruct t.
Qed.

Lemma chunk_strs_inv (ps chunk : list value) :
  all_str (fold_left add_part ps chunk) ->
  all_str chunk /\ forallb shaped_part ps = true.
Proof.
  revert chunk. induction ps as [|p ps IH]; simpl; intros chunk H; [now split|].
  apply IH in H as [H Hps]. apply add_part_strs_inv in H as [H Hp].
  split; [assumption|]. now rewrite Hp, Hps.
Qed.

Lemma extract_text_shaped (c : value) (s : string) :
  extract_text (py_or c (VDict [])) = Ok s -> shaped_content c = true.
Proof.
  unfold shaped_content, py_or. destruct (truthy c) eqn:Ht; [|reflexivity].
  simpl. intros H. destruct c as [ | | | | |ck]; try discriminate.
  unfold extract_text, py_get, py_get_default in H. cbn [bind] in H.
  destruct (assoc "parts" ck) as [p|]; [|reflexivity].
  destruct p as [ | | | |ps| ]; try reflexivity.
  destruct ps as [|p ps]; [reflexivity|].
  apply bind_ok in H as (joined & Hj & _). apply py_join_strs in Hj.
  now apply chunk_strs_inv in Hj as [_ Hj].
Qed.

Lemma shaped_content_or (c : value) :
  shaped_content c = true -> shaped_content (py_or c (VDict [])) = true.
Proof. unfold py_or. destruct (truthy c) eqn:E; [auto|reflexivity]. Qed.

Lemma node_message_returns_readable (n m : value) :
  node_message n = Ok m -> readable_node n = true.
Proof.
  intros H. unfold node_message in H.
  destruct n as [ | | | | |nk]; try discriminate.
  change (py_get (VDict nk) "message") with (Ok (field "message" nk)) in H.
  cbn [bind] in H. unfold readable_node.
  destruct (py_or (field "message" nk) (VDict [])) as [ | | | | |mk];
    try discriminate.
  change (py_get (VDict mk) "author") with (Ok (field "author" mk)) in H.
  change (py_get (VDict mk) "content") with (Ok (field "content" mk)) in H.
  cbn [bind] in H. apply bind_ok in H as (r0 & Hr & H). cbn [bind] in H.
  apply bind_ok in H as (text & Ht & _).
  apply extract_text_shaped in Ht. rewrite Ht, andb_true_r.
  unfold shaped_author. unfold py_or in Hr.
  destruct (truthy (field "author" mk)); [|reflexivity].
  now destruct (field "author" mk).
Qed.

Lemma readable_node_message (n : value) :
  readable_node n = true -> exists m, node_message n = Ok m.
Proof.
  unfold readable_node. destruct n as [ | | | | |nk]; try discriminate.
  intros H. unfold node_message.
  change (py_get (VDict nk) "message") with (Ok (field "message" nk)).
  cbn [bind].
  destruct (py_or (field "message" nk) (VDict [])) as [ | | | | |mk];
    try discriminate.
  apply andb_true_iff in H as [Ha Hc].
  change (py_get (VDict mk) "author") with (Ok (field "author" mk)).
  change (py_get (VDict mk) "content") with (Ok (field "content" mk)).
  cbn [bind]. destruct (role_total _ Ha) as [r ->]. cbn [bind].
  destruct (extract_text_total _ (shaped_content_or _ Hc)) as [s ->].
  cbn [bind]. eauto.
Qed.

(** X5: the loop body of lines 189-208 returns a message for a node exactly
    when the node is a dict whose message is falsy or a dict, whose author
    is falsy or a dict, and whose content is falsy or a dict in which every
    object part of a non-empty [parts] list has a string [text] (or none);
    on every other node it raises. *)
Theorem node_message_returns_iff (n : value) :
  (exists m, node_message n = Ok m) <-> readable_node n = true.
Proof.
  split.
  - intros [m H]. now apply (node_message_returns_readable n m).
  - apply readable_node_message.
Qed.

Lemma node_message_returns_iff_witness :
  exists m, node_message (VDict [("message", VNone)]) = Ok m.
Proof.
  apply (node_message_returns_iff (VDict [("message", VNone)])). reflexivity.
Defined.

Lemma sort_key_unsortable (n : value) :
  unsortable n = true -> sort_key n = Raise AttributeError.
Proof.
  unfold unsortable, sort_key, py_get_default.
  destruct n as [ | | | | |nk]; try reflexivity.
  destruct (assoc "message" nk) as [m|]; [|discriminate].
  destruct m; try discriminate; reflexivity.
Qed.

Lemma sort_key_exn (n : value) (e : exn) :
  sort_key n = Raise e -> e = AttributeError.
Proof.
  unfold sort_key. destruct (py_get_default n "message" (VDict [])) as [m|e'] eqn:E.
  - cbn [bind]. destruct m; simpl; intros H; now inversion H.
  - cbn [bind]. intros H. inversion H; subst.
    destruct n; simpl in E; now inversion E.
Qed.

Lemma sort_keys_raise (nodes : list value) (n : value) :
  In n nodes -> unsortable n = true ->
  map_each sort_key nodes = Raise AttributeError.
Proof.
  induction nodes as [|x nodes IH]; intros Hin Hn; [contradiction|].
  cbn [map_each]. destruct (sort_key x) as [k|e] eqn:E.
  - cbn [bind]. destruct Hin as [->|Hin].
    + rewrite (sort_key_unsortable n Hn) in E. discriminate.
    + now rewrite (IH Hin Hn).
  - apply sort_key_exn in E as ->. reflexivity.
Qed.

Lemma py_sort_unsortable (nodes : list value) (n : value) :
  In n nodes -> unsortable n = true ->
  py_sort sort_key nodes = Raise AttributeError.
Proof. intros Hin Hn. unfold py_sort. now rewrite (sort_keys_raise _ n Hin Hn). Qed.

(** X6: if some node of the mapping is not a dict, or has a [message] key
    whose value is not a dict ([null] included), the normaliser raises
    [AttributeError]: the sort key of line 187 fails on that node whatever
    the other nodes are, and no record is returned. *)
Theorem convert_raises_on_unsortable_node
  (kvs mp : list (string * value)) (n : value) :
  field "mapping" kvs = VDict mp ->
  In n (map snd mp) ->
  unsortable n = true ->
  convert_api_conversation (VDict kvs) = Raise AttributeError.
Proof.
  intros Hm Hin Hn. rewrite convert_dict, Hm.
  destruct mp as [|kv mp]; [contradiction|].
  unfold py_or. cbn [truthy]. unfold mapping_messages. cbn [py_values bind].
  now rewrite (py_sort_unsortable _ n Hin Hn).
Qed.

Lemma convert_raises_on_unsortable_node_witness :
  convert_api_conversation
    (VDict [("id", VStr "c1");
            ("mapping",
             VDict [("root", VDict [("message", VNone)]);
                    ("n1", msg_node "user" (VDict [("text", VStr "Hi")]) 1)])])
  = Raise AttributeError.
Proof.
  apply (convert_raises_on_unsortable_node _
           [("root", VDict [("message", VNone)]);
            ("n1", msg_node "user" (VDict [("text", VStr "Hi")]) 1)]
           (VDict [("message", VNone)])).
  - reflexivity.
  - left. reflexivity.
  - reflexivity.
Defined.

(** ** The listing loop: offsets and termination *)

Lemma continues_by_continues (limit : Q) (r : round) (s : Q) :
  continues_by limit r s -> exists its, continues r its.
Proof. intros (data & its & Hr & Hi & Hm & _). exists its, data. auto. Qed.

Lemma safe_integer_Z (q : Q) (z : Z) :
  (q == inject_Z z)%Q -> (Z.abs z <= 2 ^ 53)%Z -> safe_integer q = true.
Proof.
  intros Hq Hz. unfold safe_integer.
  rewrite (Qred_complete _ _ Hq).
  assert (Hr : Qred (inject_Z z) = inject_Z z).
  { unfold inject_Z, Qred.
    generalize (Z.ggcd_correct_divisors z 1), (Z.ggcd_gcd z 1).
    rewrite Z.gcd_1_r.
    destruct (Z.ggcd z 1) as (g, (aa, bb)); simpl.
    intros (Ha, Hb) ->. rewrite Z.mul_1_l in Ha, Hb. now subst. }
  rewrite Hr. cbn [inject_Z Qden Qnum]. cbn zeta.
  apply andb_true_iff. split; [reflexivity|]. now apply Z.leb_le.
Qed.

Lemma js_add_exact (a : Q) (x z : Z) :
  (a == inject_Z x)%Q ->
  (Z.abs x <= 2 ^ 53)%Z -> (Z.abs z <= 2 ^ 53)%Z -> (Z.abs (x + z) <= 2 ^ 53)%Z ->
  js_add a (inject_Z z) = OffNum (a + inject_Z z).
Proof.
  intros Ha Hx Hz Hs. unfold js_add.
  rewrite (safe_integer_Z a x Ha Hx).
  rewrite (safe_integer_Z (inject_Z z) z (Qeq_refl _) Hz).
  rewrite (safe_integer_Z (a + inject_Z z) (x + z)); [reflexivity| |exact Hs].
  rewrite Ha, inject_Z_plus. reflexivity.
Qed.

Lemma list_js_loop_advances (r : round) (z : Z) (rest : list round)
  (limit a : Q) (x : Z) (res : list value) (asked : list js_offset) :
  continues_by limit r (inject_Z z) ->
  (a == inject_Z x)%Q ->
  (Z.abs x <= 2 ^ 53)%Z -> (Z.abs z <= 2 ^ 53)%Z -> (Z.abs (x + z) <= 2 ^ 53)%Z ->
  exists its,
    list_js_loop (r :: rest) limit (OffNum a) res asked
    = list_js_loop rest limit (OffNum (a + inject_Z z)) (res ++ its)
        (asked ++ [OffNum a]).
Proof.
  intros (data & its & Hr & Hi & Hm & Hl) Ha Hx Hz Hs. exists its.
  unfold page_items, page_has_more, page_limit in *.
  cbn [list_js_loop]. rewrite Hr.
  assert (Hadv : advance (OffNum a) (js_prop data "limit") limit
                 = OffNum (a + inject_Z z)).
  { unfold advance.
    destruct (js_prop data "limit"); try discriminate Hl;
      injection Hl as Hl'; rewrite Hl'; now apply (js_add_exact a x z). }
  rewrite Hadv. clear Hadv Hl.
  destruct (negb (js_truthy data)); [discriminate|].
  destruct (js_prop data "items") as [ | | | |l| ].
  5: inversion Hi; subst; now rewrite Hm.
  all: destruct (js_prop data "conversations") as [ | | | |cs| ]; try discriminate.
  all: inversion Hi; subst; now rewrite Hm.
Qed.

Lemma list_js_loop_running (limit : Q) (pre : list round) (zs : list Z) :
  Forall2 (continues_by limit) pre (map inject_Z zs) ->
  forall (last : round) (its : list value) (rest : list round) (a : Q) (x : Z)
         (res : list value) (asked : list js_offset),
    (a == inject_Z x)%Q ->
    exactly_summed x zs ->
    stops last its ->
    exists res',
      list_js_loop (pre ++ last :: rest) limit (OffNum a) res asked
      = Some (res', asked ++ offsets_from a (map inject_Z zs)).
Proof.
  revert pre. induction zs as [|z zs IH]; intros pre Hp; inversion Hp as [|r ? pre' ? Hr Hp']; subst;
    intros last its rest a x res asked Ha Hx Hs.
  - exists (res ++ its). cbn [app map offsets_from].
    now rewrite (list_js_loop_stops last its rest limit (OffNum a) res asked Hs).
  - destruct Hx as (Hx & Hz & Hxz & Hrest).
    destruct (list_js_loop_advances r z (pre' ++ last :: rest) limit a x res asked
                Hr Ha Hx Hz Hxz) as [its' Hc].
    assert (Ha' : (a + inject_Z z == inject_Z (x + z))%Q).
    { rewrite Ha, inject_Z_plus. reflexivity. }
    destruct (IH pre' Hp' last its rest (a + inject_Z z)%Q (x + z)%Z (res ++ its')
                (asked ++ [OffNum a]) Ha' Hrest Hs) as [res' Hl].
    exists res'. cbn [app map offsets_from]. rewrite Hc, Hl.
    now rewrite <- app_assoc.
Qed.

(** X7: as long as the offset and the page steps are integers whose sums
    stay within 2^53 in size, where the addition of doubles is exact, the
    offsets the listing asks are the running sums of the page steps, from
    0: each page that asks for more moves the offset by its own [limit]
    when it carries a number, and by the requested page size when it
    carries none. *)
Theorem listing_offsets_are_running_sums
  (limit : Q) (pre : list round) (zs : list Z) (last : round)
  (its : list value) (rest : list round) :
  Forall2 (continues_by limit) pre (map inject_Z zs) ->
  exactly_summed 0 zs ->
  stops last its ->
  exists res,
    LIST_JS (pre ++ last :: rest) limit
    = Some (res, offsets_from 0 (map inject_Z zs)).
Proof.
  intros Hp Hx Hs.
  destruct (list_js_loop_running limit pre zs Hp last its rest 0%Q 0%Z [] []
              (Qeq_refl _) Hx Hs) as [res H].
  now exists res.
Qed.

Lemma listing_offsets_are_running_sums_witness :
  exists res,
    LIST_JS ([answered (items_page [item "a"] true);
              answered (VDict [("items", VList [item "b"]); ("has_more", VBool true);
                               ("limit", VNum 20)])]
             ++ answered (items_page [item "c"] false) :: []) LIST_PAGE_SIZE
    = Some (res, offsets_from 0 (map inject_Z [50%Z; 20%Z])).
Proof.
  apply listing_offsets_are_running_sums with (its := [item "c"]).
  - constructor.
    + exists (items_page [item "a"] true), [item "a"]. repeat split.
    + constructor; [|constructor].
      exists (VDict [("items", VList [item "b"]); ("has_more", VBool true);
                     ("limit", VNum 20)]), [item "b"].
      repeat split.
  - cbn [exactly_summed]. vm_compute. intuition discriminate.
  - apply last_page_stops.
Defined.

(** Beyond 2^53 the sum is rounded: the offset asked after 2^53 and a page
    of one item is not 2^53 + 1. *)
Example listing_offset_rounded :
  LIST_JS [answered (VDict [("items", VList [item "a"]); ("has_more", VBool true);
                            ("limit", VNum (inject_Z (2 ^ 53)))]);
           answered (VDict [("items", VList [item "b"]); ("has_more", VBool true);
                            ("limit", VNum 1)]);
           answered (items_page [item "c"] false)] LIST_PAGE_SIZE
  = Some ([item "a"; item "b"; item "c"],
          [OffNum 0; OffNum (0 + inject_Z (2 ^ 53)); OffRounded]).
Proof. vm_compute. reflexivity. Qed.

Lemma round_continues_or_stops (r : round) :
  (exists its, continues r its) \/ (exists its, stops r its).
Proof.
  unfold continues, stops. destruct (round_reply r) as [data|].
  - destruct (page_items data) as [its|] eqn:Hi.
    + destruct (page_has_more data) eqn:Hm.
      * left. exists its, data. auto.
      * right. exists its. right. exists data. split; [reflexivity|]. right. auto.
    + right. exists []. right. exists data. split; [reflexivity|]. left. auto.
  - right. exists []. left. auto.
Qed.

Lemma list_js_loop_none (rounds : list round) (limit : Q) :
  forall (offset : js_offset) (res : list value) (asked : list js_offset),
    list_js_loop rounds limit offset res asked = None
    <-> Forall (fun r => exists its, continues r its) rounds.
Proof.
  induction rounds as [|r rounds IH]; intros offset res asked.
  - split; [constructor|reflexivity].
  - destruct (round_continues_or_stops r) as [[its Hc]|[its Hs]].
    + destruct (list_js_loop_continues r its rounds limit offset res asked Hc)
        as [offset' ->].
      rewrite IH. split.
      * intros H. constructor; [now exists its|assumption].
      * intros H. now inversion H.
    + rewrite (list_js_loop_stops r its rounds limit offset res asked Hs).
      split; [discriminate|]. intros H. inversion H as [|? ? [its' Hc] _]; subst.
      exfalso. destruct Hc as (data & Hr & Hi & Hm).
      destruct Hs as [[Hn _]|(data' & Hr' & [[Hi' _]|[_ Hm']])]; congruence.
Qed.

(** X8: the listing loop stops within the rounds it is given unless every
    one of them is a page in a known shape with a truthy [has_more]: as long
    as the service keeps saying there is more, the loop keeps asking. *)
Theorem listing_needs_a_stopping_round (rounds : list round) (limit : Q) :
  LIST_JS rounds limit = None
  <-> Forall (fun r => exists its, continues r its) rounds.
Proof. apply list_js_loop_none. Qed.

(** ** The API loop of [main] *)

Lemma assoc_dict_set_same (k : string) (v : value) (kvs : list (string * value)) :
  assoc k (dict_set k v kvs) = Some v.
Proof.
  induction kvs as [|[k0 v0] kvs IH]; simpl.
  - now rewrite String.eqb_refl.
  - destruct (String.eqb k k0) eqn:E; simpl.
    + now rewrite String.eqb_refl.
    + now rewrite E.
Qed.

(** One pass of the loop on a dict item, with the id already chosen. *)
Lemma api_loop_step (b : browser) (kvs : list (string * value))
  (rest : list value) (idx : nat) (conversations : list value) :
  api_loop b (VDict kvs :: rest) idx conversations
  = if negb (truthy (header_id kvs)) then api_loop b rest (S idx) conversations
    else
      let data := fetch_conversation_via_api b idx (header_id kvs) in
      let! conv := (if truthy data then convert_api_conversation data
                    else Ok (record (header_id kvs)
                               (py_or (field "title" kvs) (VStr "Untitled")) [])) in
      let! conv' := py_setitem conv "url"
                      (VStr (origin ++ "/c/" ++ py_str b (header_id kvs))%string) in
      api_loop b rest (S idx) (conversations ++ [conv']).
Proof.
  cbn [api_loop].
  change (py_get (VDict kvs) "id") with (Ok (field "id" kvs)).
  change (py_get (VDict kvs) "conversation_id") with (Ok (field "conversation_id" kvs)).
  change (py_get (VDict kvs) "title") with (Ok (field "title" kvs)).
  cbn [bind]. unfold py_or_else, header_id, py_or.
  destruct (truthy (field "id" kvs)); cbn [bind]; reflexivity.
Qed.

Lemma api_loop_non_dict (b : browser) (it : value) (rest : list value)
  (idx : nat) (conversations : list value) :
  is_dict it = false ->
  api_loop b (it :: rest) idx conversations = Raise AttributeError.
Proof. destruct it; try discriminate; reflexivity. Qed.

(** The loop on a list in two pieces: the second piece goes on from the
    records and the index the first has reached. *)
Lemma api_loop_app (b : browser) (pre post : list value) :
  forall (idx : nat) (conversations : list value),
    api_loop b (pre ++ post) idx conversations
    = let! mid := api_loop b pre idx conversations in
      api_loop b post (idx + length pre) mid.
Proof.
  induction pre as [|it pre IH]; intros idx convs.
  - cbn [app api_loop bind length]. now rewrite Nat.add_0_r.
  - cbn [app length]. destruct it as [ | | | | |kvs];
      try (rewrite !api_loop_non_dict by reflexivity; reflexivity).
    rewrite !api_loop_step.
    replace (idx + S (length pre))%nat with (S idx + length pre)%nat by lia.
    destruct (negb (truthy (header_id kvs))); [apply IH|].
    cbn zeta.
    destruct (if truthy (fetch_conversation_via_api b idx (header_id kvs))
              then convert_api_conversation
                     (fetch_conversation_via_api b idx (header_id kvs))
              else Ok (record (header_id kvs)
                         (py_or (field "title" kvs) (VStr "Untitled")) []))
      as [conv|e]; [|reflexivity].
    cbn [bind].
    destruct (py_setitem conv "url"
                (VStr (origin ++ "/c/" ++ py_str b (header_id kvs))%string))
      as [conv'|e]; [|reflexivity].
    cbn [bind]. apply IH.
Qed.

(** X9: when no detail can be fetched (every fetch raises or returns a
    falsy value) the API loop still returns one record per listed item that
    has an id, in listing order: the item's id, its title or ["Untitled"], no
    message, and its URL. Items without id are passed over. *)
Theorem api_loop_header_only (b : browser) (items : list value) :
  details_fail b ->
  Forall (fun it => is_dict it = true) items ->
  forall (idx : nat) (conversations : list value),
    api_loop b items idx conversations
    = Ok (conversations ++ omap (header_record b) items).
Proof.
  intros Hd Hi. induction Hi as [|it items Hit _ IH]; intros idx convs.
  - cbn. now rewrite app_nil_r.
  - destruct it as [ | | | | |kvs]; try discriminate.
    rewrite api_loop_step. cbn [omap list_omap header_record].
    destruct (truthy (header_id kvs)) eqn:E; cbn [negb]; [|apply IH].
    cbn zeta. rewrite Hd. cbn [bind]. unfold record, py_setitem.
    cbn [bind]. rewrite IH. cbn. now rewrite <- app_assoc.
Qed.

Lemma api_loop_header_only_witness :
  api_loop (api_browser [] (fun _ => VNone))
    [VDict [("id", VStr "c1"); ("title", VStr "Hello")];
     VDict [("title", VStr "no id")];
     VDict [("conversation_id", VStr "c2")]] 1 []
  = Ok ([] ++ omap (header_record (api_browser [] (fun _ => VNone)))
                [VDict [("id", VStr "c1"); ("title", VStr "Hello")];
                 VDict [("title", VStr "no id")];
                 VDict [("conversation_id", VStr "c2")]]).
Proof.
  apply api_loop_header_only.
  - intros idx cid. reflexivity.
  - repeat constructor.
Defined.

(** X10: whenever the API loop returns, the records it has added are, in
    listing order, those of the listed items that have an id; each carries
    the URL built from the id of its list item, whatever the detail payload
    says. *)
Theorem api_loop_urls_in_listing_order (b : browser) (items : list value) :
  forall (idx : nat) (conversations out : list value),
    api_loop b items idx conversations = Ok out ->
    exists added,
      out = conversations ++ added
      /\ map conv_url added = omap (item_url b) items.
Proof.
  induction items as [|it items IH]; intros idx convs out H.
  - cbn in H. inversion H; subst. exists []. now rewrite app_nil_r.
  - destruct it as [ | | | | |kvs]; try discriminate.
    rewrite api_loop_step in H. cbn [omap list_omap item_url].
    destruct (truthy (header_id kvs)) eqn:E; cbn [negb] in H; [|now apply (IH _ _ _ H)].
    cbn zeta in H. apply bind_ok in H as (conv & _ & H).
    apply bind_ok in H as (conv' & Hset & H).
    destruct (IH _ _ _ H) as (added & -> & Hu).
    exists (conv' :: added). split; [now rewrite <- app_assoc|].
    cbn [map]. rewrite Hu. f_equal.
    destruct conv; try discriminate. inversion Hset; subst.
    cbn [conv_url]. unfold field. now rewrite assoc_dict_set_same.
Qed.

Lemma api_loop_urls_in_listing_order_witness :
  exists added,
    [VDict [("id", VStr "c1"); ("title", VStr "Hello");
            ("messages", VList two_messages);
            ("url", VStr "https://chat.openai.com/c/c1")]]
    = [] ++ added
    /\ map conv_url added
       = omap (item_url (api_browser [] (fun _ => hello_detail)))
              [VDict [("title", VStr "no id")];
               VDict [("id", VStr "c1"); ("title", VStr "Hello")]].
Proof.
  apply (api_loop_urls_in_listing_order
           (api_browser [] (fun _ => hello_detail))
           [VDict [("title", VStr "no id")];
            VDict [("id", VStr "c1"); ("title", VStr "Hello")]] 1%nat).
  vm_compute. reflexivity.
Defined.

(** X11: nothing in the API loop recovers from an exception. When the loop
    reaches a listed item that is not a dict it raises [AttributeError], and
    when it reaches an item whose detail payload is truthy and makes the
    normaliser raise it raises that exception; the records built from the
    earlier items are lost. *)
Theorem api_loop_aborts (b : browser) (pre post : list value) (it : value)
  (idx : nat) (conversations mid : list value) (e : exn) :
  api_loop b pre idx conversations = Ok mid ->
  ((is_dict it = false /\ e = AttributeError)
   \/ exists kvs,
        it = VDict kvs
        /\ truthy (header_id kvs) = true
        /\ truthy (fetch_conversation_via_api b (idx + length pre) (header_id kvs))
           = true
        /\ convert_api_conversation
             (fetch_conversation_via_api b (idx + length pre) (header_id kvs))
           = Raise e) ->
  api_loop b (pre ++ it :: post) idx conversations = Raise e.
Proof.
  intros Hpre H. rewrite api_loop_app, Hpre. cbn [bind].
  destruct H as [[Hd ->]|(kvs & -> & Hc & Ht & Hr)].
  - now apply api_loop_non_dict.
  - rewrite api_loop_step, Hc. cbn [negb]. cbn zeta. now rewrite Ht, Hr.
Qed.

Lemma api_loop_aborts_witness :
  api_loop
    (api_browser []
       (fun cid => if py_eq cid (VStr "c1") then hello_detail
                   else VDict [("mapping", VDict [("root", VDict [("message", VNone)])])]))
    ([VDict [("id", VStr "c1")]] ++ VDict [("id", VStr "c2")] :: [VDict [("id", VStr "c3")]])
    1 []
  = Raise AttributeError.
Proof.
  apply (api_loop_aborts _ _ _ _ _ _
           [VDict [("id", VStr "c1"); ("title", VStr "Hello");
                   ("messages",
                    VList [VDict [("role", VStr "user"); ("text", VStr "Hi");
                                  ("html", VNone)];
                           VDict [("role", VStr "assistant"); ("text", VStr "Hello!");
                                  ("html", VNone)]]);
                   ("url", VStr "https://chat.openai.com/c/c1")]]).
  - vm_compute. reflexivity.
  - right. exists [("id", VStr "c2")]. repeat split.
Defined.

(** ** The links of the sidebar *)

Lemma contains_app_l (needle p hay : string) :
  contains needle hay = true -> contains needle (p ++ hay)%string = true.
Proof.
  intros H. induction p as [|c p IH]; [exact H|].
  change (contains needle (String c p ++ hay)%string)
    with (if String.prefix needle (String c (p ++ hay))
          then true else contains needle (p ++ hay)%string).
  rewrite IH. now destruct (String.prefix needle (String c (p ++ hay))).
Qed.

Lemma anchor_title_trimmed (a : anchor) (t : string) :
  anchor_title a = Ok t -> trimmed t.
Proof.
  unfold anchor_title. intros H. apply bind_ok in H as (o & _ & H).
  destruct o as [s|].
  - destruct (opt_truthy (Some s)).
    + inversion H. apply strip_trimmed.
    + apply bind_ok in H as (i & _ & H). inversion H. apply strip_trimmed.
  - apply bind_ok in H as (i & _ & H). inversion H. apply strip_trimmed.
Qed.

Lemma link_of_anchor_chat (a : anchor) (L : link) :
  link_of_anchor a = Some L -> chat_link L.
Proof.
  unfold link_of_anchor, chat_link.
  destruct (a_href a) as [h|]; [|discriminate].
  destruct (anchor_title a) as [t|] eqn:Et; [|discriminate].
  destruct h as [hr|]; [|discriminate].
  destruct (opt_truthy (Some hr) && contains "/c/" hr) eqn:E; [|discriminate].
  apply andb_true_iff in E as [_ Hc]. intros H. inversion H; subst. cbn [href title].
  split; [|split].
  - destruct (String.prefix "http" hr) eqn:Ep; [exact Ep|reflexivity].
  - destruct (String.prefix "http" hr); [exact Hc|]. now apply contains_app_l.
  - now apply (anchor_title_trimmed a).
Qed.

(** The loop over the anchors of one selector appends the links of the
    anchors that can be read, in order. *)
Lemma collect_anchors_omap (l : list anchor) (links : list link) :
  collect_anchors l links = links ++ omap link_of_anchor l.
Proof.
  revert links. induction l as [|a l IH]; intros links; cbn.
  - now rewrite app_nil_r.
  - destruct (link_of_anchor a) as [L|]; rewrite IH; [|reflexivity].
    now rewrite <- app_assoc.
Qed.

Lemma collect_links_omap (sb : sidebar) :
  collect_links sb = omap link_of_anchor (all_anchors sb).
Proof.
  unfold collect_links, all_anchors, chat_link_candidates.
  cbn [fold_left map concat]. rewrite !collect_anchors_omap.
  rewrite app_nil_r, !omap_app. cbn [app]. now rewrite <- !app_assoc.
Qed.

Lemma firsts_Forall (P : link -> Prop) (links : list link) (seen : gset string) :
  Forall P links -> Forall P (firsts links seen).
Proof.
  intros H. revert seen. induction H as [|L links HL _ IH]; intros seen; cbn.
  - constructor.
  - destruct (decide (link_id L ∈ seen)); [apply IH|].
    constructor; [exact HL|apply IH].
Qed.

Lemma omap_Forall {A B : Type} (f : A -> option B) (P : B -> Prop) (l : list A) :
  (forall a b, f a = Some b -> P b) -> Forall P (omap f l).
Proof.
  intros H. induction l as [|a l IH]; cbn; [constructor|].
  destruct (f a) as [b|] eqn:E; [|exact IH].
  constructor; [now apply (H a)|exact IH].
Qed.

(** X12: every link returned by [load_all_chats_dom] has an absolute URL
    (it starts with ["http"], the origin being put in front of a relative
    path), a URL containing ["/c/"], and a title without white space at
    either end. *)
Theorem sidebar_links_are_chat_links (sb : sidebar) :
  Forall chat_link (load_all_chats_dom sb).
Proof.
  unfold load_all_chats_dom. destruct (negb (sidebar_found sb)); [constructor|].
  cbn zeta. unfold dedup_links. rewrite dedup_loop_firsts. cbn [app].
  apply firsts_Forall. rewrite collect_links_omap.
  apply omap_Forall. apply link_of_anchor_chat.
Qed.

(** The body of the [try] gives the link the anchor stands for. *)
Lemma link_of_anchor_chat_anchor (a : anchor) :
  link_of_anchor a = chat_anchor a.
Proof.
  unfold link_of_anchor, chat_anchor, anchor_title, title_source.
  destruct (a_href a) as [[hr|]|e].
  - destruct (a_title a) as [[[|c t]|]|e']; cbn [bind opt_truthy String.eqb negb].
    + destruct (a_inner_text a) as [i|e'']; cbn [bind]; [|reflexivity].
      replace (if String.eqb i "" then "" else i) with i
        by (destruct (String.eqb i "") eqn:E; [now apply String.eqb_eq in E|reflexivity]).
      destruct hr as [|c hr]; [reflexivity|]. reflexivity.
    + destruct hr as [|c' hr]; [reflexivity|]. reflexivity.
    + destruct (a_inner_text a) as [i|e'']; cbn [bind]; [|reflexivity].
      replace (if String.eqb i "" then "" else i) with i
        by (destruct (String.eqb i "") eqn:E; [now apply String.eqb_eq in E|reflexivity]).
      destruct hr as [|c hr]; [reflexivity|]. reflexivity.
    + reflexivity.
  - destruct (a_title a) as [[[|c t]|]|e']; cbn [bind opt_truthy String.eqb negb];
      try reflexivity;
      destruct (a_inner_text a) as [i|e'']; reflexivity.
  - reflexivity.
Qed.

Lemma all_anchors_matched (sb : sidebar) : all_anchors sb = matched_anchors sb.
Proof.
  unfold all_anchors, matched_anchors, chat_link_candidates.
  cbn [map concat]. now rewrite app_nil_r.
Qed.

(** X13: the links returned are made of the anchors matched by the four
    link selectors, selector after selector and in page order: an anchor
    gives a link when none of its reads raises and its [href] is there and
    contains ["/c/"]; the link has the [href] as URL, after the origin
    unless it starts with ["http"], and as title the [title] attribute or,
    when that is missing or empty, the inner text, trimmed. The links are
    then de-duplicated; without a sidebar there is no link. *)
Theorem sidebar_links_pipeline (sb : sidebar) :
  load_all_chats_dom sb
  = if sidebar_found sb
    then dedup_links (omap chat_anchor (matched_anchors sb))
    else [].
Proof.
  unfold load_all_chats_dom. destruct (sidebar_found sb); [|reflexivity].
  cbn [negb]. cbn zeta. rewrite collect_links_omap, all_anchors_matched.
  f_equal. induction (matched_anchors sb) as [|a l IH]; [reflexivity|].
  cbn [omap list_omap]. rewrite link_of_anchor_chat_anchor.
  destruct (chat_anchor a); now rewrite IH.
Qed.

(** Two selectors that overlap, an anchor that has gone, a link that is no
    chat: two links, the relative one made absolute and its title trimmed. *)
Lemma sidebar_links_pipeline_witness :
  load_all_chats_dom overlapping_sidebar
  = [{| href := "https://chat.openai.com/c/abc"; title := "First" |};
     {| href := "https://chat.openai.com/c/xyz"; title := "Second" |}].
Proof.
  rewrite (sidebar_links_pipeline overlapping_sidebar).
  vm_compute. reflexivity.
Defined.

Lemma firsts_distinct (links : list link) (seen : gset string) :
  NoDup (map link_id links) ->
  (forall L, In L links -> link_id L ∉ seen) ->
  firsts links seen = links.
Proof.
  revert seen. induction links as [|L links IH]; intros seen Hn Hs; [reflexivity|].
  cbn [firsts]. cbn [map] in Hn. apply NoDup_cons in Hn as [Hnin Hn].
  destruct (decide (link_id L ∈ seen)) as [Hin|_].
  - exfalso. apply (Hs L); [now left|exact Hin].
  - f_equal. apply IH; [exact Hn|].
    intros L' HL' Hin. apply elem_of_union in Hin as [Hin|Hin].
    + apply elem_of_singleton in Hin. apply Hnin. rewrite <- Hin.
      apply list_elem_of_In. now apply in_map.
    + apply (Hs L'); [now right|exact Hin].
Qed.

(** X14: de-duplication leaves a list of links with pairwise distinct ids
    as it is, and doing it twice is the same as doing it once. *)
Theorem dedup_links_idempotent (links : list link) :
  (NoDup (map link_id links) -> dedup_links links = links)
  /\ dedup_links (dedup_links links) = dedup_links links.
Proof.
  assert (H : forall l, NoDup (map link_id l) -> dedup_links l = l).
  { intros l Hl. unfold dedup_links. rewrite dedup_loop_firsts. cbn [app].
    apply firsts_distinct; [exact Hl|]. intros L _. apply not_elem_of_empty. }
  split; [apply H|]. apply H.
  unfold dedup_links. rewrite dedup_loop_firsts. apply firsts_NoDup.
Qed.

Lemma dedup_links_idempotent_witness :
  dedup_links [{| href := "https://chat.openai.com/c/abc"; title := "first" |};
               {| href := "https://chat.openai.com/c/xyz"; title := "second" |}]
  = [{| href := "https://chat.openai.com/c/abc"; title := "first" |};
     {| href := "https://chat.openai.com/c/xyz"; title := "second" |}].
Proof.
  destruct (dedup_links_idempotent
              [{| href := "https://chat.openai.com/c/abc"; title := "first" |};
               {| href := "https://chat.openai.com/c/xyz"; title := "second" |}])
    as [H _].
  apply H. clear H. cbn [map]. apply NoDup_cons. split; [|apply NoDup_singleton].
  intros H. apply list_elem_of_singleton in H. vm_compute in H. discriminate H.
Defined.

(** ** The records of the DOM path *)

Lemma after_last_slash_none (s : string) :
  after_last_slash s = None -> slash_free s = true.
Proof.
  induction s as [|c s IH]; [reflexivity|]. cbn [after_last_slash slash_free].
  destruct (after_last_slash s) as [t|]; [discriminate|].
  destruct (Ascii.eqb c slash); [discriminate|]. intros _. now rewrite IH.
Qed.

Lemma after_last_slash_some (s t : string) :
  after_last_slash s = Some t -> slash_free t = true.
Proof.
  induction s as [|c s IH]; [discriminate|]. cbn [after_last_slash].
  destruct (after_last_slash s) as [t'|] eqn:E.
  - intros H. inversion H; subst. now apply IH.
  - destruct (Ascii.eqb c slash); [|discriminate].
    intros H. inversion H; subst. now apply after_last_slash_none.
Qed.

(** The trailing segment never contains a slash. *)
Lemma rsplit_last_slash_free (s : string) : slash_free (rsplit_last s) = true.
Proof.
  unfold rsplit_last. destruct (after_last_slash s) as [t|] eqn:E.
  - now apply (after_last_slash_some s).
  - now apply after_last_slash_none.
Qed.

Lemma dom_loop_added (b : browser) (links : list link) :
  forall (idx : nat) (conversations out : list value),
    dom_loop b links idx conversations = Ok out ->
    exists added,
      out = conversations ++ added
      /\ map conv_id added = map (fun L => VStr (link_id L)) links
      /\ map conv_url added = map (fun L => VStr (href L)) links.
Proof.
  induction links as [|L links IH]; intros idx convs out H.
  - cbn in H. inversion H; subst. exists []. now rewrite app_nil_r.
  - cbn [dom_loop] in H. cbn zeta in H. apply bind_ok in H as (turns & _ & H).
    destruct (IH _ _ _ H) as (added & -> & Hi & Hu).
    eexists (_ :: added). split; [now rewrite <- app_assoc|].
    cbn [map]. rewrite Hi, Hu. split; reflexivity.
Qed.

Lemma NoDup_map_VStr (l : list string) : NoDup l -> NoDup (map VStr l).
Proof.
  induction 1 as [|s l Hs _ IH]; cbn; constructor; [|exact IH].
  intros H. apply Hs. apply list_elem_of_In in H. apply in_map_iff in H.
  destruct H as (t & Ht & Hin). inversion Ht; subst. now apply list_elem_of_In.
Qed.

(** X15: when the DOM loop returns, the document has one record per link
    of the sidebar, in link order; the record's URL is the link's and its id
    is the trailing path segment of that URL. The ids contain no slash and
    are pairwise distinct. *)
Theorem dom_records_follow_links (b : browser) (sb : sidebar) (idx : nat)
  (out : list value) :
  dom_loop b (load_all_chats_dom sb) idx [] = Ok out ->
  map conv_url out = map (fun L => VStr (href L)) (load_all_chats_dom sb)
  /\ map conv_id out = map (fun L => VStr (link_id L)) (load_all_chats_dom sb)
  /\ NoDup (map conv_id out)
  /\ Forall (fun c => exists s, conv_id c = VStr s /\ slash_free s = true) out.
Proof.
  intros H. apply dom_loop_added in H as (added & -> & Hi & Hu). cbn [app].
  split; [exact Hu|]. split; [exact Hi|]. split.
  - rewrite Hi. rewrite <- (map_map link_id VStr). apply NoDup_map_VStr.
    unfold load_all_chats_dom. destruct (negb (sidebar_found sb)); [constructor|].
    cbn zeta. unfold dedup_links. rewrite dedup_loop_firsts. apply firsts_NoDup.
  - apply Forall_forall. intros c Hc. apply list_elem_of_In in Hc.
    apply (in_map conv_id) in Hc. rewrite Hi in Hc. apply in_map_iff in Hc.
    destruct Hc as (L & HL & _). exists (link_id L). split; [now symmetry|].
    apply rsplit_last_slash_free.
Qed.

Lemma dom_records_follow_links_witness :
  map conv_id
    [VDict [("id", VStr "abc"); ("url", VStr "https://chat.openai.com/c/abc");
            ("title", VStr "A chat"); ("messages", VList [])]]
  = map (fun L => VStr (link_id L))
        (load_all_chats_dom (sidebar_with [anchor_to "/c/abc" "A chat"])).
Proof.
  apply (dom_records_follow_links
           (dom_browser (sidebar_with [anchor_to "/c/abc" "A chat"]))
           (sidebar_with [anchor_to "/c/abc" "A chat"]) 1%nat).
  vm_compute. reflexivity.
Defined.

(** ** The turns of a conversation page *)

Lemma first_locator_match (count : string -> result nat) (selectors : list string)
  (r : option string) :
  _first_locator count selectors = Ok r <-> first_match count selectors r.
Proof.
  revert r. induction selectors as [|s sels IH]; intros r.
  - cbn. split.
    + intros H. inversion H; subst. constructor.
    + destruct r as [x|]; [|reflexivity].
      intros (pre & post & n & H & _). now destruct pre.
  - cbn [_first_locator]. destruct (count s) as [n|e] eqn:Ec; cbn [bind].
    + destruct (0 <? n)%nat eqn:En.
      * apply Nat.ltb_lt in En. split.
        -- intros H. inversion H; subst. exists [], sels, n. repeat split; auto.
        -- destruct r as [x|].
           ++ intros (pre & post & m & H & Hpre & Hx & Hm).
              destruct pre as [|p pre]; cbn in H; inversion H; subst; [reflexivity|].
              inversion Hpre as [|? ? Hp _]; subst. rewrite Ec in Hp.
              inversion Hp; subst. lia.
           ++ intros H. inversion H as [|? ? Hs _]; subst. rewrite Ec in Hs.
              inversion Hs; subst. lia.
      * apply Nat.ltb_ge in En. assert (n = 0%nat) as -> by lia.
        rewrite IH. destruct r as [x|]; cbn [first_match].
        -- split.
           ++ intros (pre & post & m & -> & Hpre & Hx & Hm).
              exists (s :: pre), post, m. repeat split; auto.
           ++ intros (pre & post & m & H & Hpre & Hx & Hm).
              destruct pre as [|p pre]; cbn in H; inversion H; subst.
              ** rewrite Ec in Hx. inversion Hx; subst. lia.
              ** exists pre, post, m. inversion Hpre; subst. repeat split; auto.
        -- split; [now constructor|]. intros H. now inversion H.
    + split; [discriminate|]. destruct r as [x|]; cbn [first_match].
      * intros (pre & post & m & H & Hpre & Hx & Hm).
        destruct pre as [|p pre]; cbn in H; inversion H; subst.
        -- congruence.
        -- inversion Hpre; subst. congruence.
      * intros H. inversion H; subst. congruence.
Qed.

(** X16: [_first_locator] returns a selector exactly when that selector is
    the first with a positive count and every selector before it has the
    count 0; it returns [None] exactly when every count is 0. A count that
    raises before any match makes it raise. *)
Theorem first_locator_first_match (count : string -> result nat)
  (selectors : list string) :
  (forall r, _first_locator count selectors = Ok r
             <-> first_match count selectors r)
  /\ (forall pre s post e,
         selectors = pre ++ s :: post ->
         Forall (fun x => count x = Ok 0%nat) pre ->
         count s = Raise e ->
         _first_locator count selectors = Raise e).
Proof.
  split; [apply first_locator_match|].
  intros pre s post e -> Hpre Hs.
  induction Hpre as [|p pre Hp _ IH]; cbn [app _first_locator].
  - now rewrite Hs.
  - rewrite Hp. cbn [bind]. exact IH.
Qed.

Lemma first_locator_first_match_witness :
  _first_locator (fun s => if String.eqb s ".markdown" then Ok 2%nat else Ok 0%nat)
                 content_candidates
  = Ok (Some ".markdown").
Proof.
  apply first_locator_first_match.
  exists ["[data-message-content]"],
    [("[data-testid=" ++ dq ++ "model-viewer" ++ dq ++ "]")%string; "article"],
    2%nat.
  repeat split; [repeat constructor|lia].
Defined.

Lemma turn_role_not_empty (e : turn_element) : turn_role e <> "".
Proof.
  unfold turn_role. destruct (role_count e) as [n|]; [|discriminate].
  destruct (0 <? n)%nat; [|discriminate].
  destruct (role_attr e) as [[s|]|]; try discriminate.
  destruct (String.eqb s "") eqn:E; [discriminate|]. now apply String.eqb_neq.
Qed.

Lemma read_pair_trimmed (rt rh : result string) (text : string) :
  trimmed text -> trimmed (fst (read_pair rt rh text)).
Proof.
  intros H. unfold read_pair. destruct rt as [t|]; [|exact H].
  destruct rh; apply strip_trimmed.
Qed.

Lemma turn_text_trimmed (e : turn_element) (content_el : option string) :
  trimmed (fst (turn_text_html e content_el)).
Proof.
  unfold turn_text_html.
  set (attempt := match content_el with
                  | Some s =>
                      match content_count e s with
                      | Ok n =>
                          if (0 <? n)%nat
                          then read_pair (content_text e s) (content_html e s) ""
                          else read_pair (node_text e) (node_html e) ""
                      | Raise _ => ("", None)
                      end
                  | None => read_pair (node_text e) (node_html e) ""
                  end).
  assert (Ha : trimmed (fst attempt)).
  { subst attempt. destruct content_el as [s|].
    - destruct (content_count e s) as [n|]; [|apply trimmed_empty].
      destruct (0 <? n)%nat; apply read_pair_trimmed, trimmed_empty.
    - apply read_pair_trimmed, trimmed_empty. }
  destruct attempt as [text [html|]]; [exact Ha|].
  pose proof (read_pair_trimmed (node_text_retry e) (node_html_retry e) text Ha) as Hr.
  now destruct (read_pair (node_text_retry e) (node_html_retry e) text) as [t' [h'|]].
Qed.

Lemma extract_turn_shape (e : turn_element) (t : value) :
  extract_turn e = Ok t -> dom_turn t.
Proof.
  unfold extract_turn. cbn zeta. intros H.
  apply bind_ok in H as (content_el & _ & H).
  pose proof (turn_text_trimmed e content_el) as Ht.
  destruct (turn_text_html e content_el) as [text html]. inversion H; subst.
  exists (turn_role e), text, html. split; [reflexivity|].
  split; [apply turn_role_not_empty|exact Ht].
Qed.

Lemma extract_turns_dom_inv (pg : turns_page) (turns : list value) :
  extract_turns_dom pg = Ok turns ->
  exists found count,
    _first_locator (turn_match pg) turn_candidates = Ok found
    /\ turn_count pg (match found with Some s => s | None => "article" end)
       = Ok count
    /\ map_each (fun i => extract_turn
                            (turn_at pg (match found with
                                         | Some s => s
                                         | None => "article"
                                         end) i))
                (seq 0 count)
       = Ok turns.
Proof.
  unfold extract_turns_dom. intros H.
  apply bind_ok in H as (u & _ & H). apply bind_ok in H as (n & _ & H).
  apply bind_ok in H as (found & Hf & H). cbn zeta in H.
  apply bind_ok in H as (count & Hc & H). rewrite for_each_append in H.
  apply bind_ok in H as (ts & Hts & H). inversion H; subst.
  exists found, count. repeat split; assumption.
Qed.

Lemma extract_turns_all_shaped (f : nat -> turn_element) (l : list nat)
  (turns : list value) :
  map_each (fun i => extract_turn (f i)) l = Ok turns -> Forall dom_turn turns.
Proof.
  intros H. apply map_each_Forall2 in H.
  induction H as [|i t idxs ts Hi _ IH]; [constructor|].
  constructor; [|exact IH]. now apply extract_turn_shape in Hi.
Qed.

(** X17: every turn [extract_turns_dom] returns has the three keys [role],
    [text] and [html], all strings; the role is never empty (it falls back
    to ["assistant"]) and the text has no white space at either end, even
    when reads of the element fail. *)
Theorem extract_turns_dom_shaped (pg : turns_page) (turns : list value) :
  extract_turns_dom pg = Ok turns -> Forall dom_turn turns.
Proof.
  intros H. apply extract_turns_dom_inv in H as (found & count & _ & _ & H).
  now apply extract_turns_all_shaped in H.
Qed.


Example extract_turns_dom_one_turn :
  extract_turns_dom one_turn_page
  = Ok [VDict [("role", VStr "user"); ("text", VStr "Hi"); ("html", VStr "<p>Hi</p>")]].
Proof. vm_compute. reflexivity. Qed.

Lemma extract_turns_dom_shaped_witness :
  Forall dom_turn
    [VDict [("role", VStr "user"); ("text", VStr "Hi"); ("html", VStr "<p>Hi</p>")]].
Proof.
  apply (extract_turns_dom_shaped one_turn_page). vm_compute. reflexivity.
Defined.


Lemma height_loop_passes (pg : turns_page) (left i n : nat) :
  height_loop pg left i (seen_height pg i) = Ok n ->
  (i <= n <= i + left)%nat
  /\ (forall k, (i < k <= n)%nat -> exists h, height_at pg (k - 1) = Ok h)
  /\ (forall k, (i < k < n)%nat -> seen_height pg k <> seen_height pg (k - 1))
  /\ ((n < i + left)%nat ->
      (i < n)%nat /\ seen_height pg n = seen_height pg (n - 1)).
Proof.
  revert i. induction left as [|left IH]; intros i H.
  - cbn in H. inversion H; subst. repeat split; try lia; intros; lia.
  - cbn [height_loop] in H. destruct (height_at pg i) as [h|] eqn:Eh; [|discriminate].
    cbn [bind] in H.
    assert (Hs : seen_height pg (S i) = h) by (cbn; now rewrite Eh).
    destruct (h =? seen_height pg i)%Z eqn:E.
    + inversion H; subst n. apply Z.eqb_eq in E. split; [lia|]. split; [|split].
      * intros k Hk. assert (k = S i) as -> by lia.
        replace (S i - 1)%nat with i by lia. eauto.
      * intros k Hk. lia.
      * intros _. split; [lia|]. replace (S i - 1)%nat with i by lia. congruence.
    + rewrite <- Hs in H. apply IH in H as (Hn & Hr & Hd & Hstop).
      apply Z.eqb_neq in E. split; [lia|]. split; [|split].
      * intros k Hk. destruct (Nat.eq_dec k (S i)) as [->|Hne].
        -- replace (S i - 1)%nat with i by lia. eauto.
        -- apply Hr. lia.
      * intros k Hk. destruct (Nat.eq_dec k (S i)) as [->|Hne].
        -- replace (S i - 1)%nat with i by lia. congruence.
        -- apply Hd. lia.
      * intros Hlt. destruct Hstop as [Hin Heq]; [lia|]. split; [lia|exact Heq].
Qed.

(** X19: when the height loop of [extract_turns_dom] returns it has entered
    at most 60 passes, every pass could read the height, no pass before the
    last read the height of the pass before it, and if it ended before pass
    60 the last pass read the same height as the one before (the first pass
    being compared with 0). *)
Theorem height_loop_bounded (pg : turns_page) (n : nat) :
  height_loop pg HEIGHT_PASSES 0 0 = Ok n ->
  (n <= 60)%nat
  /\ (forall k, (1 <= k <= n)%nat -> exists h, height_at pg (k - 1) = Ok h)
  /\ (forall k, (1 <= k < n)%nat -> seen_height pg k <> seen_height pg (k - 1))
  /\ ((n < 60)%nat ->
      (1 <= n)%nat /\ seen_height pg n = seen_height pg (n - 1)).
Proof.
  intros H. apply (height_loop_passes pg HEIGHT_PASSES 0 n) in H.
  destruct H as (Hn & Hr & Hd & Hs). unfold HEIGHT_PASSES in *.
  split; [lia|]. split; [|split].
  - intros k Hk. apply Hr. lia.
  - intros k Hk. apply Hd. lia.
  - intros Hlt. destruct Hs as [H1 H2]; [lia|]. split; [lia|exact H2].
Qed.

Lemma height_loop_bounded_witness :
  (2 <= 60)%nat
  /\ (forall k, (1 <= k <= 2)%nat -> exists h, height_at one_turn_page (k - 1) = Ok h)
  /\ (forall k, (1 <= k < 2)%nat ->
                seen_height one_turn_page k <> seen_height one_turn_page (k - 1))
  /\ ((2 < 60)%nat ->
      (1 <= 2)%nat /\ seen_height one_turn_page 2 = seen_height one_turn_page (2 - 1)).
Proof.
  apply (height_loop_bounded one_turn_page 2). vm_compute. reflexivity.
Defined.

(** ** A sidebar that does not change *)




(** ** The messages of the export document *)

Lemma unanswered_details_fail (b : browser) :
  (forall idx cid,
      (exists e, detail b idx cid = Raise e)
      \/ (exists r, detail b idx cid = Ok (FETCH_ONE_JS r) /\ round_reply r = None)) ->
  details_fail b.
Proof.
  intros H idx cid. unfold fetch_conversation_via_api.
  destruct (H idx cid) as [[e ->]|(r & -> & Hr)]; [reflexivity|].
  unfold FETCH_ONE_JS. now rewrite Hr.
Qed.

Lemma setitem_url_keeps_messages (conv conv' u : value) :
  py_setitem conv "url" u = Ok conv' -> conv_messages conv' = conv_messages conv.
Proof.
  destruct conv; simpl; intros H; inversion H; subst. simpl. unfold field.
  now rewrite assoc_dict_set_other.
Qed.

Lemma api_loop_records (b : browser) (items : list value) :
  forall (idx : nat) (conversations out : list value),
    Forall api_record conversations ->
    api_loop b items idx conversations = Ok out ->
    Forall api_record out.
Proof.
  induction items as [|it items IH]; intros idx convs out Hc H.
  - cbn in H. now inversion H; subst.
  - destruct it as [ | | | | |kvs]; try discriminate.
    rewrite api_loop_step in H.
    destruct (negb (truthy (header_id kvs))); [now apply (IH _ _ _ Hc H)|].
    cbn zeta in H. apply bind_ok in H as (conv & Hconv & H).
    apply bind_ok in H as (conv' & Hset & H).
    refine (IH _ _ _ _ H). apply Forall_app. split; [assumption|].
    constructor; [|constructor]. unfold api_record.
    rewrite (setitem_url_keeps_messages _ _ _ Hset).
    destruct (truthy (fetch_conversation_via_api b idx (header_id kvs))).
    + destruct (fetch_conversation_via_api b idx (header_id kvs))
        as [ | | | | |dk]; try discriminate.
      rewrite convert_dict in Hconv. apply bind_ok in Hconv as (msgs & Hm & Hconv).
      inversion Hconv; subst.
      change (conv_messages (record (header_id dk) (header_title dk) msgs)) with msgs.
      destruct (truthy (py_or (field "mapping" dk) (VDict []))).
      * now apply mapping_messages_api in Hm.
      * inversion Hm. constructor.
    + inversion Hconv; subst. constructor.
Qed.

Lemma dom_loop_records (b : browser) (links : list link) :
  turns_extracted b ->
  forall (idx : nat) (conversations out : list value),
    Forall dom_record conversations ->
    dom_loop b links idx conversations = Ok out ->
    Forall dom_record out.
Proof.
  intros Hb. induction links as [|L links IH]; intros idx convs out Hc H.
  - cbn in H. now inversion H; subst.
  - cbn [dom_loop] in H. cbn zeta in H. apply bind_ok in H as (turns & Ht & H).
    refine (IH _ _ _ _ H). apply Forall_app. split; [assumption|].
    constructor; [|constructor]. unfold dom_record. cbn.
    destruct (Hb idx) as [pg Hpg]. rewrite Hpg in Ht.
    apply extract_turns_dom_inv in Ht as (found & count & _ & _ & Ht).
    now apply extract_turns_all_shaped in Ht.
Qed.

(** X21: the records of one document all come from the same path. Either
    every message of every record is one the normaliser built (a non-empty
    role, a trimmed text, [html] is [None]), or every message of every
    record is a page turn (a non-empty role, a trimmed text, [html] is a
    string); the API and the DOM records are never mixed. *)
Theorem main_records_from_one_path (b : browser) (conversations : list value) :
  turns_extracted b ->
  main_conversations b = Ok conversations ->
  Forall api_record conversations \/ Forall dom_record conversations.
Proof.
  intros Hb H. unfold main_conversations in H.
  apply bind_ok in H as (convs & Ha & H).
  assert (Hc : Forall api_record convs).
  { destruct (list_conversations_via_api (listing b)) as [|it items].
    - inversion Ha. constructor.
    - apply (api_loop_records b (it :: items) 1%nat [] convs); [constructor|assumption]. }
  destruct convs as [|c convs].
  - right.
    apply (dom_loop_records b (load_all_chats_dom (side b)) Hb 1%nat [] conversations);
      [constructor|assumption].
  - left. now inversion H; subst.
Qed.

Lemma main_records_from_one_path_witness :
  Forall api_record
    [VDict [("id", VStr "c1"); ("title", VStr "Hello");
            ("messages", VList two_messages);
            ("url", VStr "https://chat.openai.com/c/c1")]]
  \/ Forall dom_record
       [VDict [("id", VStr "c1"); ("title", VStr "Hello");
               ("messages", VList two_messages);
               ("url", VStr "https://chat.openai.com/c/c1")]].
Proof.
  apply (main_records_from_one_path
           (api_browser [VDict [("id", VStr "c1"); ("title", VStr "Hello")]]
                        (fun _ => hello_detail))).
  - intros idx. exists {| scroll_top := Ok tt; height_at := fun _ => Ok 0%Z;
                          turn_match := fun _ => Ok 0%nat;
                          turn_count := fun _ => Ok 0%nat;
                          turn_at := fun _ _ => markdown_turn |}.
    reflexivity.
  - vm_compute. reflexivity.
Defined.

(** ** The payloads on which the normaliser returns *)

Lemma timed_node_iff (n : value) :
  timed_node n = true <-> unsortable n = false /\ numeric_time n = true.
Proof.
  unfold timed_node, unsortable, numeric_time.
  destruct n as [ | | | | |nk]; try (split; [discriminate|intros [H _]; discriminate]).
  destruct (assoc "message" nk) as [m|]; [|now split].
  destruct m as [ | | | | |mk];
    try (split; [discriminate|intros [H _]; discriminate]).
  destruct (assoc "create_time" mk); split; try tauto; intros H; now split.
Qed.

Lemma Forall2_In_l {A B : Type} (R : A -> B -> Prop) (l : list A) (k : list B) (x : A) :
  Forall2 R l k -> In x l -> exists y, R x y.
Proof.
  induction 1 as [|a b l k Hab _ IH]; intros Hin; [contradiction|].
  destruct Hin as [->|Hin]; [eauto|now apply IH].
Qed.

(** X22: on a payload whose node timestamps are numbers or missing, the
    normaliser returns a record exactly when every node of the mapping is a
    dict whose [message] key is absent or holds a dict, and is readable by
    the loop body (author falsy or a dict, content falsy or a dict, string
    [text] in object parts); on every other such payload it raises. *)
Theorem convert_returns_exactly (kvs mp : list (string * value)) :
  field "mapping" kvs = VDict mp ->
  Forall (fun n => numeric_time n = true) (map snd mp) ->
  (exists conv, convert_api_conversation (VDict kvs) = Ok conv)
  <-> Forall (fun n => unsortable n = false /\ readable_node n = true) (map snd mp).
Proof.
  intros Hm Ht. split.
  - intros [conv H]. apply List.Forall_forall. intros n Hin. split.
    + destruct (unsortable n) eqn:E; [|reflexivity].
      rewrite convert_dict, Hm in H. destruct mp as [|kv mp]; [contradiction|].
      unfold py_or in H. cbn [truthy] in H. unfold mapping_messages in H.
      cbn [py_values bind] in H. rewrite (py_sort_unsortable _ n Hin E) in H.
      discriminate.
    + rewrite convert_dict, Hm in H. destruct mp as [|kv mp]; [contradiction|].
      unfold py_or in H. cbn [truthy] in H.
      apply bind_ok in H as (msgs & Hmsgs & _).
      destruct (mapping_messages_nodes _ _ Hmsgs) as (nodes & Hp & Hf).
      destruct (Forall2_In_l (fun n m => node_message n = Ok m) nodes msgs n Hf)
        as [m Hnm]; [now apply (Permutation_in _ Hp)|].
      now apply (node_message_returns_readable n m).
  - intros Hn. rewrite convert_dict, Hm. destruct mp as [|kv mp]; [cbn; eauto|].
    unfold py_or. cbn [truthy]. unfold mapping_messages. cbn [py_values bind].
    assert (Htimed : Forall (fun n => timed_node n = true) (map snd (kv :: mp))).
    { apply List.Forall_forall. intros n Hin. apply timed_node_iff.
      rewrite List.Forall_forall in Hn, Ht. split; [now apply Hn|now apply Ht]. }
    destruct (py_sort_by_time _ Htimed) as (sorted & -> & Hp & _). cbn [bind].
    destruct (map_each_total node_message sorted) as [msgs ->]; [|cbn; eauto].
    rewrite <- Hp. eapply Forall_impl; [exact Hn|].
    intros n [_ Hr]. now apply readable_node_message.
Qed.

Lemma convert_returns_exactly_witness :
  Forall (fun n => unsortable n = false /\ readable_node n = true) (map snd two_nodes).
Proof.
  apply (convert_returns_exactly [("id", VStr "c1"); ("mapping", VDict two_nodes)]).
  - reflexivity.
  - repeat constructor.
  - eexists. vm_compute. reflexivity.
Defined.

(** ** The choice between the two paths *)

Lemma api_loop_without_ids (b : browser) (items : list value) :
  Forall item_without_id items ->
  forall (idx : nat) (conversations : list value),
    api_loop b items idx conversations = Ok conversations.
Proof.
  induction 1 as [|it items (kvs & -> & Hid) _ IH]; intros idx convs; [reflexivity|].
  rewrite api_loop_step, Hid. apply IH.
Qed.

(** X23: [main] takes the records of the API path as they are whenever
    there is at least one, and the sidebar is not consulted then; it falls
    back to the DOM path when the listing fails, lists nothing, or lists
    only items that have neither [id] nor [conversation_id]. *)
Theorem main_path_choice (b : browser) :
  (forall c cs,
      api_loop b (list_conversations_via_api (listing b)) 1 [] = Ok (c :: cs) ->
      main_conversations b = Ok (c :: cs))
  /\ (Forall item_without_id (list_conversations_via_api (listing b)) ->
      main_conversations b = dom_loop b (load_all_chats_dom (side b)) 1 []).
Proof.
  unfold main_conversations. split.
  - intros c cs H. destruct (list_conversations_via_api (listing b)) as [|it items].
    + discriminate.
    + now rewrite H.
  - intros H. destruct (list_conversations_via_api (listing b)) as [|it items].
    + reflexivity.
    + now rewrite (api_loop_without_ids b (it :: items) H).
Qed.

Lemma main_path_choice_witness :
  main_conversations
    {| listing := Ok [VDict [("title", VStr "no id")]];
       detail := fun _ _ => Raise PlaywrightError;
       side := sidebar_with [anchor_to "/c/abc" "A chat"];
       title_count := fun _ _ => 0%nat;
       title_text := fun _ _ => Raise PlaywrightError;
       page_turns := fun _ => Ok [];
       str_other := fun _ => "" |}
  = dom_loop
      {| listing := Ok [VDict [("title", VStr "no id")]];
         detail := fun _ _ => Raise PlaywrightError;
         side := sidebar_with [anchor_to "/c/abc" "A chat"];
         title_count := fun _ _ => 0%nat;
         title_text := fun _ _ => Raise PlaywrightError;
         page_turns := fun _ => Ok [];
         str_other := fun _ => "" |}
      (load_all_chats_dom (sidebar_with [anchor_to "/c/abc" "A chat"])) 1 [].
Proof.
  destruct (main_path_choice
              {| listing := Ok [VDict [("title", VStr "no id")]];
                 detail := fun _ _ => Raise PlaywrightError;
                 side := sidebar_with [anchor_to "/c/abc" "A chat"];
                 title_count := fun _ _ => 0%nat;
                 title_text := fun _ _ => Raise PlaywrightError;
                 page_turns := fun _ => Ok [];
                 str_other := fun _ => "" |}) as [_ H].
  apply H. constructor; [|constructor].
  exists [("title", VStr "no id")]. split; reflexivity.
Defined.
